(** * The f3fs shrinker: registry of mounted instances, count and scan

  A shallow embedding of [src/f2fs/shrinker.c].  The file keeps the
  registry of mounted instances ([f3fs_list]), reports how many cache
  objects could be reclaimed ([f3fs_shrink_count]) and evicts a requested
  number of them, round-robin over the instances ([f3fs_shrink_scan]).

  Modelling choices, in the order of the definitions below:
  - C integers are [Z] with the wrap-around of each type written out
    ([Width.u32], [Width.u64], [Width.s32], [Width.s64]);
  - an instance ([struct f3fs_sb_info]) lives in a memory indexed by its
    address; the linked list [f3fs_list] is the sequence of the addresses
    of its nodes, from [f3fs_list.next] to [f3fs_list.prev]; a list cursor
    is [Some a] for the node of instance [a] and [None] for the list head;
  - the code runs in a state monad over that memory; every lock operation,
    list operation and call into a cache leaves an event in a trace;
  - the three cache shrinkers and [MAX_FREE_NIDS] are declared in headers
    that are not part of the sources; they are parameters of the model.

  Module [Sysfs] embeds two printers of [src/f2fs/sysfs.c]: the feature
  list of an instance ([features_show]) and the segment table of procfs
  ([segment_info_seq_show]). *)

From Stdlib Require Import ZArith List Bool Lia PeanoNat.
From Stdlib Require Ascii String.
Import ListNotations.

Set Implicit Arguments.
Local Open Scope Z_scope.

(** ** Fixed-width arithmetic *)

Module Width.

(** Conversion to [unsigned int] and to [unsigned long]. *)
Definition u32 (z : Z) : Z := z mod 2 ^ 32.
Definition u64 (z : Z) : Z := z mod 2 ^ 64.

(** Conversion to [int] and to [long] (two's complement). *)
Definition s32 (z : Z) : Z := (z + 2 ^ 31) mod 2 ^ 32 - 2 ^ 31.
Definition s64 (z : Z) : Z := (z + 2 ^ 63) mod 2 ^ 64 - 2 ^ 63.

End Width.

Arguments Width.u32 : simpl never.
Arguments Width.u64 : simpl never.
Arguments Width.s32 : simpl never.
Arguments Width.s64 : simpl never.

(** ** Events *)

(** The three caches of an instance. *)
Inductive cache_kind : Type :=
| ExtentCache
| NatCache
| FreeNidCache.

(** What a run leaves in the trace.  A shrink event records the instance,
  the count asked for at the call site, the count the cache reports freed
  and whether [f3fs_list_lock] was held at the call; a list event records
  whether the lock was held as well. *)
Inductive event : Type :=
| EvTryLock (sbi : nat) (acquired : bool)
| EvMutexUnlock (sbi : nat)
| EvStamp (sbi : nat) (run_no : Z)
| EvShrink (k : cache_kind) (sbi : nat) (nr_shrink freed : Z) (list_locked : bool)
| EvListAddTail (sbi : nat) (list_locked : bool)
| EvListMoveTail (sbi : nat) (list_locked : bool)
| EvListDel (sbi : nat) (list_locked : bool).

(** How an iteration leaves the body of a [while] loop. *)
Inductive flow : Type :=
| Break
| Continue.

(** ** Reading a trace *)

(** The instance an event is about. *)
Definition event_sbi (e : event) : nat :=
  match e with
  | EvTryLock a _ | EvMutexUnlock a | EvStamp a _ | EvShrink _ a _ _ _
  | EvListAddTail a _ | EvListMoveTail a _ | EvListDel a _ => a
  end.

(** The instances whose gate was acquired, in the order of acquisition. *)
Fixpoint acquired (evs : list event) : list nat :=
  match evs with
  | [] => []
  | EvTryLock a true :: evs' => a :: acquired evs'
  | _ :: evs' => acquired evs'
  end.

(** The nodes of [l] whose gate the trace [evs] did not acquire. *)
Definition kept (evs : list event) (l : list nat) : list nat :=
  filter (fun x => negb (existsb (Nat.eqb x) (acquired evs))) l.

(** A shrink request: the cache, the instance, the count asked for and the
    count reported freed. *)
Definition request : Type := cache_kind * nat * Z * Z.

Fixpoint requests (evs : list event) : list request :=
  match evs with
  | [] => []
  | EvShrink k a n r _ :: evs' => (k, a, n, r) :: requests evs'
  | _ :: evs' => requests evs'
  end.

(** The objects reported freed by the shrink requests of a trace. *)
Fixpoint freed_of (evs : list event) : Z :=
  match evs with
  | [] => 0
  | EvShrink _ _ _ r _ :: evs' => r + freed_of evs'
  | _ :: evs' => freed_of evs'
  end.

(** Attempts on a gate and shrink requests: the work of a walk. *)
Definition is_work (e : event) : bool :=
  match e with
  | EvTryLock _ _ | EvShrink _ _ _ _ _ => true
  | _ => false
  end.

Definition is_trylock (e : event) : bool :=
  match e with
  | EvTryLock _ _ => true
  | _ => false
  end.

Definition is_request (e : event) : bool :=
  match e with
  | EvShrink _ _ _ _ _ => true
  | _ => false
  end.

(** The instances whose extent cache was asked, in the order of asking. *)
Fixpoint extent_asked (evs : list event) : list nat :=
  match evs with
  | [] => []
  | EvShrink ExtentCache a _ _ _ :: evs' => a :: extent_asked evs'
  | _ :: evs' => extent_asked evs'
  end.

(** [work_below nr freed asked evs]: with [freed] objects freed and [asked]
    telling whether a request was made before [evs], every attempt on a gate
    and every request of [evs] is made while fewer than [nr] objects are
    freed, or, when [nr] is zero, before the first request. *)
Fixpoint work_below (nr freed : Z) (asked : bool) (evs : list event) : Prop :=
  match evs with
  | [] => True
  | e :: evs' =>
      (is_work e = true -> freed < nr \/ (nr = 0 /\ asked = false)) /\
      work_below nr (freed + freed_of [e]) (asked || is_request e) evs'
  end.

(** The list lock is not held when a cache is asked, and is held when the
    list is changed. *)
Definition lock_as_due (e : event) : Prop :=
  match e with
  | EvShrink _ _ _ _ lk => lk = false
  | EvListAddTail _ lk | EvListMoveTail _ lk | EvListDel _ lk => lk = true
  | _ => True
  end.

(** The gate held after the events [evs], when [h] was held before them
    ([None]: no gate). *)
Fixpoint holding_after (h : option nat) (evs : list event) : option nat :=
  match evs with
  | [] => h
  | EvTryLock a true :: evs' => holding_after (Some a) evs'
  | EvMutexUnlock _ :: evs' => holding_after None evs'
  | _ :: evs' => holding_after h evs'
  end.

(** Stamps, shrink requests and moves to the tail: what is done to an
    instance under its gate. *)
Definition under_gate_event (e : event) : bool :=
  match e with
  | EvStamp _ _ | EvShrink _ _ _ _ _ | EvListMoveTail _ _ => true
  | _ => false
  end.

(** [under_gate h evs]: starting with the gate [h] held, every stamp, shrink
    request and move of [evs] is about the instance whose gate is held at
    that time. *)
Fixpoint under_gate (h : option nat) (evs : list event) : Prop :=
  match evs with
  | [] => True
  | e :: evs' =>
      (under_gate_event e = true -> h = Some (event_sbi e)) /\
      under_gate (holding_after h [e]) evs'
  end.

(** ** The budget rule, in the words of the specification *)

(** A later tier (NAT cache, free-id cache) of instance [a], reached with
    [freed] objects freed: left out when [freed] has reached the target,
    else asked for what is missing. *)
Inductive later_tier (k : cache_kind) (target : Z) (a : nat) (freed : Z)
  : list request -> Z -> Prop :=
| tier_left_out :
    target <= freed ->
    later_tier k target a freed [] freed
| tier_asked (r : Z) :
    freed < target ->
    later_tier k target a freed [(k, a, target - freed, r)] (freed + r).

(** The requests of a scan, instance after instance: the extent cache is
    asked for half the target whatever has been freed, then the two later
    tiers; [freed] runs on from one instance to the next. *)
Inductive tiered (target : Z) : Z -> list request -> Z -> Prop :=
| tiered_done (freed : Z) :
    tiered target freed [] freed
| tiered_instance (a : nat) (freed r1 f2 f3 out : Z) (t2 t3 rest : list request) :
    later_tier NatCache target a (freed + r1) t2 f2 ->
    later_tier FreeNidCache target a f2 t3 f3 ->
    tiered target f3 rest out ->
    tiered target freed ((ExtentCache, a, target / 2, r1) :: t2 ++ t3 ++ rest) out.

(** ** Linked list operations of [<linux/list.h>], on the sequence of nodes *)

Module KList.

(** [a->next] for the node [a] of the list [l]; [None] is the head. *)
Fixpoint node_next (l : list nat) (a : nat) : option nat :=
  match l with
  | [] => None
  | x :: l' => if Nat.eqb x a then hd_error l' else node_next l' a
  end.

(** [list_del_init]: the node is unlinked. *)
Definition list_del_init (a : nat) (l : list nat) : list nat :=
  remove Nat.eq_dec a l.

(** [list_add_tail]: the node is linked just before the head. *)
Definition list_add_tail (a : nat) (l : list nat) : list nat :=
  l ++ [a].

(** [list_move_tail]: unlinked, then linked just before the head. *)
Definition list_move_tail (a : nat) (l : list nat) : list nat :=
  list_add_tail a (list_del_init a l).

End KList.

Section Shrinker.

(** The part of [struct f3fs_sb_info] that only the caches look at. *)
Variable priv : Type.

(** [MAX_FREE_NIDS] of node.h, an [unsigned long] expression there
    (a multiple of [PAGE_SIZE / sizeof(struct f3fs_nat_entry)]). *)
Variable MAX_FREE_NIDS : Z.

(** The counters the count functions read, and the rest of the caches. *)
Record f3fs_caches : Type := mkCaches {
  total_zombie_tree : Z;          (* atomic_t *)
  total_ext_node : Z;             (* atomic_t *)
  nat_cnt_RECLAIMABLE_NAT : Z;    (* NM_I(sbi)->nat_cnt[RECLAIMABLE_NAT], unsigned int *)
  nid_cnt_FREE_NID : Z;           (* NM_I(sbi)->nid_cnt[FREE_NID], unsigned int *)
  cache_private : priv
}.

(** The three shrinkers, as functions of the caches of the instance and of
    the count passed at the call site; they return the caches they leave
    and the count they report.  They have no access to [umount_mutex] or
    to [shrinker_run_no] of the instance. *)
Variable extent_tree_shrinker : f3fs_caches -> Z -> f3fs_caches * Z.
Variable nats_shrinker : f3fs_caches -> Z -> f3fs_caches * Z.
Variable nids_shrinker : f3fs_caches -> Z -> f3fs_caches * Z.

Definition shrinker (k : cache_kind) : f3fs_caches -> Z -> f3fs_caches * Z :=
  match k with
  | ExtentCache => extent_tree_shrinker
  | NatCache => nats_shrinker
  | FreeNidCache => nids_shrinker
  end.

(** [struct f3fs_sb_info], as far as shrinker.c uses it. *)
Record f3fs_sb_info : Type := mkSbi {
  umount_mutex : bool;            (* true: held *)
  sb_shrinker_run_no : Z;         (* sbi->shrinker_run_no, unsigned int *)
  caches : f3fs_caches
}.

Definition set_umount_mutex (b : bool) (sb : f3fs_sb_info) : f3fs_sb_info :=
  mkSbi b (sb_shrinker_run_no sb) (caches sb).

Definition set_sb_shrinker_run_no (r : Z) (sb : f3fs_sb_info) : f3fs_sb_info :=
  mkSbi (umount_mutex sb) r (caches sb).

Definition set_caches (c : f3fs_caches) (sb : f3fs_sb_info) : f3fs_sb_info :=
  mkSbi (umount_mutex sb) (sb_shrinker_run_no sb) c.

(** The state the file works on: its three statics, the memory holding
    the instances, and the trace. *)
Record kstate : Type := mkState {
  f3fs_list : list nat;
  f3fs_list_lock : bool;
  shrinker_run_no : Z;            (* unsigned int *)
  mem : nat -> f3fs_sb_info;
  trace : list event
}.

Definition store (a : nat) (f : f3fs_sb_info -> f3fs_sb_info)
           (m : nat -> f3fs_sb_info) : nat -> f3fs_sb_info :=
  fun x => if Nat.eqb x a then f (m x) else m x.

(** *** The state monad *)

Definition M (A : Type) : Type := kstate -> A * kstate.

Definition ret {A : Type} (a : A) : M A := fun s => (a, s).

Definition bind {A B : Type} (m : M A) (k : A -> M B) : M B :=
  fun s => let (a, s') := m s in k a s'.

Notation "x <- m ;; k" := (bind m (fun x => k))
  (at level 61, m at next level, right associativity).
Notation "m ;; k" := (bind m (fun _ => k))
  (at level 61, right associativity).

Definition emit (e : event) : M unit := fun s =>
  (tt, mkState (f3fs_list s) (f3fs_list_lock s) (shrinker_run_no s) (mem s)
               (trace s ++ [e])).

Definition set_list_lock (b : bool) : M unit := fun s =>
  (tt, mkState (f3fs_list s) b (shrinker_run_no s) (mem s) (trace s)).

Definition set_list (f : list nat -> list nat) : M unit := fun s =>
  (tt, mkState (f (f3fs_list s)) (f3fs_list_lock s) (shrinker_run_no s)
               (mem s) (trace s)).

Definition set_run_no (r : Z) : M unit := fun s =>
  (tt, mkState (f3fs_list s) (f3fs_list_lock s) r (mem s) (trace s)).

Definition modify (a : nat) (f : f3fs_sb_info -> f3fs_sb_info) : M unit :=
  fun s =>
    (tt, mkState (f3fs_list s) (f3fs_list_lock s) (shrinker_run_no s)
                 (store a f (mem s)) (trace s)).

Definition read {A : Type} (f : kstate -> A) : M A := fun s => (f s, s).

(** *** Locks *)

Definition spin_lock : M unit := set_list_lock true.
Definition spin_unlock : M unit := set_list_lock false.

(** [mutex_trylock(&sbi->umount_mutex)]: never waits. *)
Definition mutex_trylock (sbi : nat) : M bool :=
  held <- read (fun s => umount_mutex (mem s sbi)) ;;
  if held then
    emit (EvTryLock sbi false) ;; ret false
  else
    modify sbi (set_umount_mutex true) ;;
    emit (EvTryLock sbi true) ;; ret true.

Definition mutex_unlock (sbi : nat) : M unit :=
  modify sbi (set_umount_mutex false) ;;
  emit (EvMutexUnlock sbi).

(** *** The list *)

Definition list_first : M (option nat) :=
  read (fun s => hd_error (f3fs_list s)).

Definition list_next (sbi : nat) : M (option nat) :=
  read (fun s => KList.node_next (f3fs_list s) sbi).

Definition list_add_tail (sbi : nat) : M unit :=
  lk <- read f3fs_list_lock ;;
  set_list (KList.list_add_tail sbi) ;;
  emit (EvListAddTail sbi lk).

Definition list_move_tail (sbi : nat) : M unit :=
  lk <- read f3fs_list_lock ;;
  set_list (KList.list_move_tail sbi) ;;
  emit (EvListMoveTail sbi lk).

Definition list_del_init (sbi : nat) : M unit :=
  lk <- read f3fs_list_lock ;;
  set_list (KList.list_del_init sbi) ;;
  emit (EvListDel sbi lk).

(** *** Calls into the caches *)

Definition call_shrinker (k : cache_kind) (sbi : nat) (nr_shrink : Z) : M Z :=
  c <- read (fun s => caches (mem s sbi)) ;;
  lk <- read f3fs_list_lock ;;
  let (c', freed) := shrinker k c nr_shrink in
  modify sbi (set_caches c') ;;
  emit (EvShrink k sbi nr_shrink freed lk) ;;
  ret freed.

Definition f3fs_shrink_extent_tree : nat -> Z -> M Z := call_shrinker ExtentCache.
Definition f3fs_try_to_free_nats : nat -> Z -> M Z := call_shrinker NatCache.
Definition f3fs_try_to_free_nids : nat -> Z -> M Z := call_shrinker FreeNidCache.

(** *** The count functions *)

(** [return NM_I(sbi)->nat_cnt[RECLAIMABLE_NAT];] as [unsigned long]. *)
Definition __count_nat_entries (sb : f3fs_sb_info) : Z :=
  Width.u64 (nat_cnt_RECLAIMABLE_NAT (caches sb)).

(** [long count = NM_I(sbi)->nid_cnt[FREE_NID] - MAX_FREE_NIDS;]
    the subtraction is done in [unsigned long], the result read as [long];
    [return count > 0 ? count : 0;] as [unsigned long]. *)
Definition __count_free_nids (sb : f3fs_sb_info) : Z :=
  let count := Width.s64 (Width.u64 (nid_cnt_FREE_NID (caches sb) - MAX_FREE_NIDS)) in
  Width.u64 (if 0 <? count then count else 0).

(** [atomic_read] returns [int]; their sum is an [int], returned as
    [unsigned long]. *)
Definition __count_extent_cache (sb : f3fs_sb_info) : Z :=
  Width.u64 (Width.s32 (total_zombie_tree (caches sb) + total_ext_node (caches sb))).

(** *** [f3fs_shrink_count] *)

(** The walk of lines 45 to 68.  The list is not changed by it, so the
    cursor [p] runs over the nodes in list order. *)
Fixpoint count_walk (p : list nat) (count : Z) : M Z :=
  match p with
  | [] => ret count
  | sbi :: next =>
      acquired <- mutex_trylock sbi ;;
      if negb acquired then
        count_walk next count
      else
        spin_unlock ;;
        n1 <- read (fun s => __count_extent_cache (mem s sbi)) ;;
        let count := Width.u64 (count + n1) in
        n2 <- read (fun s => __count_nat_entries (mem s sbi)) ;;
        let count := Width.u64 (count + n2) in
        n3 <- read (fun s => __count_free_nids (mem s sbi)) ;;
        let count := Width.u64 (count + n3) in
        spin_lock ;;
        mutex_unlock sbi ;;
        count_walk next count
  end.

Definition f3fs_shrink_count : M Z :=
  spin_lock ;;
  p <- read f3fs_list ;;
  count <- count_walk p 0 ;;
  spin_unlock ;;
  ret count.

(** *** [f3fs_shrink_scan] *)

(** [do { run_no = ++shrinker_run_no; } while (run_no == 0);] *)
Fixpoint fresh_run_no (fuel : nat) (s : kstate) : option (Z * kstate) :=
  match fuel with
  | O => None
  | S fuel' =>
      let (run_no, s') :=
        (c <- read shrinker_run_no ;;
         set_run_no (Width.u32 (c + 1)) ;;
         read shrinker_run_no) s in
      if run_no =? 0 then fresh_run_no fuel' s' else Some (run_no, s')
  end.

(** The body of the [while] loop of lines 87 to 119, entered with [p]
    on the node of [sbi]. *)
Definition scan_iter (run_no nr : Z) (sbi : nat) (freed : Z)
  : M (flow * option nat * Z) :=
  marker <- read (fun s => sb_shrinker_run_no (mem s sbi)) ;;
  if marker =? run_no then
    ret (Break, Some sbi, freed)
  else
    acquired <- mutex_trylock sbi ;;
    if negb acquired then
      p <- list_next sbi ;;
      ret (Continue, p, freed)
    else
      spin_unlock ;;
      modify sbi (set_sb_shrinker_run_no run_no) ;;
      emit (EvStamp sbi run_no) ;;
      r <- f3fs_shrink_extent_tree sbi (Z.shiftr nr 1) ;;
      let freed := Width.u64 (freed + r) in
      freed <- (if freed <? nr then
                  r <- f3fs_try_to_free_nats sbi (Width.u64 (nr - freed)) ;;
                  ret (Width.u64 (freed + r))
                else ret freed) ;;
      freed <- (if freed <? nr then
                  r <- f3fs_try_to_free_nids sbi (Width.u64 (nr - freed)) ;;
                  ret (Width.u64 (freed + r))
                else ret freed) ;;
      spin_lock ;;
      p <- list_next sbi ;;
      list_move_tail sbi ;;
      mutex_unlock sbi ;;
      if nr <=? freed then ret (Break, p, freed)
      else ret (Continue, p, freed).

Fixpoint scan_walk (fuel : nat) (run_no nr : Z) (p : option nat) (freed : Z)
         (s : kstate) : option (Z * kstate) :=
  match fuel with
  | O => None
  | S fuel' =>
      match p with
      | None => Some (freed, s)
      | Some sbi =>
          let '(fl, p', freed', s') := scan_iter run_no nr sbi freed s in
          match fl with
          | Break => Some (freed', s')
          | Continue => scan_walk fuel' run_no nr p' freed' s'
          end
      end
  end.

Definition f3fs_shrink_scan_fuel (fuel : nat) (nr : Z) (s : kstate)
  : option (Z * kstate) :=
  let (_, s) := spin_lock s in
  match fresh_run_no fuel s with
  | None => None
  | Some (run_no, s) =>
      let (p, s) := list_first s in
      match scan_walk fuel run_no nr p 0 s with
      | None => None
      | Some (freed, s) =>
          let (_, s) := spin_unlock s in
          Some (freed, s)
      end
  end.

(** Each loop is given two more turns than the list has nodes. *)
Definition f3fs_shrink_scan (nr : Z) (s : kstate) : option (Z * kstate) :=
  f3fs_shrink_scan_fuel (2 + length (f3fs_list s)) nr s.

(** *** [f3fs_join_shrinker] and [f3fs_leave_shrinker] *)

Definition f3fs_join_shrinker (sbi : nat) : M unit :=
  spin_lock ;;
  list_add_tail sbi ;;
  spin_unlock.

Definition f3fs_leave_shrinker (sbi : nat) : M unit :=
  n <- read (fun s => __count_extent_cache (mem s sbi)) ;;
  _ <- f3fs_shrink_extent_tree sbi n ;;
  spin_lock ;;
  list_del_init sbi ;;
  spin_unlock.

(** ** Auxiliary definitions for the proofs *)

(** What a tier does when it is reached with [freed] objects freed so far
    and the lock released. *)
Definition tier (k : cache_kind) (nr : Z) (a : nat)
           (st : f3fs_caches * Z * list event) : f3fs_caches * Z * list event :=
  let '(c, freed, evs) := st in
  if freed <? nr then
    let (c', r) := shrinker k c (Width.u64 (nr - freed)) in
    (c', Width.u64 (freed + r),
     evs ++ [EvShrink k a (Width.u64 (nr - freed)) r false])
  else st.

(** The three tiers of lines 102 to 111 on the caches [c] of instance [a]. *)
Definition tiers (nr freed : Z) (a : nat) (c : f3fs_caches)
  : f3fs_caches * Z * list event :=
  let (c1, r1) := extent_tree_shrinker c (Z.shiftr nr 1) in
  tier FreeNidCache nr a
    (tier NatCache nr a
       (c1, Width.u64 (freed + r1),
        [EvShrink ExtentCache a (Z.shiftr nr 1) r1 false])).

(** The state a processed instance is left in. *)
Definition processed (run_no : Z) (a : nat) (c : f3fs_caches)
           (evs : list event) (s s' : kstate) : Prop :=
  f3fs_list s' = KList.list_move_tail a (f3fs_list s) /\
  f3fs_list_lock s' = true /\
  shrinker_run_no s' = shrinker_run_no s /\
  mem s' a = mkSbi false run_no c /\
  (forall x, x <> a -> mem s' x = mem s x) /\
  trace s' = trace s ++ EvTryLock a true :: EvStamp a run_no :: evs
                     ++ [EvListMoveTail a true; EvMutexUnlock a].

(** The events of a turn that processes instance [a]: the gate is taken,
    the instance stamped, the tiers run, the node moved to the tail and
    the gate released. *)
Definition visit (run_no : Z) (a : nat) (tevs : list event) : list event :=
  EvTryLock a true :: EvStamp a run_no :: tevs
    ++ [EvListMoveTail a true; EvMutexUnlock a].

(** [Walk run_no nr rest freed s evs freed' s']: entered with the cursor
    on the first node of [rest], with [freed] objects freed and in state
    [s], the loop leaves the events [evs] and ends with [freed'] in state
    [s'].  [rest] holds the nodes between the cursor and the first node
    this run has already moved to the tail (or the list head). *)
Inductive Walk (run_no nr : Z)
  : list nat -> Z -> kstate -> list event -> Z -> kstate -> Prop :=
| Walk_head freed s :
    Walk run_no nr [] freed s [] freed s
| Walk_cycle a rest freed s :
    sb_shrinker_run_no (mem s a) = run_no ->
    Walk run_no nr (a :: rest) freed s [] freed s
| Walk_busy a rest freed s evs freed' s' :
    sb_shrinker_run_no (mem s a) <> run_no ->
    umount_mutex (mem s a) = true ->
    Walk run_no nr rest freed (snd (emit (EvTryLock a false) s)) evs freed' s' ->
    Walk run_no nr (a :: rest) freed s (EvTryLock a false :: evs) freed' s'
| Walk_enough a rest freed s c freed1 tevs s1 :
    sb_shrinker_run_no (mem s a) <> run_no ->
    umount_mutex (mem s a) = false ->
    tiers nr freed a (caches (mem s a)) = (c, freed1, tevs) ->
    processed run_no a c tevs s s1 ->
    nr <= freed1 ->
    Walk run_no nr (a :: rest) freed s (visit run_no a tevs) freed1 s1
| Walk_more a rest freed s c freed1 tevs s1 evs freed' s' :
    sb_shrinker_run_no (mem s a) <> run_no ->
    umount_mutex (mem s a) = false ->
    tiers nr freed a (caches (mem s a)) = (c, freed1, tevs) ->
    processed run_no a c tevs s s1 ->
    freed1 < nr ->
    Walk run_no nr rest freed1 s1 evs freed' s' ->
    Walk run_no nr (a :: rest) freed s (visit run_no a tevs ++ evs) freed' s'.

(** The counters of an instance hold values of their types, and the two
    extent counters add up within [int]. *)
Definition counters_in_range (sb : f3fs_sb_info) : Prop :=
  0 <= total_zombie_tree (caches sb) /\
  0 <= total_ext_node (caches sb) /\
  total_zombie_tree (caches sb) + total_ext_node (caches sb) < 2 ^ 31 /\
  0 <= nat_cnt_RECLAIMABLE_NAT (caches sb) < 2 ^ 32 /\
  0 <= nid_cnt_FREE_NID (caches sb) < 2 ^ 32.

(** What the specification counts for one instance: zombie trees and cached
    extent nodes, clean NAT entries, free ids above the watermark. *)
Definition reclaimable (sb : f3fs_sb_info) : Z :=
  (total_zombie_tree (caches sb) + total_ext_node (caches sb))
  + nat_cnt_RECLAIMABLE_NAT (caches sb)
  + Z.max 0 (nid_cnt_FREE_NID (caches sb) - MAX_FREE_NIDS).

Definition gate_free (m : nat -> f3fs_sb_info) (a : nat) : bool :=
  negb (umount_mutex (m a)).

Definition sumZ (l : list Z) : Z := fold_right Z.add 0 l.

(** The sum over the instances of [l] whose gate is free. *)
Definition count_sum (m : nat -> f3fs_sb_info) (l : list nat) : Z :=
  sumZ (map (fun a => reclaimable (m a)) (filter (gate_free m) l)).

(** The events of a count walk: a failed attempt for a busy instance, an
    acquisition and a release for the others. *)
Definition count_events (m : nat -> f3fs_sb_info) (l : list nat) : list event :=
  flat_map (fun a => if umount_mutex (m a) then [EvTryLock a false]
                     else [EvTryLock a true; EvMutexUnlock a]) l.

(** The run id that the loop of lines 83 to 85 leaves in
    [shrinker_run_no] when it starts from [c]. *)
Definition next_run_no (c : Z) : Z :=
  let c1 := Width.u32 (c + 1) in
  if c1 =? 0 then Width.u32 (c1 + 1) else c1.

(** The state in which the walk of a scan starts: lock taken, run id drawn. *)
Definition scan_start (s : kstate) : kstate :=
  mkState (f3fs_list s) true (next_run_no (shrinker_run_no s)) (mem s) (trace s).

(** [n] scans in a row, each asked for [nr] objects. *)
Fixpoint scan_repeat (n : nat) (nr : Z) (s : kstate) : option kstate :=
  match n with
  | O => Some s
  | S n' =>
      match f3fs_shrink_scan nr s with
      | None => None
      | Some (_, s') => scan_repeat n' nr s'
      end
  end.

(** The shrinkers report counts that fit [unsigned int]. *)
Definition shrinkers_bounded : Prop :=
  forall (k : cache_kind) (c : f3fs_caches) (n : Z),
    0 <= snd (shrinker k c n) < 2 ^ 32.

(** Asked the way a scan for one object asks, the caches [c] give up at
    least one object: the extent cache when asked for none, or else the NAT
    cache or the free-id cache when asked for one. *)
Definition yields_one (c : f3fs_caches) : Prop :=
  let (c1, r1) := extent_tree_shrinker c 0 in
  1 <= r1 \/
  let (c2, r2) := nats_shrinker c1 1 in
  1 <= r2 \/ 1 <= snd (nids_shrinker c2 1).

(** The run id that the [j]-th scan from now draws, when the run counter
    holds [c] now. *)
Definition run_id_after (j : nat) (c : Z) : Z := Nat.iter j next_run_no c.

(** Scans in a row, asked for the targets of [targets] in turn. *)
Fixpoint scan_history (targets : list Z) (s : kstate) : option kstate :=
  match targets with
  | [] => Some s
  | nr :: targets' =>
      match f3fs_shrink_scan nr s with
      | None => None
      | Some (_, s') => scan_history targets' s'
      end
  end.

(** No instance carries the run id of the scan that is to process it when
    every scan processes the head of the list: the marker of the instance
    [k] nodes behind the head is not the run id of the scan [k] scans from
    now. *)
Definition rotation_ready (s : kstate) : Prop :=
  forall (k : nat) (a : nat),
    nth_error (f3fs_list s) k = Some a ->
    sb_shrinker_run_no (mem s a) <> run_id_after (S k) (shrinker_run_no s).

(** The markers of the instances of [l], with [extra] more nodes behind
    them, when the run counter holds [c]: a marker is zero, as before the
    first stamp, or the run id of one of the last scans, at most as many
    scans back as there are nodes behind the instance. *)
Fixpoint stamped_lately (m : nat -> f3fs_sb_info) (c : Z) (extra : nat)
         (l : list nat) : Prop :=
  match l with
  | [] => True
  | a :: l' =>
      (sb_shrinker_run_no (m a) = 0 \/
       exists j : nat,
         (j <= length l' + extra)%nat /\
         1 <= sb_shrinker_run_no (m a) <= 2 ^ 32 - 1 /\
         run_id_after j (sb_shrinker_run_no (m a)) = c) /\
      stamped_lately m c extra l'
  end.

End Shrinker.

(** * The feature list of sysfs

  A shallow embedding of [features_show] of [src/f2fs/sysfs.c], the
  deprecated per-instance [features] file.  The page handed in by sysfs is
  read as a C string: a buffer is the list of the characters before its
  first NUL.  The [f3fs_sb_has_...] macros of f3fs.h test one bit each of
  the feature word of the super block; the model takes their results. *)

Module Sysfs.

Import Ascii String.

(** The characters of a string literal. *)
Definition chars (s : string) : list ascii := list_ascii_of_string s.

Arguments chars s%_string.

Definition newline : ascii := ascii_of_nat 10.

Definition INT_MAX : Z := 2 ^ 31 - 1.

(** What [features_show] reads of an instance. *)
Record sb_features : Type := mkFeatures {
  f3fs_sb_has_encrypt : bool;
  f3fs_sb_has_blkzoned : bool;
  f3fs_sb_has_extra_attr : bool;
  f3fs_sb_has_project_quota : bool;
  f3fs_sb_has_inode_chksum : bool;
  f3fs_sb_has_flexible_inline_xattr : bool;
  f3fs_sb_has_quota_ino : bool;
  f3fs_sb_has_inode_crtime : bool;
  f3fs_sb_has_lost_found : bool;
  f3fs_sb_has_verity : bool;
  f3fs_sb_has_sb_chksum : bool;
  f3fs_sb_has_casefold : bool;
  f3fs_sb_has_readonly : bool;
  f3fs_sb_has_compression : bool
}.

(** [scnprintf(buf + off, size, ...)] of the kernel, for a format that
    expands to [text]: nothing is written when [size] is zero or above
    [INT_MAX]; otherwise the first [size - 1] characters of [text] and a NUL
    are written at offset [off], and their number, the NUL apart, is
    returned.  Written behind the NUL of [buf], they do not change the
    string that [buf] holds. *)
Definition scnprintf (buf : list ascii) (off size : Z) (text : list ascii)
  : list ascii * Z :=
  if (size =? 0) || (INT_MAX <? size) then (buf, 0)
  else
    let out := firstn (Z.to_nat (size - 1)) text in
    (if off <=? Z.of_nat (List.length buf)
     then firstn (Z.to_nat off) buf ++ out
     else buf,
     Z.of_nat (List.length out)).

Section Features.

Variable PAGE_SIZE : Z.

(** [len += scnprintf(buf + len, PAGE_SIZE - len, ...)], with [len] an
    [int] and the size an [unsigned long]. *)
Definition print_at (st : list ascii * Z) (text : list ascii)
  : list ascii * Z :=
  let (buf, len) := st in
  let (buf', n) := scnprintf buf len (Width.u64 (PAGE_SIZE - len)) text in
  (buf', Width.s32 (len + n)).

(** [len ? ", " : ""] *)
Definition separator (len : Z) : list ascii :=
  if len =? 0 then [] else chars ", ".

(** One of lines 154 to 192: the feature is printed, after a separator if
    something was printed before, when the instance has it. *)
Definition print_feature (has : bool) (name : string)
           (st : list ascii * Z) : list ascii * Z :=
  if has then print_at st (separator (snd st) ++ chars name) else st.

(** [features_show]: the string left in the page [buf] and the value
    returned. *)
Definition features_show (sbi : sb_features) (buf : list ascii)
  : list ascii * Z :=
  let st := (buf, 0) in
  let st := if f3fs_sb_has_encrypt sbi
            then print_at st (chars "encryption") else st in
  let st := print_feature (f3fs_sb_has_blkzoned sbi) "blkzoned" st in
  let st := print_feature (f3fs_sb_has_extra_attr sbi) "extra_attr" st in
  let st := print_feature (f3fs_sb_has_project_quota sbi) "projquota" st in
  let st := print_feature (f3fs_sb_has_inode_chksum sbi) "inode_checksum" st in
  let st := print_feature (f3fs_sb_has_flexible_inline_xattr sbi)
                          "flexible_inline_xattr" st in
  let st := print_feature (f3fs_sb_has_quota_ino sbi) "quota_ino" st in
  let st := print_feature (f3fs_sb_has_inode_crtime sbi) "inode_crtime" st in
  let st := print_feature (f3fs_sb_has_lost_found sbi) "lost_found" st in
  let st := print_feature (f3fs_sb_has_verity sbi) "verity" st in
  let st := print_feature (f3fs_sb_has_sb_chksum sbi) "sb_checksum" st in
  let st := print_feature (f3fs_sb_has_casefold sbi) "casefold" st in
  let st := print_feature (f3fs_sb_has_readonly sbi) "readonly" st in
  let st := print_feature (f3fs_sb_has_compression sbi) "compression" st in
  let st := print_at st (separator (snd st) ++ chars "pin_file") in
  print_at st [newline].

End Features.

(** ** The line the file is meant to hold *)

(** The features in the order of the source, each with its test. *)
Definition feature_table (sbi : sb_features) : list (bool * string) :=
  [(f3fs_sb_has_encrypt sbi, "encryption");
   (f3fs_sb_has_blkzoned sbi, "blkzoned");
   (f3fs_sb_has_extra_attr sbi, "extra_attr");
   (f3fs_sb_has_project_quota sbi, "projquota");
   (f3fs_sb_has_inode_chksum sbi, "inode_checksum");
   (f3fs_sb_has_flexible_inline_xattr sbi, "flexible_inline_xattr");
   (f3fs_sb_has_quota_ino sbi, "quota_ino");
   (f3fs_sb_has_inode_crtime sbi, "inode_crtime");
   (f3fs_sb_has_lost_found sbi, "lost_found");
   (f3fs_sb_has_verity sbi, "verity");
   (f3fs_sb_has_sb_chksum sbi, "sb_checksum");
   (f3fs_sb_has_casefold sbi, "casefold");
   (f3fs_sb_has_readonly sbi, "readonly");
   (f3fs_sb_has_compression sbi, "compression")]%string.

(** The names of the features the instance has, and [pin_file]. *)
Definition enabled (sbi : sb_features) : list (list ascii) :=
  map (fun p => chars (snd p)) (filter fst (feature_table sbi))
  ++ [chars "pin_file"].

(** The words of [l] with [", "] between them. *)
Fixpoint join (l : list (list ascii)) : list ascii :=
  match l with
  | [] => []
  | [x] => x
  | x :: l' => x ++ chars ", " ++ join l'
  end.

Definition feature_line (sbi : sb_features) : list ascii :=
  join (enabled sbi) ++ [newline].

(** A word printed behind [acc]. *)
Definition add (acc word : list ascii) : list ascii :=
  acc ++ match acc with [] => [] | _ => chars ", " end ++ word.

(** The features of a table printed from state [st] on. *)
Definition print_table (PAGE_SIZE : Z) (t : list (bool * string))
           (st : list ascii * Z) : list ascii * Z :=
  fold_left (fun st p => print_feature PAGE_SIZE (fst p) (snd p) st) t st.

(** The first [PAGE_SIZE - 1] characters of [acc], all that a page can
    hold before its NUL, and their number. *)
Definition clip (PAGE_SIZE : Z) (acc : list ascii) : list ascii * Z :=
  let out := firstn (Z.to_nat (PAGE_SIZE - 1)) acc in
  (out, Z.of_nat (List.length out)).

(** The state after the text [acc] was printed to the page [buf]: nothing
    yet, or the text, clipped to the page. *)
Definition printed (PAGE_SIZE : Z) (buf acc : list ascii)
           (st : list ascii * Z) : Prop :=
  (acc = [] /\ st = (buf, 0)) \/ (acc <> [] /\ st = clip PAGE_SIZE acc).

(** ** The segment table of procfs

  [segment_info_seq_show] prints the type and the valid blocks of every
  main segment.  What it hands to the seq_file is kept as a list of
  pieces, one for each call; [get_seg_entry] is declared in segment.h and
  is a parameter of the model. *)

(** What [segment_info_seq_show] reads of a [struct seg_entry]. *)
Record seg_entry : Type := mkSegEntry {
  se_type : Z;
  se_valid_blocks : Z
}.

Inductive piece : Type :=
| Legend                          (* the two lines of [seq_puts] *)
| Index (i : Z)                   (* ["%-10d"] *)
| Cell (type valid_blocks : Z)    (* ["%d|%-3u"] *)
| Newline                         (* [seq_putc(seq, '\n')] *)
| Blank.                          (* [seq_putc(seq, ' ')] *)

Section SegmentInfo.

Variable get_seg_entry : Z -> seg_entry.

(** [le32_to_cpu(sbi->raw_super->segment_count_main)] *)
Variable total_segs : Z.

(** The body of the loop for the [int] [i], lines 1185 to 1193; [i] is
    compared with the [unsigned int] [total_segs - 1] as an
    [unsigned int], and [%] truncates towards zero. *)
Definition segment_info_turn (i : Z) : list piece :=
  let se := get_seg_entry i in
  (if Z.rem i 10 =? 0 then [Index i] else [])
  ++ [Cell (se_type se) (se_valid_blocks se)]
  ++ [if (Z.rem i 10 =? 9) || (Width.u32 i =? Width.u32 (total_segs - 1))
      then Newline else Blank].

(** The loop of lines 1184 to 1194 entered with [i] and with [out]
    printed; [i < total_segs] compares as [unsigned int]. *)
Fixpoint segment_info_loop (fuel : nat) (i : Z) (out : list piece)
  : option (list piece) :=
  match fuel with
  | O => None
  | S fuel' =>
      if Width.u32 i <? total_segs
      then segment_info_loop fuel' (Width.s32 (i + 1))
                             (out ++ segment_info_turn i)
      else Some out
  end.

(** [segment_info_seq_show]: what is printed and the value returned. *)
Definition segment_info_seq_show : option (list piece * Z) :=
  match segment_info_loop (S (Z.to_nat total_segs)) 0 [Legend] with
  | Some out => Some (out, 0)
  | None => None
  end.

(** *** The table the file is meant to hold *)

Definition cell (i : Z) : piece :=
  Cell (se_type (get_seg_entry i)) (se_valid_blocks (get_seg_entry i)).

(** A line of [len] segments from segment [from] on: the number of the
    first, then the segments with a blank between them, then a newline. *)
Definition row (from : Z) (len : nat) : list piece :=
  Index from
  :: flat_map (fun j => [cell (from + Z.of_nat j);
                         if Nat.eqb (S j) len then Newline else Blank])
              (seq 0 len).

(** Lines of ten segments, and a shorter last line for what is left. *)
Definition table (n : nat) : list piece :=
  flat_map (fun k => row (10 * Z.of_nat k) 10) (seq 0 (n / 10))
  ++ (if Nat.eqb (n mod 10) 0 then []
      else row (10 * Z.of_nat (n / 10)) (n mod 10)).

End SegmentInfo.

(** ** Samples *)

(** A super block with encryption, quota inodes and casefolding. *)
Definition sample : sb_features :=
  mkFeatures true false false false false false true false false false false
             true false false.

(** Segments of type [i mod 6] with [i] valid blocks. *)
Definition sample_entry (i : Z) : seg_entry := mkSegEntry (i mod 6) i.

End Sysfs.

(** * A sample registry *)

Module Sample.

(** [MAX_FREE_NIDS] with 455 NAT entries in a block and 8 pages of free
    ids. *)
Definition MAX_FREE_NIDS : Z := 3640.

(** What a cache frees when asked for [n] and holding [have]. *)
Definition take (n have : Z) : Z :=
  Z.max 0 (Z.min (Z.min n have) (2 ^ 32 - 1)).

(** Three caches that free what they are asked for as far as they hold it:
    extent nodes, clean NAT entries, free ids above the watermark. *)
Definition extent_tree_shrinker (c : f3fs_caches unit) (n : Z)
  : f3fs_caches unit * Z :=
  let k := take n (total_ext_node c) in
  (mkCaches (total_zombie_tree c) (total_ext_node c - k)
            (nat_cnt_RECLAIMABLE_NAT c) (nid_cnt_FREE_NID c) tt, k).

Definition nats_shrinker (c : f3fs_caches unit) (n : Z)
  : f3fs_caches unit * Z :=
  let k := take n (nat_cnt_RECLAIMABLE_NAT c) in
  (mkCaches (total_zombie_tree c) (total_ext_node c)
            (nat_cnt_RECLAIMABLE_NAT c - k) (nid_cnt_FREE_NID c) tt, k).

Definition nids_shrinker (c : f3fs_caches unit) (n : Z)
  : f3fs_caches unit * Z :=
  let k := take n (nid_cnt_FREE_NID c - MAX_FREE_NIDS) in
  (mkCaches (total_zombie_tree c) (total_ext_node c)
            (nat_cnt_RECLAIMABLE_NAT c) (nid_cnt_FREE_NID c - k) tt, k).

(** An instance with 2 zombie trees, 8 extent nodes, 10 clean NAT entries
    and 10 free ids above the watermark. *)
Definition instance (busy : bool) (marker : Z) : f3fs_sb_info unit :=
  mkSbi busy marker (mkCaches 2 8 10 3650 tt).

(** Three instances at addresses 1, 2 and 3, joined in that order and never
    scanned. *)
Definition all_free : kstate unit :=
  mkState [1; 2; 3]%nat false 0 (fun _ => instance false 0) [].

(** The same with instance 2 in the middle of its unmount. *)
Definition one_busy : kstate unit :=
  mkState [1; 2; 3]%nat false 0 (fun a => instance (Nat.eqb a 2) 0) [].

(** The same with instance 1, at the head of the list, in the middle of
    its unmount. *)
Definition head_busy : kstate unit :=
  mkState [1; 2; 3]%nat false 0 (fun a => instance (Nat.eqb a 1) 0) [].

(** One instance, stamped by the first scan ever and by none since, with
    the run counter at its last value before it wraps. *)
Definition wrapped : kstate unit :=
  mkState [1]%nat false (2 ^ 32 - 1) (fun _ => instance false 1) [].

(** One instance. *)
Definition single : kstate unit :=
  mkState [1]%nat false 0 (fun _ => instance false 0) [].

(** Three instances not yet scanned, with the run counter two scans before
    it wraps. *)
Definition near_wrap : kstate unit :=
  mkState [1; 2; 3]%nat false (2 ^ 32 - 2) (fun _ => instance false 0) [].

(** Three instances, all in the middle of their unmount. *)
Definition all_busy : kstate unit :=
  mkState [1; 2; 3]%nat false 0 (fun _ => instance true 0) [].

End Sample.

(** * Tactics *)

(** Reading an instance right after writing it. *)
Ltac store_hit :=
  match goal with
  | |- context [store ?a ?f ?m ?a] =>
      change (store a f m a) with (if Nat.eqb a a then f (m a) else m a);
      rewrite Nat.eqb_refl
  end.

(** Running the state monad on record fields. *)
Ltac scan_simpl :=
  repeat (progress (cbn [fst snd negb f3fs_list f3fs_list_lock shrinker_run_no
                         mem trace caches umount_mutex sb_shrinker_run_no
                         set_umount_mutex set_sb_shrinker_run_no set_caches
                         shrinker];
                    repeat store_hit)).

(** * Proofs *)

(** ** Conversions are the identity on values of the type *)

Lemma u32_id z : 0 <= z < 2 ^ 32 -> Width.u32 z = z.
Proof. intros H. unfold Width.u32. apply Z.mod_small. exact H. Qed.

Lemma u64_id z : 0 <= z < 2 ^ 64 -> Width.u64 z = z.
Proof. intros H. unfold Width.u64. apply Z.mod_small. exact H. Qed.

Lemma s32_id z : - 2 ^ 31 <= z < 2 ^ 31 -> Width.s32 z = z.
Proof. intros H. unfold Width.s32. rewrite Z.mod_small; lia. Qed.

Lemma s64_id z : - 2 ^ 63 <= z < 2 ^ 63 -> Width.s64 z = z.
Proof. intros H. unfold Width.s64. rewrite Z.mod_small; lia. Qed.

Lemma u64_range z : 0 <= Width.u64 z < 2 ^ 64.
Proof. unfold Width.u64. apply Z.mod_pos_bound. lia. Qed.

Lemma u32_range z : 0 <= Width.u32 z < 2 ^ 32.
Proof. unfold Width.u32. apply Z.mod_pos_bound. lia. Qed.

Section ShrinkerFacts.

Context {priv : Type} (MAX_FREE_NIDS : Z).
Context (extent_tree_shrinker nats_shrinker nids_shrinker
         : f3fs_caches priv -> Z -> f3fs_caches priv * Z).

Local Abbreviation f3fs_caches := (f3fs_caches priv).
Local Abbreviation f3fs_sb_info := (f3fs_sb_info priv).
Local Abbreviation kstate := (kstate priv).
Local Abbreviation shrinker :=
  (shrinker extent_tree_shrinker nats_shrinker nids_shrinker).
Local Abbreviation call_shrinker :=
  (call_shrinker extent_tree_shrinker nats_shrinker nids_shrinker).
Local Abbreviation f3fs_shrink_extent_tree :=
  (f3fs_shrink_extent_tree extent_tree_shrinker nats_shrinker nids_shrinker).
Local Abbreviation f3fs_try_to_free_nats :=
  (f3fs_try_to_free_nats extent_tree_shrinker nats_shrinker nids_shrinker).
Local Abbreviation f3fs_try_to_free_nids :=
  (f3fs_try_to_free_nids extent_tree_shrinker nats_shrinker nids_shrinker).
Local Abbreviation scan_iter :=
  (scan_iter extent_tree_shrinker nats_shrinker nids_shrinker).
Local Abbreviation scan_walk :=
  (scan_walk extent_tree_shrinker nats_shrinker nids_shrinker).
Local Abbreviation f3fs_shrink_scan_fuel :=
  (f3fs_shrink_scan_fuel extent_tree_shrinker nats_shrinker nids_shrinker).
Local Abbreviation f3fs_shrink_scan :=
  (f3fs_shrink_scan extent_tree_shrinker nats_shrinker nids_shrinker).
Local Abbreviation f3fs_leave_shrinker :=
  (f3fs_leave_shrinker extent_tree_shrinker nats_shrinker nids_shrinker).
Local Abbreviation tier := (tier extent_tree_shrinker nats_shrinker nids_shrinker).
Local Abbreviation tiers := (tiers extent_tree_shrinker nats_shrinker nids_shrinker).
Local Abbreviation Walk := (Walk extent_tree_shrinker nats_shrinker nids_shrinker).
Local Abbreviation scan_repeat :=
  (scan_repeat extent_tree_shrinker nats_shrinker nids_shrinker).
Local Abbreviation scan_history :=
  (scan_history extent_tree_shrinker nats_shrinker nids_shrinker).
Local Abbreviation shrinkers_bounded :=
  (shrinkers_bounded extent_tree_shrinker nats_shrinker nids_shrinker).
Local Abbreviation yields_one :=
  (yields_one extent_tree_shrinker nats_shrinker nids_shrinker).
Local Abbreviation __count_free_nids := (__count_free_nids MAX_FREE_NIDS).
Local Abbreviation count_walk := (count_walk MAX_FREE_NIDS).
Local Abbreviation f3fs_shrink_count := (f3fs_shrink_count MAX_FREE_NIDS).
Local Abbreviation reclaimable := (reclaimable MAX_FREE_NIDS).
Local Abbreviation count_sum := (count_sum MAX_FREE_NIDS).

(** ** Reasoning about the model *)

(** *** The list operations on a list without repeated nodes *)

Lemma node_next_skip (l1 l2 : list nat) (a : nat) :
  ~ In a l1 -> KList.node_next (l1 ++ l2) a = KList.node_next l2 a.
Proof.
  induction l1 as [|x l1 IH]; intros Hn; simpl; [reflexivity|].
  destruct (Nat.eqb_spec x a) as [->|_].
  - exfalso. apply Hn. left. reflexivity.
  - apply IH. intros Hin. apply Hn. right. exact Hin.
Qed.

Lemma node_next_at (l1 l2 : list nat) (a : nat) :
  ~ In a l1 -> KList.node_next (l1 ++ a :: l2) a = hd_error l2.
Proof.
  intros Hn. rewrite node_next_skip by exact Hn.
  simpl. rewrite Nat.eqb_refl. reflexivity.
Qed.

Lemma remove_absent (a : nat) (l : list nat) :
  ~ In a l -> remove Nat.eq_dec a l = l.
Proof. intros Hn. apply notin_remove. exact Hn. Qed.

Lemma list_move_tail_at (l1 l2 : list nat) (a : nat) :
  ~ In a l1 -> ~ In a l2 ->
  KList.list_move_tail a (l1 ++ a :: l2) = l1 ++ l2 ++ [a].
Proof.
  intros H1 H2. unfold KList.list_move_tail, KList.list_add_tail, KList.list_del_init.
  rewrite remove_app. simpl.
  destruct (Nat.eq_dec a a) as [_|Hne]; [|contradiction].
  rewrite !remove_absent by assumption.
  rewrite <- app_assoc. reflexivity.
Qed.

Lemma NoDup_split (l1 l2 : list nat) (a : nat) :
  NoDup (l1 ++ a :: l2) -> ~ In a l1 /\ ~ In a l2 /\ NoDup (l1 ++ l2).
Proof.
  intros H. pose proof (NoDup_remove_1 _ _ _ H) as Hnd.
  pose proof (NoDup_remove_2 _ _ _ H) as Hni.
  repeat split; [| |exact Hnd]; intros Hin; apply Hni, in_or_app; auto.
Qed.

(** *** One turn of the scan loop *)

Lemma scan_iter_cycle (run_no nr : Z) (a : nat) (freed : Z) (s : kstate) :
  sb_shrinker_run_no (mem s a) = run_no ->
  scan_iter run_no nr a freed s = (Break, Some a, freed, s).
Proof.
  intros H. unfold scan_iter, bind, read, ret. rewrite H, Z.eqb_refl.
  reflexivity.
Qed.

Lemma scan_iter_busy (run_no nr : Z) (a : nat) (freed : Z) (s : kstate) :
  sb_shrinker_run_no (mem s a) <> run_no ->
  umount_mutex (mem s a) = true ->
  scan_iter run_no nr a freed s =
  (Continue, KList.node_next (f3fs_list s) a, freed,
   snd (emit (EvTryLock a false) s)).
Proof.
  intros Hm Hb. unfold scan_iter, mutex_trylock, list_next, bind, read, ret.
  apply Z.eqb_neq in Hm. rewrite Hm, Hb. reflexivity.
Qed.

Lemma store_same (a : nat) f (m : nat -> f3fs_sb_info) : store a f m a = f (m a).
Proof. unfold store. rewrite Nat.eqb_refl. reflexivity. Qed.

Lemma store_other (a x : nat) f (m : nat -> f3fs_sb_info) :
  x <> a -> store a f m x = m x.
Proof. intros H. unfold store. apply Nat.eqb_neq in H. rewrite H. reflexivity. Qed.

Lemma scan_iter_process (run_no nr : Z) (a : nat) (freed : Z) (s : kstate) :
  sb_shrinker_run_no (mem s a) <> run_no ->
  umount_mutex (mem s a) = false ->
  forall c freed' evs,
    tiers nr freed a (caches (mem s a)) = (c, freed', evs) ->
    exists s',
      scan_iter run_no nr a freed s =
      (if nr <=? freed' then Break else Continue,
       KList.node_next (f3fs_list s) a, freed', s') /\
      processed run_no a c evs s s'.
Proof.
  intros Hm Hb c freed' evs Ht.
  apply Z.eqb_neq in Hm.
  unfold scan_iter, mutex_trylock, spin_unlock, spin_lock, list_next,
    list_move_tail, mutex_unlock, f3fs_shrink_extent_tree,
    f3fs_try_to_free_nats, f3fs_try_to_free_nids, call_shrinker,
    bind, read, ret, modify, emit, set_list_lock, set_list.
  rewrite Hm, Hb. scan_simpl.
  unfold tiers, tier in Ht. cbn [shrinker] in Ht.
  destruct (extent_tree_shrinker (caches (mem s a)) (Z.shiftr nr 1)) as [c1 r1].
  scan_simpl.
  destruct (Width.u64 (freed + r1) <? nr) eqn:E1.
  - scan_simpl.
    destruct (nats_shrinker c1 (Width.u64 (nr - Width.u64 (freed + r1)))) as [c2 r2].
    scan_simpl.
    destruct (Width.u64 (Width.u64 (freed + r1) + r2) <? nr) eqn:E2.
    + scan_simpl.
      destruct (nids_shrinker c2 _) as [c3 r3].
      scan_simpl.
      injection Ht as <- <- <-.
      eexists. split; [destruct (nr <=? _); reflexivity|].
      repeat split; scan_simpl; try reflexivity.
      * intros x Hx. rewrite !store_other by exact Hx. reflexivity.
      * rewrite <- !app_assoc. reflexivity.
    + injection Ht as <- <- <-.
      eexists. split; [destruct (nr <=? _); reflexivity|].
      repeat split; scan_simpl; try reflexivity.
      * intros x Hx. rewrite !store_other by exact Hx. reflexivity.
      * rewrite <- !app_assoc. reflexivity.
  - rewrite E1 in Ht. scan_simpl. rewrite E1. scan_simpl.
    injection Ht as <- <- <-.
    eexists. split; [destruct (nr <=? _); reflexivity|].
    repeat split; scan_simpl; try reflexivity.
    + intros x Hx. rewrite !store_other by exact Hx. reflexivity.
    + rewrite <- !app_assoc. reflexivity.
Qed.

(** *** The walk of the scan loop *)

Lemma NoDup_to_tail (l : list nat) (a : nat) :
  NoDup l -> ~ In a l -> NoDup (l ++ [a]).
Proof.
  intros Hl Ha. induction Hl as [|x l Hx Hl IH]; simpl.
  - constructor; [intros []|constructor].
  - constructor.
    + rewrite in_app_iff. intros [Hin|[->|[]]]; [contradiction|].
      apply Ha. left. reflexivity.
    + apply IH. intros Hin. apply Ha. right. exact Hin.
Qed.

(** With a turn more than [rest] has nodes the loop ends, and what it does
    is a [Walk]. *)
Lemma scan_walk_Walk (run_no nr : Z) (rest : list nat) :
  forall (passed moved : list nat) (p : option nat) (freed : Z) (s : kstate),
    f3fs_list s = passed ++ rest ++ moved ->
    NoDup (f3fs_list s) ->
    (forall x, In x moved -> sb_shrinker_run_no (mem s x) = run_no) ->
    p = hd_error (rest ++ moved) \/ (rest = [] /\ p = None) ->
    exists evs freed' s',
      Walk run_no nr rest freed s evs freed' s' /\
      forall fuel, (length rest < fuel)%nat ->
                   scan_walk fuel run_no nr p freed s = Some (freed', s').
Proof.
  induction rest as [|a rest IH]; intros passed moved p freed s Hl Hnd Hmv Hp.
  - exists [], freed, s. split; [constructor|].
    intros [|fuel] Hf; [inversion Hf|]. simpl.
    destruct Hp as [->|[_ ->]]; [|reflexivity].
    destruct moved as [|d moved]; [reflexivity|]. simpl.
    rewrite scan_iter_cycle by (apply Hmv; left; reflexivity).
    reflexivity.
  - destruct Hp as [->|[Habs _]]; [|discriminate].
    rewrite Hl in Hnd.
    destruct (NoDup_split passed (rest ++ moved) a Hnd) as (Hn1 & Hn2 & Hnd').
    assert (Hnext : KList.node_next (f3fs_list s) a = hd_error (rest ++ moved)).
    { rewrite Hl. apply node_next_at. exact Hn1. }
    destruct (Z.eq_dec (sb_shrinker_run_no (mem s a)) run_no) as [Hc|Hc].
    { exists [], freed, s. split; [apply Walk_cycle; exact Hc|].
      intros [|fuel] Hf; [inversion Hf|]. simpl.
      rewrite scan_iter_cycle by exact Hc. reflexivity. }
    destruct (umount_mutex (mem s a)) eqn:Hb.
    { destruct (IH (passed ++ [a]) moved (hd_error (rest ++ moved)) freed
                   (snd (emit (EvTryLock a false) s)))
        as (evs & freed' & s' & HW & Hrun).
      - simpl. rewrite Hl, <- app_assoc. reflexivity.
      - simpl. rewrite Hl. exact Hnd.
      - exact Hmv.
      - left. reflexivity.
      - exists (EvTryLock a false :: evs), freed', s'.
        split; [apply Walk_busy; assumption|].
        intros [|fuel] Hf; [inversion Hf|]. simpl.
        rewrite scan_iter_busy by assumption. rewrite Hnext.
        apply Hrun. simpl in Hf. apply Nat.succ_lt_mono. exact Hf. }
    destruct (tiers nr freed a (caches (mem s a))) as [[c freed1] tevs] eqn:Ht.
    destruct (@scan_iter_process run_no nr a freed s Hc Hb c freed1 tevs Ht)
      as (s1 & Hit & Hpr).
    destruct (Z.leb_spec nr freed1) as [Hle|Hlt].
    { exists (visit run_no a tevs), freed1, s1.
      split; [eapply Walk_enough; eassumption|].
      intros [|fuel] Hf; [inversion Hf|]. simpl.
      rewrite Hit. reflexivity. }
    destruct Hpr as (Hl1 & Hlk1 & Hrn1 & Ha1 & Hx1 & Htr1).
    assert (Hl1' : f3fs_list s1 = passed ++ rest ++ moved ++ [a]).
    { rewrite Hl1, Hl. cbn [app]. rewrite list_move_tail_at by assumption.
      rewrite <- app_assoc. reflexivity. }
    destruct (IH passed (moved ++ [a]) (hd_error (rest ++ moved)) freed1 s1)
      as (evs & freed' & s' & HW & Hrun).
    + exact Hl1'.
    + rewrite Hl1'. rewrite 2 app_assoc. apply NoDup_to_tail.
      * rewrite <- app_assoc. exact Hnd'.
      * rewrite <- app_assoc, in_app_iff. intros [Hin|Hin]; contradiction.
    + intros x Hx. apply in_app_iff in Hx. destruct Hx as [Hx|[<-|[]]].
      * rewrite Hx1; [apply Hmv; exact Hx|].
        intros ->. apply Hn2, in_or_app. right. exact Hx.
      * rewrite Ha1. reflexivity.
    + destruct rest as [|r rest]; [destruct moved as [|d moved]|].
      * right. split; reflexivity.
      * left. reflexivity.
      * left. reflexivity.
    + exists (visit run_no a tevs ++ evs), freed', s'.
      split.
      * eapply Walk_more; try eassumption.
        repeat split; assumption.
      * intros [|fuel] Hf; [inversion Hf|]. simpl.
        rewrite Hit, Hnext. apply Hrun. simpl in Hf.
        apply Nat.succ_lt_mono. exact Hf.
Qed.

(** *** The count functions on counters within their C ranges *)

Lemma count_extent_cache_eq (sb : f3fs_sb_info) :
  counters_in_range sb ->
  __count_extent_cache sb = total_zombie_tree (caches sb) + total_ext_node (caches sb).
Proof.
  intros (Hz & He & Hs & _). unfold __count_extent_cache.
  rewrite s32_id by lia. apply u64_id. lia.
Qed.

Lemma count_nat_entries_eq (sb : f3fs_sb_info) :
  counters_in_range sb ->
  __count_nat_entries sb = nat_cnt_RECLAIMABLE_NAT (caches sb).
Proof.
  intros (_ & _ & _ & Hn & _). unfold __count_nat_entries.
  apply u64_id. lia.
Qed.

Lemma count_free_nids_eq (sb : f3fs_sb_info) :
  0 <= nid_cnt_FREE_NID (caches sb) < 2 ^ 32 ->
  0 <= MAX_FREE_NIDS < 2 ^ 63 ->
  __count_free_nids sb = Z.max 0 (nid_cnt_FREE_NID (caches sb) - MAX_FREE_NIDS).
Proof.
  intros Hn Hm. unfold __count_free_nids.
  set (d := nid_cnt_FREE_NID (caches sb) - MAX_FREE_NIDS).
  assert (Hs : Width.s64 (Width.u64 d) = d).
  { unfold Width.s64, Width.u64.
    destruct (Z_lt_le_dec d 0) as [Hneg|Hpos].
    - replace (d mod 2 ^ 64) with (d + 2 ^ 64).
      + replace (d + 2 ^ 64 + 2 ^ 63) with (d + 2 ^ 63 + 1 * 2 ^ 64) by lia.
        rewrite Z.mod_add by lia. rewrite Z.mod_small; lia.
      + symmetry. replace d with (d + 2 ^ 64 + (-1) * 2 ^ 64) at 1 by lia.
        rewrite Z.mod_add by lia. apply Z.mod_small. lia.
    - rewrite (Z.mod_small d) by lia. rewrite Z.mod_small; lia. }
  rewrite Hs. destruct (Z.ltb_spec 0 d).
  - rewrite u64_id by lia. lia.
  - rewrite u64_id by lia. lia.
Qed.

(** *** The walk of the count loop *)

Lemma count_walk_busy (a : nat) (l : list nat) (count : Z) (s : kstate) :
  umount_mutex (mem s a) = true ->
  count_walk (a :: l) count s =
  count_walk l count (snd (emit (EvTryLock a false) s)).
Proof.
  intros Hb. cbn [count_walk]. unfold mutex_trylock, bind, read, ret.
  rewrite Hb. reflexivity.
Qed.

Lemma count_walk_free (a : nat) (l : list nat) (count : Z) (s : kstate) :
  umount_mutex (mem s a) = false ->
  count_walk (a :: l) count s =
  count_walk l
    (Width.u64 (Width.u64 (Width.u64 (count + __count_extent_cache (mem s a))
                           + __count_nat_entries (mem s a))
                + __count_free_nids (mem s a)))
    (mkState (f3fs_list s) true (shrinker_run_no s)
             (store a (set_umount_mutex false)
                    (store a (set_umount_mutex true) (mem s)))
             ((trace s ++ [EvTryLock a true]) ++ [EvMutexUnlock a])).
Proof.
  intros Hb. cbn [count_walk].
  unfold mutex_trylock, mutex_unlock, spin_lock, spin_unlock, bind, read, ret,
    modify, emit, set_list_lock.
  rewrite Hb. scan_simpl. reflexivity.
Qed.

Lemma relock_same (a : nat) (m : nat -> f3fs_sb_info) (x : nat) :
  umount_mutex (m a) = false ->
  store a (set_umount_mutex false) (store a (set_umount_mutex true) m) x = m x.
Proof.
  intros Hb. destruct (Nat.eq_dec x a) as [->|Hne].
  - rewrite !store_same. unfold set_umount_mutex. cbn.
    destruct (m a) as [mu rn c]. cbn in Hb. subst mu. reflexivity.
  - rewrite !store_other by exact Hne. reflexivity.
Qed.

Lemma count_events_ext (m m' : nat -> f3fs_sb_info) (l : list nat) :
  (forall x, m' x = m x) -> count_events m' l = count_events m l.
Proof.
  intros H. unfold count_events. apply flat_map_ext. intros a. rewrite H.
  reflexivity.
Qed.

Lemma count_sum_ext (m m' : nat -> f3fs_sb_info) (l : list nat) :
  (forall x, m' x = m x) -> count_sum m' l = count_sum m l.
Proof.
  intros H. unfold count_sum. f_equal.
  rewrite (filter_ext (gate_free m') (gate_free m))
    by (intros a; unfold gate_free; rewrite H; reflexivity).
  apply map_ext. intros a. rewrite H. reflexivity.
Qed.

(** The walk leaves list, run counter and every instance as they were. *)
Lemma count_walk_frame (l : list nat) :
  forall (count : Z) (s : kstate),
    let s' := snd (count_walk l count s) in
    f3fs_list s' = f3fs_list s /\
    shrinker_run_no s' = shrinker_run_no s /\
    (forall x, mem s' x = mem s x) /\
    trace s' = trace s ++ count_events (mem s) l.
Proof.
  induction l as [|a l IH]; intros count s; cbn zeta.
  - cbn. rewrite app_nil_r. auto.
  - destruct (umount_mutex (mem s a)) eqn:Hb.
    + rewrite count_walk_busy by exact Hb.
      destruct (IH count (snd (emit (EvTryLock a false) s))) as (H1 & H2 & H3 & H4).
      unfold emit in *. cbn [snd f3fs_list shrinker_run_no mem trace] in *.
      repeat split; try assumption.
      rewrite H4. cbn [count_events flat_map]. rewrite Hb.
      rewrite <- app_assoc. reflexivity.
    + rewrite count_walk_free by exact Hb.
      match goal with |- context [count_walk l ?c ?s1] =>
        destruct (IH c s1) as (H1 & H2 & H3 & H4) end.
      cbn [f3fs_list shrinker_run_no mem trace] in H1, H2, H3, H4.
      repeat split; try assumption.
      * intros x. rewrite H3. apply relock_same. exact Hb.
      * rewrite H4. cbn [count_events flat_map]. rewrite Hb.
        rewrite <- !app_assoc. cbn [app]. do 3 f_equal.
        apply count_events_ext. intros x. apply relock_same. exact Hb.
Qed.

Lemma sumZ_nonneg (l : list Z) : Forall (fun z => 0 <= z) l -> 0 <= sumZ l.
Proof. induction 1; unfold sumZ in *; cbn [fold_right]; lia. Qed.

Lemma reclaimable_nonneg (sb : f3fs_sb_info) :
  counters_in_range sb -> 0 <= reclaimable sb.
Proof. intros (Hz & He & Hs & Hn & Hf). unfold reclaimable. lia. Qed.

Lemma count_sum_nonneg (m : nat -> f3fs_sb_info) (l : list nat) :
  (forall a, In a l -> umount_mutex (m a) = false -> counters_in_range (m a)) ->
  0 <= count_sum m l.
Proof.
  intros H. apply sumZ_nonneg. apply Forall_forall. intros z Hz.
  apply in_map_iff in Hz. destruct Hz as (a & <- & Ha).
  apply filter_In in Ha. destruct Ha as (Ha & Hg).
  apply reclaimable_nonneg, H; [exact Ha|].
  unfold gate_free in Hg. destruct (umount_mutex (m a)); [discriminate|reflexivity].
Qed.

(** With counters in range and no overflow of the total, the walk adds the
    specification's count of every instance whose gate it acquires. *)
Lemma count_walk_value (l : list nat) :
  forall (count : Z) (s : kstate),
    (forall a, In a l -> umount_mutex (mem s a) = false ->
               counters_in_range (mem s a)) ->
    0 <= MAX_FREE_NIDS < 2 ^ 63 ->
    0 <= count ->
    count + count_sum (mem s) l < 2 ^ 64 ->
    fst (count_walk l count s) = count + count_sum (mem s) l.
Proof.
  induction l as [|a l IH]; intros count s Hr Hmax Hc Hb.
  - cbn. unfold count_sum. cbn. lia.
  - assert (Hrl : forall x, In x l -> umount_mutex (mem s x) = false ->
                            counters_in_range (mem s x))
      by (intros x Hx; apply Hr; right; exact Hx).
    pose proof (count_sum_nonneg (mem s) l Hrl) as Hnn.
    destruct (umount_mutex (mem s a)) eqn:Hg.
    + rewrite count_walk_busy by exact Hg.
      assert (E : count_sum (mem s) (a :: l) = count_sum (mem s) l).
      { unfold count_sum. cbn [filter]. unfold gate_free at 1. rewrite Hg.
        reflexivity. }
      rewrite E in *. rewrite IH; [reflexivity| | | |]; assumption.
    + rewrite count_walk_free by exact Hg.
      assert (E : count_sum (mem s) (a :: l) =
                  reclaimable (mem s a) + count_sum (mem s) l).
      { unfold count_sum. cbn [filter]. unfold gate_free at 1. rewrite Hg.
        reflexivity. }
      rewrite E in *.
      pose proof (Hr a (or_introl eq_refl) Hg) as Ha.
      pose proof (reclaimable_nonneg Ha) as Hra.
      rewrite count_extent_cache_eq, count_nat_entries_eq by exact Ha.
      rewrite count_free_nids_eq by (try exact Hmax; apply Ha).
      unfold reclaimable in E, Hra, Hb |- *.
      destruct Ha as (Hz & He & Hs & Hn & Hf).
      rewrite (@u64_id (count + _)) by lia.
      rewrite (@u64_id (count + _ + _)) by lia.
      rewrite (@u64_id (count + _ + _ + _)) by lia.
      match goal with |- context [count_walk l ?c ?s1] =>
        rewrite (IH c s1) end.
      * cbn [mem].
        rewrite (@count_sum_ext (mem s))
          by (intros x; apply relock_same; exact Hg).
        lia.
      * cbn [mem]. intros x Hx Hgx. rewrite relock_same in Hgx |- * by exact Hg.
        apply Hrl; assumption.
      * exact Hmax.
      * lia.
      * cbn [mem].
        rewrite (@count_sum_ext (mem s))
          by (intros x; apply relock_same; exact Hg).
        lia.
Qed.

(** *** The run id *)

Lemma next_run_no_nonzero (c : Z) : next_run_no c <> 0.
Proof.
  unfold next_run_no. cbv zeta.
  destruct (Z.eqb_spec (Width.u32 (c + 1)) 0) as [E|E]; [|exact E].
  rewrite E. discriminate.
Qed.

Lemma next_run_no_succ (c : Z) :
  0 <= c -> c + 1 < 2 ^ 32 -> next_run_no c = c + 1.
Proof.
  intros H0 H1. unfold next_run_no. rewrite u32_id by lia.
  destruct (Z.eqb_spec (c + 1) 0); [lia|reflexivity].
Qed.

Lemma fresh_run_no_spec (fuel : nat) (s : kstate) :
  (2 <= fuel)%nat ->
  fresh_run_no fuel (snd (spin_lock s)) =
  Some (next_run_no (shrinker_run_no s), scan_start s).
Proof.
  intros Hf.
  destruct fuel as [|[|fuel]];
    [inversion Hf|apply Nat.succ_le_mono in Hf; inversion Hf|].
  unfold scan_start, next_run_no.
  cbn [fresh_run_no]. unfold spin_lock, set_list_lock, set_run_no, bind, read.
  cbn [fst snd f3fs_list f3fs_list_lock shrinker_run_no mem trace].
  destruct (Z.eqb_spec (Width.u32 (shrinker_run_no s + 1)) 0) as [E|E].
  - rewrite E. change (Width.u32 (0 + 1) =? 0) with false. reflexivity.
  - reflexivity.
Qed.

(** *** A scan is a walk *)

Lemma scan_spec (nr : Z) (s : kstate) :
  NoDup (f3fs_list s) ->
  exists evs freed s1,
    Walk (next_run_no (shrinker_run_no s)) nr (f3fs_list s) 0 (scan_start s)
         evs freed s1 /\
    forall fuel, (2 + length (f3fs_list s) <= fuel)%nat ->
                 f3fs_shrink_scan_fuel fuel nr s = Some (freed, snd (spin_unlock s1)).
Proof.
  intros Hnd.
  destruct (@scan_walk_Walk (next_run_no (shrinker_run_no s)) nr (f3fs_list s)
              [] [] (hd_error (f3fs_list s)) 0 (scan_start s))
    as (evs & freed & s1 & HW & Hrun).
  - cbn. rewrite app_nil_r. reflexivity.
  - exact Hnd.
  - intros x [].
  - left. rewrite app_nil_r. reflexivity.
  - exists evs, freed, s1. split; [exact HW|].
    intros fuel Hf. unfold f3fs_shrink_scan_fuel.
    change (spin_lock s) with (tt, snd (spin_lock s)).
    cbv iota. rewrite fresh_run_no_spec by lia.
    unfold list_first, read. cbn [f3fs_list scan_start].
    rewrite Hrun by lia. reflexivity.
Qed.

Lemma scan_total (nr : Z) (s : kstate) :
  NoDup (f3fs_list s) ->
  exists evs freed s1,
    Walk (next_run_no (shrinker_run_no s)) nr (f3fs_list s) 0 (scan_start s)
         evs freed s1 /\
    f3fs_shrink_scan nr s = Some (freed, snd (spin_unlock s1)).
Proof.
  intros Hnd. destruct (@scan_spec nr s Hnd) as (evs & freed & s1 & HW & Hrun).
  exists evs, freed, s1. split; [exact HW|]. apply Hrun. apply Nat.le_refl.
Qed.

(** *** What every walk does *)

Lemma tier_events (k : cache_kind) (nr : Z) (a : nat) c freed evs c' freed' evs' :
  tier k nr a (c, freed, evs) = (c', freed', evs') ->
  evs' = evs \/ exists n r, evs' = evs ++ [EvShrink k a n r false].
Proof.
  unfold tier. destruct (freed <? nr).
  - destruct (shrinker k c _) as [c1 r1]. intros H. injection H as <- <- <-.
    right. eauto.
  - intros H. injection H as <- <- <-. left. reflexivity.
Qed.

(** The events of the three tiers are shrink requests to [a], made with the
    list lock released. *)
Lemma tiers_events (nr freed : Z) (a : nat) c c' freed' tevs :
  tiers nr freed a c = (c', freed', tevs) ->
  Forall (fun e => exists k n r, e = EvShrink k a n r false) tevs.
Proof.
  unfold tiers. destruct (extent_tree_shrinker c (Z.shiftr nr 1)) as [c1 r1].
  destruct (tier NatCache nr a _) as [[c2 f2] e2] eqn:E2.
  intros E3. apply tier_events in E2, E3.
  assert (H1 : Forall (fun e => exists k n r, e = EvShrink k a n r false)
                      [EvShrink ExtentCache a (Z.shiftr nr 1) r1 false])
    by (constructor; [eauto|constructor]).
  assert (H2 : Forall (fun e => exists k n r, e = EvShrink k a n r false) e2).
  { destruct E2 as [->|(n & r & ->)]; [exact H1|].
    apply Forall_app. split; [exact H1|]. constructor; [eauto|constructor]. }
  destruct E3 as [->|(n & r & ->)]; [exact H2|].
  apply Forall_app. split; [exact H2|]. constructor; [eauto|constructor].
Qed.

Lemma Walk_trace (run_no nr : Z) rest freed s evs freed' s' :
  Walk run_no nr rest freed s evs freed' s' -> trace s' = trace s ++ evs.
Proof.
  induction 1 as [freed s|a rest freed s Hc|a rest freed s evs freed' s' Hc Hb HW IH
                  |a rest freed s c freed1 tevs s1 Hc Hb Ht Hp Hle
                  |a rest freed s c freed1 tevs s1 evs freed' s' Hc Hb Ht Hp Hlt HW IH].
  - rewrite app_nil_r. reflexivity.
  - rewrite app_nil_r. reflexivity.
  - rewrite IH. cbn. rewrite <- app_assoc. reflexivity.
  - destruct Hp as (_ & _ & _ & _ & _ & Htr). exact Htr.
  - destruct Hp as (_ & _ & _ & _ & _ & Htr). rewrite IH, Htr.
    rewrite <- app_assoc. reflexivity.
Qed.

Lemma Walk_run_no (run_no nr : Z) rest freed s evs freed' s' :
  Walk run_no nr rest freed s evs freed' s' ->
  shrinker_run_no s' = shrinker_run_no s.
Proof.
  induction 1 as [freed s|a rest freed s Hc|a rest freed s evs freed' s' Hc Hb HW IH
                  |a rest freed s c freed1 tevs s1 Hc Hb Ht Hp Hle
                  |a rest freed s c freed1 tevs s1 evs freed' s' Hc Hb Ht Hp Hlt HW IH];
    try reflexivity.
  - exact IH.
  - destruct Hp as (_ & _ & Hr & _). exact Hr.
  - destruct Hp as (_ & _ & Hr & _). rewrite IH. exact Hr.
Qed.

(** ** The claims about the count *)

(** C7: the free-id count [__count_free_nids] that the count walk adds for an
    instance is the number of cached free ids minus [MAX_FREE_NIDS] when that
    is positive, zero when the free ids are at or below the watermark, and
    never negative. *)
Theorem count_free_nids_clamped (sb : f3fs_sb_info) :
  0 <= nid_cnt_FREE_NID (caches sb) < 2 ^ 32 ->
  0 <= MAX_FREE_NIDS < 2 ^ 63 ->
  (MAX_FREE_NIDS < nid_cnt_FREE_NID (caches sb) ->
   __count_free_nids sb = nid_cnt_FREE_NID (caches sb) - MAX_FREE_NIDS) /\
  (nid_cnt_FREE_NID (caches sb) <= MAX_FREE_NIDS -> __count_free_nids sb = 0) /\
  0 <= __count_free_nids sb.
Proof.
  intros Hn Hm. rewrite count_free_nids_eq by assumption.
  repeat split; lia.
Qed.

Lemma shrink_count_run (s : kstate) :
  f3fs_shrink_count s =
  (fst (count_walk (f3fs_list s) 0 (snd (spin_lock s))),
   snd (spin_unlock (snd (count_walk (f3fs_list s) 0 (snd (spin_lock s)))))).
Proof.
  unfold f3fs_shrink_count, bind, read, ret, spin_lock, spin_unlock, set_list_lock.
  cbn [fst snd f3fs_list]. 
  destruct (count_walk (f3fs_list s) 0 _) as [count s1]. reflexivity.
Qed.

(** C5: [f3fs_shrink_count] returns the sum, over the instances whose gate it
    acquires, of zombie trees plus extent nodes, clean NAT entries and free
    ids above the watermark; for an instance whose gate is held the walk
    leaves the failed attempt and nothing else, and goes on. *)
Theorem shrink_count_sum (s : kstate) :
  (forall a, In a (f3fs_list s) -> umount_mutex (mem s a) = false ->
             counters_in_range (mem s a)) ->
  0 <= MAX_FREE_NIDS < 2 ^ 63 ->
  count_sum (mem s) (f3fs_list s) < 2 ^ 64 ->
  fst (f3fs_shrink_count s) = count_sum (mem s) (f3fs_list s) /\
  trace (snd (f3fs_shrink_count s)) =
  trace s ++ count_events (mem s) (f3fs_list s).
Proof.
  intros Hr Hm Hb. rewrite shrink_count_run. cbn [fst snd]. split.
  - rewrite count_walk_value; cbn; try assumption; lia.
  - destruct (count_walk_frame (f3fs_list s) 0 (snd (spin_lock s)))
      as (_ & _ & _ & Ht).
    cbn in Ht |- *. exact Ht.
Qed.

(** C10: after [f3fs_shrink_count] the list, the run counter and every
    instance (its marker, its gate, its caches) are what they were; the walk
    only acquired and released the gates that were free. *)
Theorem shrink_count_frame (s : kstate) :
  f3fs_list (snd (f3fs_shrink_count s)) = f3fs_list s /\
  shrinker_run_no (snd (f3fs_shrink_count s)) = shrinker_run_no s /\
  (forall a, mem (snd (f3fs_shrink_count s)) a = mem s a) /\
  trace (snd (f3fs_shrink_count s)) =
  trace s ++ count_events (mem s) (f3fs_list s).
Proof.
  rewrite shrink_count_run. cbn [snd].
  destruct (count_walk_frame (f3fs_list s) 0 (snd (spin_lock s)))
    as (Hl & Hr & Hm & Ht).
  cbn in Hl, Hr, Hm, Ht |- *. auto.
Qed.

(** *** Which instances a walk touches *)

Lemma count_events_in (m : nat -> f3fs_sb_info) (l : list nat) :
  Forall (fun e => In (event_sbi e) l) (count_events m l).
Proof.
  induction l as [|a l IH]; cbn; [constructor|].
  apply Forall_app. split.
  - destruct (umount_mutex (m a)); repeat constructor.
  - eapply Forall_impl; [|exact IH]. intros e He. right. exact He.
Qed.

Lemma visit_events_in (run_no nr freed : Z) (a : nat) c c' freed' tevs :
  tiers nr freed a c = (c', freed', tevs) ->
  Forall (fun e => event_sbi e = a) (visit run_no a tevs).
Proof.
  intros Ht. apply tiers_events in Ht. unfold visit.
  constructor; [reflexivity|]. constructor; [reflexivity|].
  apply Forall_app. split.
  - eapply Forall_impl; [|exact Ht]. intros e (k & n & r & ->). reflexivity.
  - repeat constructor.
Qed.

Lemma Walk_events_in (run_no nr : Z) rest freed s evs freed' s' :
  Walk run_no nr rest freed s evs freed' s' ->
  Forall (fun e => In (event_sbi e) rest) evs.
Proof.
  induction 1 as [freed s|a rest freed s Hc|a rest freed s evs freed' s' Hc Hb HW IH
                  |a rest freed s c freed1 tevs s1 Hc Hb Ht Hp Hle
                  |a rest freed s c freed1 tevs s1 evs freed' s' Hc Hb Ht Hp Hlt HW IH].
  - constructor.
  - constructor.
  - constructor; [left; reflexivity|].
    eapply Forall_impl; [|exact IH]. intros e He. right. exact He.
  - eapply Forall_impl; [|exact (visit_events_in run_no _ _ _ _ Ht)].
    intros e He. left. symmetry. exact He.
  - apply Forall_app. split.
    + eapply Forall_impl; [|exact (visit_events_in run_no _ _ _ _ Ht)].
      intros e He. left. symmetry. exact He.
    + eapply Forall_impl; [|exact IH]. intros e He. right. exact He.
Qed.

(** A scan leaves events only about instances of the list. *)
Lemma scan_events_in (nr : Z) (s : kstate) :
  NoDup (f3fs_list s) ->
  exists freed s' evs,
    f3fs_shrink_scan nr s = Some (freed, s') /\
    trace s' = trace s ++ evs /\
    Forall (fun e => In (event_sbi e) (f3fs_list s)) evs.
Proof.
  intros Hnd. destruct (@scan_total nr s Hnd) as (evs & freed & s1 & HW & Hrun).
  exists freed, (snd (spin_unlock s1)), evs. split; [exact Hrun|]. split.
  - cbn. apply Walk_trace in HW. exact HW.
  - apply Walk_events_in in HW. exact HW.
Qed.

Lemma NoDup_list_del_init (a : nat) (l : list nat) :
  NoDup l -> NoDup (KList.list_del_init a l).
Proof.
  unfold KList.list_del_init. induction 1 as [|x l Hx Hl IH]; cbn; [constructor|].
  destruct (Nat.eq_dec a x); [exact IH|].
  constructor; [|exact IH]. intros Hin. apply in_remove in Hin. tauto.
Qed.

(** *** Attempts, stamps and the list after a walk *)

Lemma tiers_no_attempt (nr freed : Z) (a : nat) c c' freed' tevs :
  tiers nr freed a c = (c', freed', tevs) ->
  filter is_trylock tevs = [] /\ acquired tevs = [] /\
  forall x r, ~ In (EvStamp x r) tevs.
Proof.
  intros Ht. apply tiers_events in Ht.
  induction Ht as [|e tevs (k & n & r & ->) _ (IH1 & IH2 & IH3)].
  - repeat split. intros x r [].
  - repeat split; cbn; try assumption.
    intros x r0 [Hin|Hin]; [discriminate|]. exact (IH3 x r0 Hin).
Qed.

Lemma acquired_app (l1 l2 : list event) :
  acquired (l1 ++ l2) = acquired l1 ++ acquired l2.
Proof.
  induction l1 as [|e l1 IH]; [reflexivity|].
  destruct e as [a [|]| | | | | |]; cbn; rewrite IH; reflexivity.
Qed.

Lemma acquired_visit (run_no nr freed : Z) (a : nat) c c' freed' tevs :
  tiers nr freed a c = (c', freed', tevs) ->
  acquired (visit run_no a tevs) = [a].
Proof.
  intros Ht. apply tiers_no_attempt in Ht. destruct Ht as (_ & Ha & _).
  unfold visit. cbn. rewrite acquired_app, Ha. reflexivity.
Qed.

Lemma attempts_visit (run_no nr freed : Z) (a : nat) c c' freed' tevs :
  tiers nr freed a c = (c', freed', tevs) ->
  filter is_trylock (visit run_no a tevs) = [EvTryLock a true].
Proof.
  intros Ht. apply tiers_no_attempt in Ht. destruct Ht as (Hf & _ & _).
  unfold visit. cbn. rewrite filter_app, Hf. reflexivity.
Qed.

(** A walk attempts a gate at most once for each node before it. *)
Lemma Walk_attempts (run_no nr : Z) rest freed s evs freed' s' :
  Walk run_no nr rest freed s evs freed' s' ->
  (length (filter is_trylock evs) <= length rest)%nat.
Proof.
  induction 1 as [freed s|a rest freed s Hc|a rest freed s evs freed' s' Hc Hb HW IH
                  |a rest freed s c freed1 tevs s1 Hc Hb Ht Hp Hle
                  |a rest freed s c freed1 tevs s1 evs freed' s' Hc Hb Ht Hp Hlt HW IH].
  - apply Nat.le_refl.
  - apply Nat.le_0_l.
  - cbn. apply le_n_S. exact IH.
  - rewrite (attempts_visit run_no _ _ _ _ Ht). cbn. apply le_n_S, Nat.le_0_l.
  - rewrite filter_app, (attempts_visit run_no _ _ _ _ Ht). cbn.
    apply le_n_S. exact IH.
Qed.

(** The instances a walk acquires are among the nodes before it. *)
Lemma Walk_acquired_in (run_no nr : Z) rest freed s evs freed' s' :
  Walk run_no nr rest freed s evs freed' s' ->
  forall x, In x (acquired evs) -> In x rest.
Proof.
  induction 1 as [freed s|a rest freed s Hc|a rest freed s evs freed' s' Hc Hb HW IH
                  |a rest freed s c freed1 tevs s1 Hc Hb Ht Hp Hle
                  |a rest freed s c freed1 tevs s1 evs freed' s' Hc Hb Ht Hp Hlt HW IH];
    intros x Hx.
  - destruct Hx.
  - destruct Hx.
  - right. apply IH. exact Hx.
  - rewrite (acquired_visit run_no _ _ _ _ Ht) in Hx.
    destruct Hx as [<-|[]]. left. reflexivity.
  - rewrite acquired_app, (acquired_visit run_no _ _ _ _ Ht) in Hx.
    destruct Hx as [<-|Hx]; [left; reflexivity|]. right. apply IH. exact Hx.
Qed.

(** A marker equal to the run id stays so to the end of the walk. *)
Lemma Walk_marker_kept (run_no nr : Z) rest freed s evs freed' s' :
  Walk run_no nr rest freed s evs freed' s' ->
  forall x, sb_shrinker_run_no (mem s x) = run_no ->
            sb_shrinker_run_no (mem s' x) = run_no.
Proof.
  induction 1 as [freed s|a rest freed s Hc|a rest freed s evs freed' s' Hc Hb HW IH
                  |a rest freed s c freed1 tevs s1 Hc Hb Ht Hp Hle
                  |a rest freed s c freed1 tevs s1 evs freed' s' Hc Hb Ht Hp Hlt HW IH];
    intros x Hx; try assumption.
  - apply IH. exact Hx.
  - destruct Hp as (_ & _ & _ & Ha & Ho & _).
    destruct (Nat.eq_dec x a) as [->|Hne]; [rewrite Ha; reflexivity|].
    rewrite Ho by exact Hne. exact Hx.
  - apply IH. destruct Hp as (_ & _ & _ & Ha & Ho & _).
    destruct (Nat.eq_dec x a) as [->|Hne]; [rewrite Ha; reflexivity|].
    rewrite Ho by exact Hne. exact Hx.
Qed.

Lemma stamp_in_visit (run_no nr freed : Z) (a : nat) c c' freed' tevs x r :
  tiers nr freed a c = (c', freed', tevs) ->
  In (EvStamp x r) (visit run_no a tevs) -> x = a /\ r = run_no.
Proof.
  intros Ht Hin. apply tiers_no_attempt in Ht. destruct Ht as (_ & _ & Hns).
  unfold visit in Hin. destruct Hin as [Hin|[Hin|Hin]].
  - discriminate.
  - injection Hin as <- <-. split; reflexivity.
  - apply in_app_iff in Hin. destruct Hin as [Hin|[Hin|[Hin|[]]]].
    + exfalso. exact (Hns x r Hin).
    + discriminate.
    + discriminate.
Qed.

(** Every stamp of a walk carries the run id, and the stamped instance
    still carries it when the walk ends. *)
Lemma Walk_stamps (run_no nr : Z) rest freed s evs freed' s' :
  Walk run_no nr rest freed s evs freed' s' ->
  forall x r, In (EvStamp x r) evs ->
              r = run_no /\ sb_shrinker_run_no (mem s' x) = run_no.
Proof.
  induction 1 as [freed s|a rest freed s Hc|a rest freed s evs freed' s' Hc Hb HW IH
                  |a rest freed s c freed1 tevs s1 Hc Hb Ht Hp Hle
                  |a rest freed s c freed1 tevs s1 evs freed' s' Hc Hb Ht Hp Hlt HW IH];
    intros x r Hin.
  - destruct Hin.
  - destruct Hin.
  - destruct Hin as [Hin|Hin]; [discriminate|]. apply IH. exact Hin.
  - eapply stamp_in_visit in Hin; [|exact Ht]. destruct Hin as (-> & ->).
    destruct Hp as (_ & _ & _ & Ha & _). rewrite Ha. split; reflexivity.
  - apply in_app_iff in Hin. destruct Hin as [Hin|Hin].
    + eapply stamp_in_visit in Hin; [|exact Ht]. destruct Hin as (-> & ->).
      split; [reflexivity|]. apply (Walk_marker_kept HW).
      destruct Hp as (_ & _ & _ & Ha & _). rewrite Ha. reflexivity.
    + apply IH. exact Hin.
Qed.

Lemma NoDup_list_move_tail (a : nat) (l : list nat) :
  NoDup l -> NoDup (KList.list_move_tail a l).
Proof.
  intros H. unfold KList.list_move_tail, KList.list_add_tail.
  apply NoDup_to_tail.
  - apply NoDup_list_del_init. exact H.
  - apply remove_In.
Qed.

Lemma Walk_NoDup (run_no nr : Z) rest freed s evs freed' s' :
  Walk run_no nr rest freed s evs freed' s' ->
  NoDup (f3fs_list s) -> NoDup (f3fs_list s').
Proof.
  induction 1 as [freed s|a rest freed s Hc|a rest freed s evs freed' s' Hc Hb HW IH
                  |a rest freed s c freed1 tevs s1 Hc Hb Ht Hp Hle
                  |a rest freed s c freed1 tevs s1 evs freed' s' Hc Hb Ht Hp Hlt HW IH];
    intros Hnd; try assumption.
  - apply IH. exact Hnd.
  - destruct Hp as (Hl & _). rewrite Hl. apply NoDup_list_move_tail. exact Hnd.
  - apply IH. destruct Hp as (Hl & _). rewrite Hl.
    apply NoDup_list_move_tail. exact Hnd.
Qed.

(** *** Leaving *)

Lemma leave_run (a : nat) (s : kstate) :
  f3fs_leave_shrinker a s =
  (tt,
   mkState (KList.list_del_init a (f3fs_list s)) false (shrinker_run_no s)
           (store a (set_caches
                       (fst (extent_tree_shrinker (caches (mem s a))
                                                  (__count_extent_cache (mem s a)))))
                  (mem s))
           ((trace s
             ++ [EvShrink ExtentCache a (__count_extent_cache (mem s a))
                          (snd (extent_tree_shrinker (caches (mem s a))
                                                     (__count_extent_cache (mem s a))))
                          (f3fs_list_lock s)])
            ++ [EvListDel a true])).
Proof.
  unfold f3fs_leave_shrinker, f3fs_shrink_extent_tree, call_shrinker,
    list_del_init, spin_lock, spin_unlock, bind, read, ret, modify, emit,
    set_list_lock, set_list.
  cbn [shrinker fst snd].
  destruct (extent_tree_shrinker (caches (mem s a)) (__count_extent_cache (mem s a)))
    as [c r].
  reflexivity.
Qed.

(** C6: [f3fs_leave_shrinker] first asks the extent cache of the instance,
    with the list lock not held, for as many objects as it counts (zombie
    trees plus extent nodes), then unlinks the instance with the lock held;
    afterwards the instance is not in the list, the others are, and neither
    a count nor a scan touches it. *)
Theorem leave_drains_then_unlinks (a : nat) (s : kstate) :
  f3fs_list_lock s = false ->
  counters_in_range (mem s a) ->
  NoDup (f3fs_list s) ->
  let s' := snd (f3fs_leave_shrinker a s) in
  (exists r,
      trace s' =
      trace s ++ [EvShrink ExtentCache a
                           (total_zombie_tree (caches (mem s a))
                            + total_ext_node (caches (mem s a))) r false;
                  EvListDel a true]) /\
  ~ In a (f3fs_list s') /\
  (forall x, x <> a -> In x (f3fs_list s') <-> In x (f3fs_list s)) /\
  (exists evs,
      trace (snd (f3fs_shrink_count s')) = trace s' ++ evs /\
      Forall (fun e => event_sbi e <> a) evs) /\
  (forall nr, exists freed s'' evs,
      f3fs_shrink_scan nr s' = Some (freed, s'') /\
      trace s'' = trace s' ++ evs /\
      Forall (fun e => event_sbi e <> a) evs).
Proof.
  intros Hlk Hr Hnd s'. subst s'. rewrite leave_run. cbn [snd].
  rewrite count_extent_cache_eq by exact Hr. rewrite Hlk.
  assert (Hout : ~ In a (KList.list_del_init a (f3fs_list s)))
    by apply remove_In.
  split; [|split; [|split; [|split]]].
  - eexists. cbn [trace]. rewrite <- app_assoc. reflexivity.
  - exact Hout.
  - intros x Hx. cbn [f3fs_list]. unfold KList.list_del_init. split.
    + intros Hin. apply in_remove in Hin. tauto.
    + intros Hin. apply in_in_remove; assumption.
  - match goal with |- context [f3fs_shrink_count ?st] => set (s1 := st) end.
    exists (count_events (mem s1) (f3fs_list s1)). split.
    { rewrite shrink_count_run. cbn [snd].
      destruct (count_walk_frame (f3fs_list s1) 0 (snd (spin_lock s1)))
        as (_ & _ & _ & Ht).
      cbn in Ht |- *. exact Ht. }
    eapply Forall_impl; [|apply count_events_in].
    intros e He Heq. cbv beta in He. rewrite Heq in He. exact (Hout He).
  - intros nr.
    match goal with |- context [f3fs_shrink_scan nr ?st] => set (s1 := st) end.
    destruct (@scan_events_in nr s1) as (freed & s'' & evs & Hrun & Ht & Hin).
    { apply NoDup_list_del_init. exact Hnd. }
    exists freed, s'', evs. repeat split; try assumption.
    eapply Forall_impl; [|exact Hin].
    intros e He Heq. cbv beta in He. rewrite Heq in He. exact (Hout He).
Qed.

(** ** The claims about the scan *)

(** C4: on every list without repeated nodes, whatever gates are held and
    whatever the target, [f3fs_shrink_scan] ends: two turns more than the
    list has nodes are enough for each of its loops, and more turns change
    nothing; the walk attempts at most as many gates as the list has nodes;
    and a walk that meets a node whose marker is the run id stops there,
    leaving the state as it is. *)
Theorem scan_terminates (nr : Z) (s : kstate) :
  NoDup (f3fs_list s) ->
  exists freed s' evs,
    (forall fuel, (2 + length (f3fs_list s) <= fuel)%nat ->
                  f3fs_shrink_scan_fuel fuel nr s = Some (freed, s')) /\
    trace s' = trace s ++ evs /\
    (length (filter is_trylock evs) <= length (f3fs_list s))%nat /\
    (forall fuel run_no a f st,
        sb_shrinker_run_no (mem st a) = run_no ->
        scan_walk (S fuel) run_no nr (Some a) f st = Some (f, st)).
Proof.
  intros Hnd. destruct (@scan_spec nr s Hnd) as (evs & freed & s1 & HW & Hrun).
  exists freed, (snd (spin_unlock s1)), evs.
  split; [exact Hrun|]. split; [|split].
  - cbn. exact (Walk_trace HW).
  - exact (Walk_attempts HW).
  - intros fuel run_no a f st Hm. cbn [scan_walk].
    rewrite scan_iter_cycle by exact Hm. reflexivity.
Qed.

(** C8: a scan draws its run id by incrementing [shrinker_run_no] modulo
    2^32, once more when that gives zero; the run id is never zero; every
    stamp of the scan carries it and the stamped instance keeps it; when the
    increment does not wrap, the run id is the old counter plus one, so that
    the next scan draws a larger one. *)
Theorem scan_run_id (nr : Z) (s : kstate) :
  NoDup (f3fs_list s) ->
  exists freed s' evs,
    f3fs_shrink_scan nr s = Some (freed, s') /\
    trace s' = trace s ++ evs /\
    shrinker_run_no s' =
    (let c1 := Width.u32 (shrinker_run_no s + 1) in
     if c1 =? 0 then Width.u32 (c1 + 1) else c1) /\
    shrinker_run_no s' <> 0 /\
    (forall a r, In (EvStamp a r) evs ->
                 r = shrinker_run_no s' /\ sb_shrinker_run_no (mem s' a) = r) /\
    (0 <= shrinker_run_no s -> shrinker_run_no s + 1 < 2 ^ 32 ->
     shrinker_run_no s' = shrinker_run_no s + 1) /\
    (0 <= shrinker_run_no s -> shrinker_run_no s + 2 < 2 ^ 32 ->
     forall nr2, exists freed2 s2,
         f3fs_shrink_scan nr2 s' = Some (freed2, s2) /\
         shrinker_run_no s' < shrinker_run_no s2).
Proof.
  intros Hnd. destruct (@scan_total nr s Hnd) as (evs & freed & s1 & HW & Hrun).
  exists freed, (snd (spin_unlock s1)), evs.
  assert (Hrn : shrinker_run_no (snd (spin_unlock s1)) = next_run_no (shrinker_run_no s))
    by (cbn; rewrite (Walk_run_no HW); reflexivity).
  split; [exact Hrun|]. split; [cbn; exact (Walk_trace HW)|].
  split; [exact Hrn|]. split; [rewrite Hrn; apply next_run_no_nonzero|].
  split; [|split].
  - intros a r Hin. destruct (Walk_stamps HW _ _ Hin) as (-> & Hm).
    rewrite Hrn. cbn [mem snd spin_unlock set_list_lock]. split; [reflexivity|exact Hm].
  - intros H0 H1. rewrite Hrn. apply next_run_no_succ; assumption.
  - intros H0 H2 nr2.
    assert (Hnd' : NoDup (f3fs_list (snd (spin_unlock s1))))
      by (cbn; exact (Walk_NoDup HW Hnd)).
    destruct (@scan_total nr2 _ Hnd') as (evs2 & freed2 & s2 & HW2 & Hrun2).
    exists freed2, (snd (spin_unlock s2)). split; [exact Hrun2|].
    cbn [shrinker_run_no snd spin_unlock set_list_lock].
    rewrite (Walk_run_no HW2). cbn [shrinker_run_no scan_start].
    rewrite Hrn. rewrite (Walk_run_no HW). cbn [shrinker_run_no scan_start].
    rewrite (next_run_no_succ (c := shrinker_run_no s)) by lia.
    rewrite next_run_no_succ by lia. lia.
Qed.

(** *** The three tiers with shrinkers that report [unsigned int] counts *)

Lemma requests_app (l1 l2 : list event) :
  requests (l1 ++ l2) = requests l1 ++ requests l2.
Proof.
  induction l1 as [|e l1 IH]; [reflexivity|].
  destruct e; cbn; rewrite IH; reflexivity.
Qed.

Lemma freed_of_app (l1 l2 : list event) :
  freed_of (l1 ++ l2) = freed_of l1 + freed_of l2.
Proof.
  induction l1 as [|e l1 IH]; [reflexivity|].
  destruct e; cbn; rewrite IH; lia.
Qed.

Lemma extent_asked_app (l1 l2 : list event) :
  extent_asked (l1 ++ l2) = extent_asked l1 ++ extent_asked l2.
Proof.
  induction l1 as [|e l1 IH]; [reflexivity|].
  destruct e as [| | |[| |]| | |]; cbn; rewrite IH; reflexivity.
Qed.

Lemma shiftr_half (nr : Z) : Z.shiftr nr 1 = nr / 2.
Proof. rewrite Z.shiftr_div_pow2 by lia. reflexivity. Qed.

(** The events of the tiers, case by case: the extent cache is asked for
    half of [nr]; the NAT cache for what is missing if something is; the
    free-id cache likewise. *)
Lemma tiers_cases (nr freed : Z) (a : nat) c c' freed' tevs :
  shrinkers_bounded ->
  0 <= nr -> nr + 2 ^ 32 <= 2 ^ 64 ->
  0 <= freed <= nr ->
  tiers nr freed a c = (c', freed', tevs) ->
  exists r1,
    0 <= r1 < 2 ^ 32 /\
    ((nr <= freed + r1 /\
      tevs = [EvShrink ExtentCache a (nr / 2) r1 false] /\
      freed' = freed + r1) \/
     (freed + r1 < nr /\
      exists r2,
        0 <= r2 < 2 ^ 32 /\
        ((nr <= freed + r1 + r2 /\
          tevs = [EvShrink ExtentCache a (nr / 2) r1 false;
                  EvShrink NatCache a (nr - (freed + r1)) r2 false] /\
          freed' = freed + r1 + r2) \/
         (freed + r1 + r2 < nr /\
          exists r3,
            0 <= r3 < 2 ^ 32 /\
            tevs = [EvShrink ExtentCache a (nr / 2) r1 false;
                    EvShrink NatCache a (nr - (freed + r1)) r2 false;
                    EvShrink FreeNidCache a (nr - (freed + r1 + r2)) r3 false] /\
            freed' = freed + r1 + r2 + r3)))).
Proof.
  intros Hb Hnr Hmax Hf Ht. unfold tiers in Ht.
  pose proof (Hb ExtentCache c (Z.shiftr nr 1)) as B1. cbn [shrinker] in B1.
  destruct (extent_tree_shrinker c (Z.shiftr nr 1)) as [c1 r1]. cbn [snd] in B1.
  rewrite shiftr_half in Ht. exists r1. split; [exact B1|].
  unfold tier in Ht. rewrite !(@u64_id (freed + r1)) in Ht by lia.
  destruct (Z.ltb_spec (freed + r1) nr) as [L1|L1].
  - rewrite !(@u64_id (nr - (freed + r1))) in Ht by lia.
    pose proof (Hb NatCache c1 (nr - (freed + r1))) as B2.
    destruct (shrinker NatCache c1 (nr - (freed + r1))) as [c2 r2]. cbn [snd] in B2.
    rewrite !(@u64_id (freed + r1 + r2)) in Ht by lia.
    right. split; [exact L1|]. exists r2. split; [exact B2|].
    destruct (Z.ltb_spec (freed + r1 + r2) nr) as [L2|L2].
    + rewrite !(@u64_id (nr - (freed + r1 + r2))) in Ht by lia.
      pose proof (Hb FreeNidCache c2 (nr - (freed + r1 + r2))) as B3.
      destruct (shrinker FreeNidCache c2 (nr - (freed + r1 + r2))) as [c3 r3].
      cbn [snd] in B3. rewrite !(@u64_id (freed + r1 + r2 + r3)) in Ht by lia.
      injection Ht as <- <- <-.
      right. split; [exact L2|]. exists r3. split; [exact B3|].
      split; reflexivity.
    + injection Ht as <- <- <-. left. repeat split. exact L2.
  - destruct (Z.ltb_spec (freed + r1) nr) as [L2|L2]; [lia|].
    injection Ht as <- <- <-. left. repeat split. exact L1.
Qed.

Lemma tiers_tiered (nr freed : Z) (a : nat) c c' freed' tevs :
  shrinkers_bounded ->
  0 <= nr -> nr + 2 ^ 32 <= 2 ^ 64 ->
  0 <= freed <= nr ->
  tiers nr freed a c = (c', freed', tevs) ->
  0 <= freed' /\
  extent_asked tevs = [a] /\
  forall rest out,
    tiered nr freed' rest out ->
    tiered nr freed (requests tevs ++ rest) out.
Proof.
  intros Hb Hnr Hmax Hf Ht.
  destruct (tiers_cases a c Hb Hnr Hmax Hf Ht)
    as (r1 & B1 & [(L1 & -> & ->)|(L1 & r2 & B2 & [(L2 & -> & ->)|(L2 & r3 & B3 & -> & ->)])]).
  - split; [lia|]. split; [reflexivity|]. intros rest out Hrest. cbn.
    apply (@tiered_instance nr a freed r1 (freed + r1) (freed + r1) out
                            [] [] rest).
    + apply tier_left_out. exact L1.
    + apply tier_left_out. exact L1.
    + exact Hrest.
  - split; [lia|]. split; [reflexivity|]. intros rest out Hrest. cbn.
    apply (@tiered_instance nr a freed r1 (freed + r1 + r2) (freed + r1 + r2) out
                            [(NatCache, a, nr - (freed + r1), r2)] [] rest).
    + apply tier_asked. exact L1.
    + apply tier_left_out. exact L2.
    + exact Hrest.
  - split; [lia|]. split; [reflexivity|]. intros rest out Hrest. cbn.
    apply (@tiered_instance nr a freed r1 (freed + r1 + r2)
                            (freed + r1 + r2 + r3) out
                            [(NatCache, a, nr - (freed + r1), r2)]
                            [(FreeNidCache, a, nr - (freed + r1 + r2), r3)] rest).
    + apply tier_asked. exact L1.
    + apply tier_asked. exact L2.
    + exact Hrest.
Qed.

Lemma requests_visit (run_no : Z) (a : nat) (tevs : list event) :
  requests (visit run_no a tevs) = requests tevs.
Proof.
  unfold visit. cbn. rewrite requests_app. cbn. apply app_nil_r.
Qed.

Lemma extent_asked_visit (run_no : Z) (a : nat) (tevs : list event) :
  extent_asked (visit run_no a tevs) = extent_asked tevs.
Proof.
  unfold visit. cbn. rewrite extent_asked_app. cbn. apply app_nil_r.
Qed.

(** The requests of a walk follow the budget rule of the specification, and
    the extent cache of every acquired instance is asked. *)
Lemma Walk_tiered (run_no nr : Z) rest freed s evs freed' s' :
  Walk run_no nr rest freed s evs freed' s' ->
  shrinkers_bounded ->
  0 <= nr -> nr + 2 ^ 32 <= 2 ^ 64 ->
  0 <= freed <= nr ->
  tiered nr freed (requests evs) freed' /\
  extent_asked evs = acquired evs.
Proof.
  intros HW Hb Hnr Hmax.
  induction HW as [freed s|a rest freed s Hc|a rest freed s evs freed' s' Hc Hg HW IH
                  |a rest freed s c freed1 tevs s1 Hc Hg Ht Hp Hle
                  |a rest freed s c freed1 tevs s1 evs freed' s' Hc Hg Ht Hp Hlt HW IH];
    intros Hf.
  - split; [constructor|reflexivity].
  - split; [constructor|reflexivity].
  - cbn. apply IH. exact Hf.
  - destruct (tiers_tiered a _ Hb Hnr Hmax Hf Ht) as (H0 & Hx & Hq).
    rewrite requests_visit, extent_asked_visit, Hx.
    rewrite (acquired_visit run_no _ _ _ _ Ht). split; [|reflexivity].
    rewrite <- (app_nil_r (requests tevs)). apply Hq. constructor.
  - destruct (tiers_tiered a _ Hb Hnr Hmax Hf Ht) as (H0 & Hx & Hq).
    destruct IH as (IH1 & IH2); [lia|].
    rewrite requests_app, requests_visit, extent_asked_app, extent_asked_visit, Hx.
    rewrite acquired_app, (acquired_visit run_no _ _ _ _ Ht), IH2.
    split; [|reflexivity]. apply Hq. exact IH1.
Qed.

(** C1: the shrink requests of a scan follow the budget rule instance by
    instance: the extent cache of every instance whose gate the scan acquires
    is asked for half the target (rounded down) whatever has been freed; then
    the NAT cache for the target minus what is freed, only if that is
    positive; then the free-id cache likewise; what the caches report adds
    up, from one instance to the next, to the value the scan returns. *)
Theorem scan_budget_tiers (nr : Z) (s : kstate) :
  NoDup (f3fs_list s) ->
  shrinkers_bounded ->
  0 <= nr -> nr + 2 ^ 32 <= 2 ^ 64 ->
  exists freed s' evs,
    f3fs_shrink_scan nr s = Some (freed, s') /\
    trace s' = trace s ++ evs /\
    tiered nr 0 (requests evs) freed /\
    extent_asked evs = acquired evs.
Proof.
  intros Hnd Hb Hnr Hmax.
  destruct (@scan_total nr s Hnd) as (evs & freed & s1 & HW & Hrun).
  exists freed, (snd (spin_unlock s1)), evs.
  split; [exact Hrun|]. split; [cbn; exact (Walk_trace HW)|].
  apply (Walk_tiered HW Hb Hnr Hmax). lia.
Qed.

(** *** Work stops at the target *)

Lemma work_below_app (nr : Z) (l1 l2 : list event) :
  forall freed asked,
    work_below nr freed asked (l1 ++ l2) <->
    work_below nr freed asked l1 /\
    work_below nr (freed + freed_of l1) (asked || existsb is_request l1) l2.
Proof.
  induction l1 as [|e l1 IH]; intros freed asked; cbn [app work_below].
  - cbn. rewrite Z.add_0_r, orb_false_r. tauto.
  - rewrite IH. cbn [existsb].
    replace (freed + freed_of [e] + freed_of l1) with (freed + freed_of (e :: l1))
      by (destruct e; cbn; lia).
    rewrite orb_assoc. tauto.
Qed.

(** [work_below] read at any place of the trace. *)
Lemma work_below_split (nr : Z) (pre : list event) :
  forall freed asked e post,
    work_below nr freed asked (pre ++ e :: post) ->
    is_work e = true ->
    freed + freed_of pre < nr \/ (nr = 0 /\ asked = false /\ requests pre = []).
Proof.
  induction pre as [|x pre IH]; intros freed asked e post Hw He.
  - cbn in Hw. destruct Hw as (Hw & _). cbn. rewrite Z.add_0_r.
    destruct (Hw He) as [H|(H1 & H2)]; [left; exact H|right; auto].
  - cbn [app work_below] in Hw. destruct Hw as (_ & Hw).
    destruct (IH _ _ _ _ Hw He) as [H|(H1 & H2 & H3)].
    + left. replace (freed + freed_of (x :: pre))
        with (freed + freed_of [x] + freed_of pre) by (destruct x; cbn; lia).
      exact H.
    + right. apply orb_false_elim in H2. destruct H2 as (H2 & H4).
      repeat split; try assumption.
      destruct x; try discriminate; cbn; exact H3.
Qed.

Lemma Walk_work_below (run_no nr : Z) rest freed s evs freed' s' :
  Walk run_no nr rest freed s evs freed' s' ->
  shrinkers_bounded ->
  0 <= nr -> nr + 2 ^ 32 <= 2 ^ 64 ->
  forall asked,
    0 <= freed ->
    freed < nr \/ (nr = 0 /\ freed = 0 /\ asked = false) ->
    work_below nr freed asked evs /\ freed' = freed + freed_of evs.
Proof.
  intros HW Hb Hnr Hmax.
  induction HW as [freed s|a rest freed s Hc|a rest freed s evs freed' s' Hc Hg HW IH
                  |a rest freed s c freed1 tevs s1 Hc Hg Ht Hp Hle
                  |a rest freed s c freed1 tevs s1 evs freed' s' Hc Hg Ht Hp Hlt HW IH];
    intros asked Hf Hinv.
  - cbn. split; [exact I|lia].
  - cbn. split; [exact I|lia].
  - cbn [work_below freed_of is_request].
    rewrite Z.add_0_r, orb_false_r.
    destruct (IH asked Hf Hinv) as (IH1 & IH2).
    split; [split; [|exact IH1]|exact IH2].
    intros _. destruct Hinv as [H|(H1 & H2 & H3)]; [left; exact H|right; auto].
  - assert (Hf' : 0 <= freed <= nr) by lia.
    destruct (tiers_cases a _ Hb Hnr Hmax Hf' Ht)
      as (r1 & B1 & [(L1 & -> & ->)|(L1 & r2 & B2 & [(L2 & -> & ->)|(L2 & r3 & B3 & -> & ->)])]);
      unfold visit; cbn [app work_below freed_of is_work is_request];
      rewrite ?Z.add_0_r, ?orb_false_r, ?orb_true_r;
      (split; [|lia]);
      repeat split; try exact I; try discriminate; intros _;
      try (left; lia);
      destruct Hinv as [H|(H1 & H2 & H3)]; (left; lia) || (right; auto).
  - assert (Hf' : 0 <= freed <= nr) by lia.
    destruct (IH true) as (IH1 & IH2);
      [destruct (tiers_cases a _ Hb Hnr Hmax Hf' Ht)
         as (r1 & B1 & [(L1 & _ & ->)|(L1 & r2 & B2 & [(L2 & _ & ->)|(L2 & r3 & B3 & _ & ->)])]);
       lia
      |left; exact Hlt|].
    rewrite freed_of_app.
    destruct (tiers_cases a _ Hb Hnr Hmax Hf' Ht)
      as (r1 & B1 & [(L1 & -> & ->)|(L1 & r2 & B2 & [(L2 & -> & ->)|(L2 & r3 & B3 & -> & ->)])]);
      unfold visit; cbn [app work_below freed_of is_work is_request];
      rewrite ?Z.add_0_r, ?orb_false_r, ?orb_true_r;
      cbn [freed_of] in IH2; rewrite ?Z.add_0_r in IH2;
      (split; [|lia]);
      repeat split; try exact I; try discriminate;
      try (intros _; try (left; lia);
           destruct Hinv as [H|(H1 & H2 & H3)]; (left; lia) || (right; auto)).
    all: exact IH1.
Qed.

(** C2, amended: a scan returns what its requests report freed, and every
    attempt on a gate and every shrink request is made while the objects
    freed so far are fewer than the target; only when the target is zero is
    work done with the target reached, and then before the first request:
    nothing follows the first request. *)
Theorem scan_stops_at_target (nr : Z) (s : kstate) :
  NoDup (f3fs_list s) ->
  shrinkers_bounded ->
  0 <= nr -> nr + 2 ^ 32 <= 2 ^ 64 ->
  exists freed s' evs,
    f3fs_shrink_scan nr s = Some (freed, s') /\
    trace s' = trace s ++ evs /\
    freed = freed_of evs /\
    forall pre e post,
      evs = pre ++ e :: post ->
      is_work e = true ->
      freed_of pre < nr \/ (nr = 0 /\ requests pre = []).
Proof.
  intros Hnd Hb Hnr Hmax.
  destruct (@scan_total nr s Hnd) as (evs & freed & s1 & HW & Hrun).
  exists freed, (snd (spin_unlock s1)), evs.
  split; [exact Hrun|]. split; [cbn; exact (Walk_trace HW)|].
  destruct (Walk_work_below HW Hb Hnr Hmax (asked := false)) as (Hw & Hfr);
    [lia|destruct (Z.eq_dec nr 0); [right; auto|left; lia]|].
  split; [lia|].
  intros pre e post -> He.
  destruct (@work_below_split nr pre 0 false e post Hw He) as [H|(H1 & _ & H3)].
  - left. lia.
  - right. auto.
Qed.

(** *** The first turns of a walk *)

Lemma Walk_at_busy (run_no nr : Z) a rest freed s evs freed' s' :
  Walk run_no nr (a :: rest) freed s evs freed' s' ->
  sb_shrinker_run_no (mem s a) <> run_no ->
  umount_mutex (mem s a) = true ->
  exists evs',
    evs = EvTryLock a false :: evs' /\
    Walk run_no nr rest freed (snd (emit (EvTryLock a false) s)) evs' freed' s'.
Proof.
  intros HW Hc Hg. inversion HW; subst; try contradiction; try congruence.
  eexists. split; [reflexivity|assumption].
Qed.

Lemma Walk_at_free (run_no nr : Z) a rest freed s evs freed' s' :
  Walk run_no nr (a :: rest) freed s evs freed' s' ->
  sb_shrinker_run_no (mem s a) <> run_no ->
  umount_mutex (mem s a) = false ->
  exists c freed1 tevs s1,
    tiers nr freed a (caches (mem s a)) = (c, freed1, tevs) /\
    processed run_no a c tevs s s1 /\
    ((nr <= freed1 /\ evs = visit run_no a tevs /\ freed' = freed1 /\ s' = s1) \/
     (freed1 < nr /\
      exists evs', evs = visit run_no a tevs ++ evs' /\
                   Walk run_no nr rest freed1 s1 evs' freed' s')).
Proof.
  intros HW Hc Hg. inversion HW; subst; try contradiction; try congruence.
  - do 4 eexists. split; [eassumption|]. split; [eassumption|].
    left. auto.
  - do 4 eexists. split; [eassumption|]. split; [eassumption|].
    right. split; [assumption|]. eexists. split; [reflexivity|assumption].
Qed.

(** The tiers of a scan for nothing: the extent cache is asked for nothing
    and that is all. *)
Lemma tiers_zero (a : nat) (c : f3fs_caches) :
  tiers 0 0 a c =
  (fst (extent_tree_shrinker c 0),
   Width.u64 (snd (extent_tree_shrinker c 0)),
   [EvShrink ExtentCache a 0 (snd (extent_tree_shrinker c 0)) false]).
Proof.
  unfold tiers. change (Z.shiftr 0 1) with 0.
  destruct (extent_tree_shrinker c 0) as [c1 r1]. cbn [fst snd Z.add].
  assert (E : (Width.u64 r1 <? 0) = false)
    by (apply Z.ltb_ge; pose proof (u64_range r1); lia).
  unfold tier. rewrite E. cbv beta iota. rewrite E. reflexivity.
Qed.

Lemma Walk_zero_first (run_no : Z) (busy : list nat) :
  forall a rest s evs freed' s',
    Walk run_no 0 (busy ++ a :: rest) 0 s evs freed' s' ->
    (forall x, In x busy -> umount_mutex (mem s x) = true) ->
    umount_mutex (mem s a) = false ->
    (forall x, In x (busy ++ [a]) -> sb_shrinker_run_no (mem s x) <> run_no) ->
    evs = map (fun x => EvTryLock x false) busy
          ++ visit run_no a [EvShrink ExtentCache a 0
                               (snd (extent_tree_shrinker (caches (mem s a)) 0))
                               false] /\
    freed' = Width.u64 (snd (extent_tree_shrinker (caches (mem s a)) 0)) /\
    f3fs_list s' = KList.list_move_tail a (f3fs_list s) /\
    shrinker_run_no s' = shrinker_run_no s /\
    mem s' a = mkSbi false run_no (fst (extent_tree_shrinker (caches (mem s a)) 0)) /\
    (forall x, x <> a -> mem s' x = mem s x).
Proof.
  induction busy as [|b busy IH]; intros a rest s evs freed' s' HW Hbusy Hfree Hfresh.
  - cbn [app] in HW.
    destruct (Walk_at_free HW) as (c & freed1 & tevs & s1 & Ht & Hp & Hcase).
    { apply Hfresh. left. reflexivity. }
    { exact Hfree. }
    rewrite tiers_zero in Ht. injection Ht as <- <- <-.
    destruct Hcase as [(_ & -> & -> & ->)|(Hlt & _)].
    + destruct Hp as (Hl & _ & Hr & Ha & Ho & _). cbn [map app]. auto 10.
    + pose proof (u64_range (snd (extent_tree_shrinker (caches (mem s a)) 0))). lia.
  - cbn [app] in HW.
    destruct (Walk_at_busy HW) as (evs' & -> & HW').
    { apply Hfresh. left. reflexivity. }
    { apply Hbusy. left. reflexivity. }
    destruct (IH _ _ _ _ _ _ HW') as (He & Hf & Hl & Hr & Ha & Ho).
    + intros x Hx. cbn. apply Hbusy. right. exact Hx.
    + exact Hfree.
    + intros x Hx. cbn. apply Hfresh. right. exact Hx.
    + cbn in He, Hf, Hl, Hr, Ha, Ho |- *. subst evs'. auto 10.
Qed.

(** C9, amended: asked for nothing, with instance [a] the first whose gate
    is free (those before it busy) and no marker up to [a] equal to the run
    id the scan draws, the scan skips the busy instances, acquires [a], stamps it
    with the run id, asks its extent cache for zero objects and no other
    cache for anything, moves [a] to the tail, releases it and stops: the
    instances after [a] are not attempted. *)
Theorem scan_zero_processes_first (s : kstate) (busy : list nat) (a : nat)
        (rest : list nat) :
  f3fs_list s = busy ++ a :: rest ->
  NoDup (f3fs_list s) ->
  (forall x, In x busy -> umount_mutex (mem s x) = true) ->
  umount_mutex (mem s a) = false ->
  (forall x, In x (busy ++ [a]) ->
             sb_shrinker_run_no (mem s x) <> next_run_no (shrinker_run_no s)) ->
  exists freed s' c r,
    f3fs_shrink_scan 0 s = Some (freed, s') /\
    extent_tree_shrinker (caches (mem s a)) 0 = (c, r) /\
    freed = Width.u64 r /\
    trace s' =
    trace s ++ map (fun x => EvTryLock x false) busy
            ++ [EvTryLock a true;
                EvStamp a (next_run_no (shrinker_run_no s));
                EvShrink ExtentCache a 0 r false;
                EvListMoveTail a true;
                EvMutexUnlock a] /\
    mem s' a = mkSbi false (next_run_no (shrinker_run_no s)) c /\
    (forall x, x <> a -> mem s' x = mem s x) /\
    f3fs_list s' = busy ++ rest ++ [a] /\
    shrinker_run_no s' = next_run_no (shrinker_run_no s).
Proof.
  intros Hl Hnd Hbusy Hfree Hfresh.
  destruct (@scan_total 0 s Hnd) as (evs & freed & s1 & HW & Hrun).
  pose proof (Walk_trace HW) as Htr.
  rewrite Hl in HW.
  destruct (Walk_zero_first _ _ _ HW) as (He & Hf & Hl1 & Hr & Ha & Ho);
    try assumption.
  cbn [mem scan_start f3fs_list shrinker_run_no] in He, Hf, Hl1, Hr, Ha, Ho.
  exists freed, (snd (spin_unlock s1)),
    (fst (extent_tree_shrinker (caches (mem s a)) 0)),
    (snd (extent_tree_shrinker (caches (mem s a)) 0)).
  split; [exact Hrun|]. split; [apply surjective_pairing|].
  split; [exact Hf|].
  cbn [trace mem f3fs_list shrinker_run_no snd spin_unlock set_list_lock].
  rewrite Htr, He. cbn [trace scan_start].
  split; [reflexivity|]. split; [exact Ha|]. split; [exact Ho|].
  split; [|exact Hr].
  rewrite Hl1, Hl. rewrite Hl in Hnd.
  destruct (NoDup_split _ _ _ Hnd) as (H1 & H2 & _).
  apply list_move_tail_at; assumption.
Qed.

(** *** Processed instances go to the tail *)

Lemma in_acquired_dec (x : nat) (l : list nat) :
  existsb (Nat.eqb x) l = true <-> In x l.
Proof.
  rewrite existsb_exists. split.
  - intros (y & Hy & E). apply Nat.eqb_eq in E. subst y. exact Hy.
  - intros H. exists x. split; [exact H|apply Nat.eqb_refl].
Qed.

Lemma kept_all (evs : list event) (l : list nat) :
  (forall x, In x l -> ~ In x (acquired evs)) -> kept evs l = l.
Proof.
  intros H. unfold kept. induction l as [|x l IH]; [reflexivity|]. cbn.
  destruct (existsb (Nat.eqb x) (acquired evs)) eqn:E.
  - apply in_acquired_dec in E. exfalso. exact (H x (or_introl eq_refl) E).
  - cbn. f_equal. apply IH. intros y Hy. apply H. right. exact Hy.
Qed.

Lemma kept_cons_out (evs : list event) (a : nat) (l : list nat) :
  ~ In a (acquired evs) -> kept evs (a :: l) = a :: kept evs l.
Proof.
  intros H. unfold kept. cbn.
  destruct (existsb (Nat.eqb a) (acquired evs)) eqn:E; [|reflexivity].
  apply in_acquired_dec in E. contradiction.
Qed.

Lemma kept_cons_in (evs : list event) (a : nat) (l : list nat) :
  In a (acquired evs) -> kept evs (a :: l) = kept evs l.
Proof.
  intros H. unfold kept. cbn. apply in_acquired_dec in H. rewrite H. reflexivity.
Qed.

Lemma kept_more (a : nat) (evs1 evs2 : list event) (l : list nat) :
  acquired evs1 = a :: acquired evs2 -> ~ In a l -> kept evs1 l = kept evs2 l.
Proof.
  intros E Ha. unfold kept. apply filter_ext_in. intros x Hx. rewrite E. cbn.
  destruct (Nat.eqb_spec x a) as [->|_]; [contradiction|reflexivity].
Qed.

(** After a walk the nodes it did not acquire are in their old order and
    the nodes it acquired follow, in the order of acquisition. *)
Lemma Walk_list (run_no nr : Z) rest freed s evs freed' s' :
  Walk run_no nr rest freed s evs freed' s' ->
  forall passed moved,
    f3fs_list s = passed ++ rest ++ moved ->
    NoDup (passed ++ rest ++ moved) ->
    f3fs_list s' = passed ++ kept evs rest ++ moved ++ acquired evs.
Proof.
  induction 1 as [freed s|a rest freed s Hc|a rest freed s evs freed' s' Hc Hb HW IH
                  |a rest freed s c freed1 tevs s1 Hc Hb Ht Hp Hle
                  |a rest freed s c freed1 tevs s1 evs freed' s' Hc Hb Ht Hp Hlt HW IH];
    intros passed moved Hl Hnd.
  - rewrite Hl. cbn. rewrite app_nil_r. reflexivity.
  - rewrite Hl. rewrite kept_all by (intros x _ []). cbn [acquired].
    rewrite app_nil_r. reflexivity.
  - destruct (NoDup_split passed (rest ++ moved) a Hnd) as (Hn1 & Hn2 & _).
    cbn [acquired]. rewrite kept_cons_out.
    + rewrite (IH (passed ++ [a]) moved).
      * rewrite <- app_assoc. reflexivity.
      * cbn. rewrite Hl, <- app_assoc. reflexivity.
      * rewrite <- app_assoc. exact Hnd.
    + intros Hin. apply Hn2, in_or_app. left.
      exact (Walk_acquired_in HW _ Hin).
  - destruct (NoDup_split passed (rest ++ moved) a Hnd) as (Hn1 & Hn2 & _).
    destruct Hp as (Hl1 & _). rewrite Hl1, Hl. cbn [app].
    rewrite list_move_tail_at by assumption.
    rewrite (acquired_visit run_no _ _ _ _ Ht).
    rewrite kept_cons_in
      by (rewrite (acquired_visit run_no _ _ _ _ Ht); left; reflexivity).
    rewrite kept_all.
    + rewrite <- app_assoc. reflexivity.
    + intros x Hx. rewrite (acquired_visit run_no _ _ _ _ Ht).
      intros [<-|[]]. apply Hn2, in_or_app. left. exact Hx.
  - destruct (NoDup_split passed (rest ++ moved) a Hnd) as (Hn1 & Hn2 & Hnd').
    assert (Hacq : acquired (visit run_no a tevs ++ evs) = a :: acquired evs)
      by (rewrite acquired_app, (acquired_visit run_no _ _ _ _ Ht); reflexivity).
    destruct Hp as (Hl1 & _).
    assert (Hl1' : f3fs_list s1 = passed ++ rest ++ moved ++ [a]).
    { rewrite Hl1, Hl. cbn [app]. rewrite list_move_tail_at by assumption.
      rewrite <- app_assoc. reflexivity. }
    rewrite (IH passed (moved ++ [a]) Hl1').
    + rewrite kept_cons_in by (rewrite Hacq; left; reflexivity).
      rewrite (@kept_more a _ evs rest Hacq)
        by (intros Hin; apply Hn2, in_or_app; left; exact Hin).
      rewrite Hacq, <- app_assoc. reflexivity.
    + rewrite 2 app_assoc. apply NoDup_to_tail.
      * rewrite <- app_assoc. exact Hnd'.
      * rewrite <- app_assoc, in_app_iff. intros [Hin|Hin]; contradiction.
Qed.

Lemma visit_split (run_no : Z) (a : nat) (tevs post : list event) :
  visit run_no a tevs ++ post =
  (EvTryLock a true :: EvStamp a run_no :: tevs)
    ++ EvListMoveTail a true :: EvMutexUnlock a :: post.
Proof. unfold visit. cbn. rewrite <- app_assoc. reflexivity. Qed.

Lemma no_unlock_before_move (run_no nr freed : Z) (a x : nat) c c' freed' tevs :
  tiers nr freed a c = (c', freed', tevs) ->
  ~ In (EvMutexUnlock x) (EvTryLock a true :: EvStamp a run_no :: tevs).
Proof.
  intros Ht. apply tiers_events in Ht. intros [H|[H|H]]; try discriminate.
  rewrite Forall_forall in Ht. destruct (Ht _ H) as (k & n & r & E). discriminate.
Qed.

(** The node of every acquired instance is moved to the tail, with the list
    lock held, right before its gate is released, and its gate is not
    released before that. *)
Lemma Walk_move_then_unlock (run_no nr : Z) rest freed s evs freed' s' :
  Walk run_no nr rest freed s evs freed' s' ->
  NoDup rest ->
  forall x, In x (acquired evs) ->
    exists pre post,
      evs = pre ++ EvListMoveTail x true :: EvMutexUnlock x :: post /\
      ~ In (EvMutexUnlock x) pre.
Proof.
  induction 1 as [freed s|a rest freed s Hc|a rest freed s evs freed' s' Hc Hb HW IH
                  |a rest freed s c freed1 tevs s1 Hc Hb Ht Hp Hle
                  |a rest freed s c freed1 tevs s1 evs freed' s' Hc Hb Ht Hp Hlt HW IH];
    intros Hnd x Hx.
  - destruct Hx.
  - destruct Hx.
  - cbn [acquired] in Hx. inversion Hnd as [|? ? Hna Hnd']; subst.
    destruct (IH Hnd' x Hx) as (pre & post & -> & Hpre).
    exists (EvTryLock a false :: pre), post. split; [reflexivity|].
    intros [H|H]; [discriminate|contradiction].
  - rewrite (acquired_visit run_no _ _ _ _ Ht) in Hx. destruct Hx as [<-|[]].
    exists (EvTryLock a true :: EvStamp a run_no :: tevs), [].
    split; [rewrite <- (app_nil_r (visit _ _ _)); apply visit_split|].
    exact (@no_unlock_before_move run_no nr freed a a _ _ _ _ Ht).
  - rewrite acquired_app, (acquired_visit run_no _ _ _ _ Ht) in Hx.
    inversion Hnd as [|? ? Hna Hnd']; subst.
    destruct Hx as [<-|Hx].
    + exists (EvTryLock a true :: EvStamp a run_no :: tevs), evs.
      split; [apply visit_split|].
      exact (@no_unlock_before_move run_no nr freed a a _ _ _ _ Ht).
    + destruct (IH Hnd' x Hx) as (pre & post & -> & Hpre).
      exists (visit run_no a tevs ++ pre), post.
      split; [rewrite <- app_assoc; reflexivity|].
      assert (Hxa : x <> a)
        by (intros ->; apply Hna; exact (Walk_acquired_in HW _ Hx)).
      rewrite <- (app_nil_r (visit run_no a tevs)), visit_split.
      rewrite <- !app_assoc. rewrite in_app_iff.
      intros [H|H].
      * exact (@no_unlock_before_move run_no nr freed a x _ _ _ _ Ht H).
      * cbn in H. destruct H as [H|[H|H]]; try discriminate.
        -- injection H as ->. contradiction.
        -- contradiction.
Qed.

(** *** Scans for one object, one after the other *)

(** Caches that give up an object free the one object a scan asks for. *)
Lemma tiers_one (a : nat) (c c' : f3fs_caches) (freed' : Z) (tevs : list event) :
  shrinkers_bounded ->
  yields_one c ->
  tiers 1 0 a c = (c', freed', tevs) ->
  1 <= freed'.
Proof.
  intros Hb Hy Ht. unfold tiers in Ht. unfold yields_one in Hy.
  change (Z.shiftr 1 1) with 0 in Ht.
  pose proof (Hb ExtentCache c 0) as B1. cbn [shrinker] in B1.
  destruct (extent_tree_shrinker c 0) as [c1 r1]. cbn [snd Z.add] in B1, Ht.
  unfold tier in Ht. rewrite !(@u64_id r1) in Ht by lia.
  destruct (Z.ltb_spec r1 1) as [L1|L1].
  - assert (r1 = 0) by lia. subst r1.
    change (Width.u64 (1 - 0)) with 1 in Ht.
    pose proof (Hb NatCache c1 1) as B2. cbn [shrinker] in B2, Ht.
    destruct (nats_shrinker c1 1) as [c2 r2]. cbn [snd Z.add] in B2, Ht.
    rewrite !(@u64_id r2) in Ht by lia.
    destruct (Z.ltb_spec r2 1) as [L2|L2].
    + assert (r2 = 0) by lia. subst r2.
      change (Width.u64 (1 - 0)) with 1 in Ht.
      pose proof (Hb FreeNidCache c2 1) as B3. cbn [shrinker] in B3, Ht.
      destruct (nids_shrinker c2 1) as [c3 r3]. cbn [snd Z.add] in B3, Hy, Ht.
      rewrite !(@u64_id r3) in Ht by lia.
      injection Ht as <- <- <-. lia.
    + injection Ht as <- <- <-. exact L2.
  - destruct (Z.ltb_spec r1 1) as [L2|L2]; [lia|].
    injection Ht as <- <- <-. exact L1.
Qed.

(** A scan for one object on a list whose first instance is free, unmarked
    and gives up an object: that instance alone is processed and goes to the
    tail. *)
Lemma scan_one_head (s : kstate) (a : nat) (rest : list nat) :
  f3fs_list s = a :: rest ->
  NoDup (f3fs_list s) ->
  shrinkers_bounded ->
  umount_mutex (mem s a) = false ->
  sb_shrinker_run_no (mem s a) <> next_run_no (shrinker_run_no s) ->
  yields_one (caches (mem s a)) ->
  exists freed s' evs,
    f3fs_shrink_scan 1 s = Some (freed, s') /\
    trace s' = trace s ++ evs /\
    acquired evs = [a] /\
    f3fs_list s' = rest ++ [a] /\
    shrinker_run_no s' = next_run_no (shrinker_run_no s) /\
    (forall x, x <> a -> mem s' x = mem s x).
Proof.
  intros Hl Hnd Hb Hg Hm Hy.
  destruct (@scan_total 1 s Hnd) as (evs & freed & s1 & HW & Hrun).
  rewrite Hl in HW.
  destruct (Walk_at_free HW Hm Hg) as (c & freed1 & tevs & s2 & Ht & Hp & Hcase).
  cbn [mem scan_start] in Ht.
  pose proof (@tiers_one a _ _ _ _ Hb Hy Ht) as H1.
  destruct Hcase as [(_ & -> & -> & ->)|(Hlt & _)]; [|lia].
  exists freed1, (snd (spin_unlock s2)), (visit (next_run_no (shrinker_run_no s)) a tevs).
  destruct Hp as (Hl2 & _ & Hr & _ & Ho & Htr).
  cbn [f3fs_list shrinker_run_no mem trace scan_start] in Hl2, Hr, Ho, Htr.
  split; [exact Hrun|].
  cbn [trace mem f3fs_list shrinker_run_no snd spin_unlock set_list_lock].
  split; [exact Htr|].
  split; [exact (acquired_visit _ _ _ _ _ Ht)|].
  split; [|split; assumption].
  rewrite Hl2, Hl. rewrite Hl in Hnd. inversion Hnd as [|? ? Hna _]; subst.
  apply (list_move_tail_at [] rest); [intros []|exact Hna].
Qed.

(** *** Run ids follow each other in a cycle of 2^32 - 1 values *)

Lemma next_run_no_cycle (c : Z) :
  0 <= c <= 2 ^ 32 - 1 -> next_run_no c = c mod (2 ^ 32 - 1) + 1.
Proof.
  intros Hc. destruct (Z.eq_dec c (2 ^ 32 - 1)) as [->|Hne]; [reflexivity|].
  unfold next_run_no. cbv zeta. rewrite u32_id by lia.
  destruct (Z.eqb_spec (c + 1) 0) as [E|_]; [lia|].
  rewrite Z.mod_small by lia. reflexivity.
Qed.

Lemma run_id_after_cycle (j : nat) (c : Z) :
  0 <= c <= 2 ^ 32 - 1 ->
  run_id_after (S j) c = (c + Z.of_nat j) mod (2 ^ 32 - 1) + 1.
Proof.
  intros Hc. induction j as [|j IH].
  - change (run_id_after 1 c) with (next_run_no c).
    rewrite Z.add_0_r. apply next_run_no_cycle. exact Hc.
  - change (run_id_after (S (S j)) c) with (next_run_no (run_id_after (S j) c)).
    rewrite IH.
    pose proof (Z.mod_pos_bound (c + Z.of_nat j) (2 ^ 32 - 1)) as Hr.
    rewrite next_run_no_cycle by lia.
    rewrite Zplus_mod_idemp_l. do 2 f_equal. lia.
Qed.

Lemma run_id_after_add (i j : nat) (c : Z) :
  run_id_after (i + j) c = run_id_after i (run_id_after j c).
Proof. unfold run_id_after. apply Nat.iter_add. Qed.

Lemma run_id_after_nonzero (j : nat) (c : Z) : run_id_after (S j) c <> 0.
Proof.
  change (run_id_after (S j) c) with (next_run_no (run_id_after j c)).
  apply next_run_no_nonzero.
Qed.

(** A run id is not drawn again before 2^32 - 1 scans have passed. *)
Lemma run_id_after_away (t : nat) (m : Z) :
  1 <= m <= 2 ^ 32 - 1 ->
  Z.of_nat t + 1 < 2 ^ 32 - 1 ->
  run_id_after (S t) m <> m.
Proof.
  intros Hm Ht. rewrite run_id_after_cycle by lia. intros E.
  pose proof (Z.div_mod (m + Z.of_nat t) (2 ^ 32 - 1)) as Hd.
  pose proof (Z.mod_pos_bound (m + Z.of_nat t) (2 ^ 32 - 1)) as Hr.
  set (q := (m + Z.of_nat t) / (2 ^ 32 - 1)) in *.
  set (r := (m + Z.of_nat t) mod (2 ^ 32 - 1)) in *.
  lia.
Qed.

(** A marker that is zero or at most [B] scans old is not the run id of
    one of the scans to come, as long as the cycle is not run through. *)
Lemma marker_not_drawn (mk c : Z) (B t : nat) :
  mk = 0 \/
  (exists j : nat,
      (j <= B)%nat /\ 1 <= mk <= 2 ^ 32 - 1 /\ run_id_after j mk = c) ->
  Z.of_nat (S t + B) < 2 ^ 32 - 1 ->
  mk <> run_id_after (S t) c.
Proof.
  intros [->|(j & Hj & Hr & <-)] Ht.
  - intros E. symmetry in E. exact (@run_id_after_nonzero _ _ E).
  - rewrite <- run_id_after_add. cbn [plus]. apply not_eq_sym.
    apply run_id_after_away; [exact Hr|lia].
Qed.

(** The first [k] scans for one object on a list whose instances are free,
    give up an object each and do not carry the run id of their scan. *)
Lemma scan_repeat_round (k : nat) :
  forall (rest moved : list nat) (s : kstate),
    (k <= length rest)%nat ->
    f3fs_list s = rest ++ moved ->
    NoDup (f3fs_list s) ->
    shrinkers_bounded ->
    (forall a, In a rest -> umount_mutex (mem s a) = false) ->
    (forall a, In a rest -> yields_one (caches (mem s a))) ->
    (forall i a, nth_error rest i = Some a ->
                 sb_shrinker_run_no (mem s a)
                 <> run_id_after (S i) (shrinker_run_no s)) ->
    exists s' evs,
      scan_repeat k 1 s = Some s' /\
      trace s' = trace s ++ evs /\
      acquired evs = firstn k rest.
Proof.
  induction k as [|k IH]; intros rest moved s Hk Hl Hnd Hb Hg Hy Hm.
  - exists s, []. cbn. rewrite app_nil_r. auto.
  - destruct rest as [|a rest]; [inversion Hk|]. cbn [length] in Hk.
    apply Nat.succ_le_mono in Hk.
    destruct (@scan_one_head s a (rest ++ moved))
      as (freed & s1 & evs1 & Hrun & Htr & Hacq & Hl1 & Hr1 & Ho);
      try assumption.
    + apply Hg. left. reflexivity.
    + exact (Hm 0%nat a eq_refl).
    + apply Hy. left. reflexivity.
    + rewrite Hl in Hnd. cbn [app] in Hnd.
      inversion Hnd as [|? ? Hna Hnd']; subst.
      assert (Hne : forall x, In x rest -> x <> a)
        by (intros x Hx ->; apply Hna, in_or_app; left; exact Hx).
      destruct (IH rest (moved ++ [a]) s1) as (s' & evs & Hrep & Htr' & Hacq');
        try assumption.
      * rewrite Hl1, <- app_assoc. reflexivity.
      * rewrite Hl1. apply NoDup_to_tail; assumption.
      * intros x Hx. rewrite Ho by (apply Hne; exact Hx). apply Hg. right. exact Hx.
      * intros x Hx. rewrite Ho by (apply Hne; exact Hx). apply Hy. right. exact Hx.
      * intros i x Hx.
        rewrite Ho by (apply Hne; exact (nth_error_In _ _ Hx)).
        rewrite Hr1.
        change (next_run_no (shrinker_run_no s))
          with (run_id_after 1 (shrinker_run_no s)).
        rewrite <- run_id_after_add, Nat.add_1_r. exact (Hm (S i) x Hx).
      * exists s', (evs1 ++ evs). cbn [scan_repeat]. rewrite Hrun.
        split; [exact Hrep|]. split.
        -- rewrite Htr', Htr, <- app_assoc. reflexivity.
        -- rewrite acquired_app, Hacq, Hacq'. reflexivity.
Qed.

Lemma in_first_nodes (k : nat) (l : list nat) (x : nat) :
  In x (firstn k l) -> In x l.
Proof.
  revert l. induction k as [|k IH]; intros [|y l] Hin; try destruct Hin.
  - left. assumption.
  - right. apply IH. assumption.
Qed.

Lemma NoDup_first_nodes (k : nat) (l : list nat) :
  NoDup l -> NoDup (firstn k l).
Proof.
  intros Hnd. revert k.
  induction Hnd as [|x l Hx Hl IH]; intros [|k]; cbn; try constructor.
  - intros Hin. apply Hx. exact (in_first_nodes _ _ _ Hin).
  - apply IH.
Qed.

Lemma scan_rotation (s : kstate) :
  NoDup (f3fs_list s) ->
  shrinkers_bounded ->
  (forall a, In a (f3fs_list s) -> umount_mutex (mem s a) = false) ->
  (forall a, In a (f3fs_list s) -> yields_one (caches (mem s a))) ->
  rotation_ready s ->
  forall k, (k <= length (f3fs_list s))%nat ->
    exists s' evs,
      scan_repeat k 1 s = Some s' /\
      trace s' = trace s ++ evs /\
      acquired evs = firstn k (f3fs_list s) /\
      NoDup (acquired evs).
Proof.
  intros Hnd Hb Hg Hy Hm k Hk.
  destruct (@scan_repeat_round k (f3fs_list s) [] s)
    as (s' & evs & Hrep & Htr & Hacq); try assumption.
  - rewrite app_nil_r. reflexivity.
  - exists s', evs. repeat split; try assumption.
    rewrite Hacq. apply NoDup_first_nodes. exact Hnd.
Qed.

(** *** What a walk leaves as it was *)

Lemma Walk_gates (run_no nr : Z) rest freed s evs freed' s' :
  Walk run_no nr rest freed s evs freed' s' ->
  forall x, umount_mutex (mem s' x) = umount_mutex (mem s x).
Proof.
  induction 1 as [freed s|a rest freed s Hc|a rest freed s evs freed' s' Hc Hb HW IH
                  |a rest freed s c freed1 tevs s1 Hc Hb Ht Hp Hle
                  |a rest freed s c freed1 tevs s1 evs freed' s' Hc Hb Ht Hp Hlt HW IH];
    intros x; try reflexivity.
  - rewrite IH. reflexivity.
  - destruct Hp as (_ & _ & _ & Ha & Ho & _).
    destruct (Nat.eq_dec x a) as [->|Hne]; [rewrite Ha, Hb; reflexivity|].
    rewrite Ho by exact Hne. reflexivity.
  - rewrite IH. destruct Hp as (_ & _ & _ & Ha & Ho & _).
    destruct (Nat.eq_dec x a) as [->|Hne]; [rewrite Ha, Hb; reflexivity|].
    rewrite Ho by exact Hne. reflexivity.
Qed.

Lemma Walk_untouched (run_no nr : Z) rest freed s evs freed' s' :
  Walk run_no nr rest freed s evs freed' s' ->
  forall x, ~ In x (acquired evs) -> mem s' x = mem s x.
Proof.
  induction 1 as [freed s|a rest freed s Hc|a rest freed s evs freed' s' Hc Hb HW IH
                  |a rest freed s c freed1 tevs s1 Hc Hb Ht Hp Hle
                  |a rest freed s c freed1 tevs s1 evs freed' s' Hc Hb Ht Hp Hlt HW IH];
    intros x Hx; try reflexivity.
  - rewrite IH by exact Hx. reflexivity.
  - rewrite (acquired_visit run_no _ _ _ _ Ht) in Hx.
    destruct Hp as (_ & _ & _ & _ & Ho & _). apply Ho.
    intros ->. apply Hx. left. reflexivity.
  - rewrite acquired_app, (acquired_visit run_no _ _ _ _ Ht) in Hx.
    rewrite IH by (intros Hin; apply Hx; right; exact Hin).
    destruct Hp as (_ & _ & _ & _ & Ho & _). apply Ho.
    intros ->. apply Hx. left. reflexivity.
Qed.

(** *** Markers on a registry whose gates are never held *)

Lemma stamped_lately_split (m : nat -> f3fs_sb_info) (c : Z) (extra : nat)
      (pre : list nat) (a : nat) (post : list nat) :
  stamped_lately m c extra (pre ++ a :: post) ->
  sb_shrinker_run_no (m a) = 0 \/
  exists j : nat,
    (j <= length post + extra)%nat /\
    1 <= sb_shrinker_run_no (m a) <= 2 ^ 32 - 1 /\
    run_id_after j (sb_shrinker_run_no (m a)) = c.
Proof.
  induction pre as [|x pre IH]; cbn [app stamped_lately]; intros (H & Hs).
  - exact H.
  - exact (IH Hs).
Qed.

Lemma stamped_lately_app (m : nat -> f3fs_sb_info) (c : Z) (extra : nat)
      (l1 l2 : list nat) :
  stamped_lately m c extra (l1 ++ l2) <->
  stamped_lately m c (extra + length l2) l1 /\ stamped_lately m c extra l2.
Proof.
  induction l1 as [|a l1 IH]; cbn [app stamped_lately]; [tauto|].
  rewrite IH, length_app.
  replace (length l1 + length l2 + extra)%nat
    with (length l1 + (extra + length l2))%nat by lia.
  tauto.
Qed.

Lemma stamped_lately_fresh (m : nat -> f3fs_sb_info) (c : Z) (extra : nat)
      (l : list nat) :
  (forall a, In a l -> sb_shrinker_run_no (m a) = 0) ->
  stamped_lately m c extra l.
Proof.
  induction l as [|a l IH]; intros H; cbn [stamped_lately]; [exact I|].
  split; [left; apply H; left; reflexivity|].
  apply IH. intros x Hx. apply H. right. exact Hx.
Qed.

Lemma stamped_lately_now (m : nat -> f3fs_sb_info) (c : Z) (extra : nat)
      (l : list nat) :
  1 <= c <= 2 ^ 32 - 1 ->
  (forall a, In a l -> sb_shrinker_run_no (m a) = c) ->
  stamped_lately m c extra l.
Proof.
  intros Hc. induction l as [|a l IH]; intros H; cbn [stamped_lately]; [exact I|].
  split.
  - right. exists 0%nat. rewrite (H a (or_introl eq_refl)).
    split; [lia|]. split; [exact Hc|reflexivity].
  - apply IH. intros x Hx. apply H. right. exact Hx.
Qed.

(** One scan later the markers left alone are one scan older; they stay
    recent when a node has gone behind them. *)
Lemma stamped_lately_older (m m' : nat -> f3fs_sb_info) (c : Z)
      (extra extra' : nat) (l : list nat) :
  (extra < extra')%nat ->
  (forall a, In a l -> sb_shrinker_run_no (m' a) = sb_shrinker_run_no (m a)) ->
  stamped_lately m c extra l ->
  stamped_lately m' (next_run_no c) extra' l.
Proof.
  intros He. induction l as [|a l IH]; intros Hm; cbn [stamped_lately];
    [intros _; exact I|].
  intros ([H0|(j & Hj & Hr & Hc)] & Hs);
    (split; [|apply IH; [intros x Hx; apply Hm; right; exact Hx|exact Hs]]);
    rewrite (Hm a (or_introl eq_refl)).
  - left. exact H0.
  - right. exists (S j). split; [lia|]. split; [exact Hr|].
    change (run_id_after (S j) (sb_shrinker_run_no (m a)))
      with (next_run_no (run_id_after j (sb_shrinker_run_no (m a)))).
    rewrite Hc. reflexivity.
Qed.

Lemma stamped_lately_ready (s : kstate) :
  0 <= shrinker_run_no s <= 2 ^ 32 - 1 ->
  Z.of_nat (length (f3fs_list s)) < 2 ^ 32 - 1 ->
  stamped_lately (mem s) (shrinker_run_no s) 0 (f3fs_list s) ->
  rotation_ready s.
Proof.
  intros Hc Hn Hs k a Hk.
  destruct (nth_error_split _ _ Hk) as (pre & post & Hl & Hlen).
  rewrite Hl in Hs, Hn. apply stamped_lately_split in Hs.
  apply (@marker_not_drawn _ _ (length post + 0) k); [exact Hs|].
  rewrite length_app in Hn. cbn [length] in Hn. lia.
Qed.

Lemma NoDup_apart (l1 l2 : list nat) (x : nat) :
  NoDup (l1 ++ l2) -> In x l1 -> In x l2 -> False.
Proof.
  induction l1 as [|a l1 IH]; cbn [app]; intros Hnd H1 H2; [destruct H1|].
  inversion Hnd as [|? ? Hna Hnd']; subst.
  destruct H1 as [->|H1].
  - apply Hna, in_or_app. right. exact H2.
  - exact (IH Hnd' H1 H2).
Qed.

Lemma kept_none (evs : list event) (l : list nat) :
  (forall x, In x l -> In x (acquired evs)) -> kept evs l = [].
Proof.
  induction l as [|a l IH]; intros H; [reflexivity|].
  rewrite kept_cons_in by (apply H; left; reflexivity).
  apply IH. intros x Hx. apply H. right. exact Hx.
Qed.

(** When a scan processes the first [p] nodes, the others are kept. *)
Lemma kept_rest (evs : list event) (l : list nat) (p : nat) :
  NoDup l -> acquired evs = firstn p l -> kept evs l = skipn p l.
Proof.
  intros Hnd Ha. rewrite <- (firstn_skipn p l) in Hnd.
  rewrite <- (firstn_skipn p l) at 1.
  unfold kept. rewrite filter_app. fold (kept evs (firstn p l)).
  fold (kept evs (skipn p l)).
  rewrite kept_none by (intros x Hx; rewrite Ha; exact Hx).
  rewrite kept_all; [reflexivity|].
  intros x Hx Hin. rewrite Ha in Hin. exact (@NoDup_apart _ _ _ Hnd Hin Hx).
Qed.

(** On nodes that are all free and do not carry the run id, the walk
    processes the nodes from the first on, one at least, and stamps them. *)
Lemma Walk_free_prefix (run_no nr : Z) rest freed s evs freed' s' :
  Walk run_no nr rest freed s evs freed' s' ->
  NoDup rest ->
  (forall x, In x rest -> umount_mutex (mem s x) = false) ->
  (forall x, In x rest -> sb_shrinker_run_no (mem s x) <> run_no) ->
  exists p : nat,
    (rest <> [] -> (1 <= p)%nat) /\
    acquired evs = firstn p rest /\
    (forall x, In x (firstn p rest) -> sb_shrinker_run_no (mem s' x) = run_no).
Proof.
  induction 1 as [freed s|a rest freed s Hc|a rest freed s evs freed' s' Hc Hb HW IH
                  |a rest freed s c freed1 tevs s1 Hc Hb Ht Hp Hle
                  |a rest freed s c freed1 tevs s1 evs freed' s' Hc Hb Ht Hp Hlt HW IH];
    intros Hnd Hfree Hfresh.
  - exists 0%nat. split; [congruence|]. split; [reflexivity|]. intros x [].
  - exfalso. exact (Hfresh a (or_introl eq_refl) Hc).
  - rewrite (Hfree a (or_introl eq_refl)) in Hb. discriminate Hb.
  - exists 1%nat. split; [intros _; apply Nat.le_refl|].
    split; [exact (acquired_visit _ _ _ _ _ Ht)|].
    destruct Hp as (_ & _ & _ & Ha & _).
    cbn [firstn]. intros x [<-|[]]. rewrite Ha. reflexivity.
  - inversion Hnd as [|? ? Hna Hnd']; subst.
    destruct Hp as (_ & _ & _ & Ha & Ho & _).
    assert (Hne : forall x, In x rest -> x <> a) by (intros x Hx ->; contradiction).
    destruct (IH Hnd') as (p & _ & Hacq & Hst).
    { intros x Hx. rewrite (Ho x (Hne x Hx)). apply Hfree. right. exact Hx. }
    { intros x Hx. rewrite (Ho x (Hne x Hx)). apply Hfresh. right. exact Hx. }
    exists (S p). split; [intros _; lia|]. split.
    + rewrite acquired_app, (acquired_visit run_no _ _ _ _ Ht), Hacq. reflexivity.
    + cbn [firstn]. intros x [<-|Hx]; [|exact (Hst x Hx)].
      apply (Walk_marker_kept HW). rewrite Ha. reflexivity.
Qed.

(** A scan on a registry of free instances with recent markers leaves the
    same instances, free, with recent markers. *)
Lemma scan_stamps_lately (nr : Z) (s : kstate) :
  NoDup (f3fs_list s) ->
  (forall a, In a (f3fs_list s) -> umount_mutex (mem s a) = false) ->
  0 <= shrinker_run_no s <= 2 ^ 32 - 1 ->
  Z.of_nat (length (f3fs_list s)) < 2 ^ 32 - 1 ->
  stamped_lately (mem s) (shrinker_run_no s) 0 (f3fs_list s) ->
  exists freed s',
    f3fs_shrink_scan nr s = Some (freed, s') /\
    (forall a, In a (f3fs_list s') <-> In a (f3fs_list s)) /\
    NoDup (f3fs_list s') /\
    length (f3fs_list s') = length (f3fs_list s) /\
    (forall a, umount_mutex (mem s' a) = umount_mutex (mem s a)) /\
    0 <= shrinker_run_no s' <= 2 ^ 32 - 1 /\
    stamped_lately (mem s') (shrinker_run_no s') 0 (f3fs_list s').
Proof.
  intros Hnd Hg Hc Hn Hs.
  destruct (@scan_total nr s Hnd) as (evs & freed & s1 & HW & Hrun).
  exists freed, (snd (spin_unlock s1)). split; [exact Hrun|].
  cbn [f3fs_list mem shrinker_run_no snd spin_unlock set_list_lock].
  set (l := f3fs_list s) in *.
  set (r := next_run_no (shrinker_run_no s)) in *.
  assert (Hr : 1 <= r <= 2 ^ 32 - 1).
  { subst r. rewrite next_run_no_cycle by exact Hc.
    pose proof (Z.mod_pos_bound (shrinker_run_no s) (2 ^ 32 - 1)). lia. }
  assert (Hfresh : forall x, In x l -> sb_shrinker_run_no (mem s x) <> r).
  { intros x Hx. destruct (in_split _ _ Hx) as (pre & post & Hl).
    rewrite Hl in Hs, Hn. apply stamped_lately_split in Hs.
    apply (@marker_not_drawn _ _ (length post + 0) 0); [exact Hs|].
    rewrite length_app in Hn. cbn [length] in Hn. lia. }
  destruct (Walk_free_prefix HW Hnd) as (p & Hp & Hacq & Hst);
    [exact Hg|exact Hfresh|].
  assert (Hl1 : f3fs_list s1 = skipn p l ++ firstn p l).
  { rewrite (Walk_list HW [] []).
    - cbn [app]. rewrite (kept_rest evs p Hnd Hacq), Hacq. reflexivity.
    - cbn. rewrite app_nil_r. reflexivity.
    - cbn. rewrite app_nil_r. exact Hnd. }
  assert (Hin : forall a, In a (f3fs_list s1) <-> In a l).
  { intros a. rewrite Hl1, in_app_iff.
    rewrite <- (firstn_skipn p l) at 3. rewrite in_app_iff. tauto. }
  split; [exact Hin|]. split; [exact (Walk_NoDup HW Hnd)|].
  split.
  { rewrite Hl1, length_app, Nat.add_comm, <- length_app, firstn_skipn.
    reflexivity. }
  split; [intros a; rewrite (Walk_gates HW); reflexivity|].
  rewrite (Walk_run_no HW). cbn [shrinker_run_no scan_start]. fold r.
  split; [lia|].
  rewrite Hl1. apply stamped_lately_app. split.
  - destruct l as [|a0 l0] eqn:El; [rewrite skipn_nil; exact I|].
    assert (H1 : (1 <= p)%nat) by (apply Hp; discriminate).
    rewrite <- El in *.
    destruct (le_lt_dec (length l) p) as [Hall|Hsome].
    { rewrite skipn_all2 by exact Hall. exact I. }
    apply (@stamped_lately_older (mem s) (mem s1) (shrinker_run_no s) 0).
    + rewrite length_firstn. lia.
    + intros x Hx. rewrite (Walk_untouched HW); [reflexivity|].
      rewrite Hacq. intros Hin'.
      rewrite <- (firstn_skipn p l) in Hnd.
      exact (@NoDup_apart _ _ _ Hnd Hin' Hx).
    + rewrite <- (firstn_skipn p l) in Hs.
      apply stamped_lately_app in Hs. exact (proj2 Hs).
  - apply stamped_lately_now; [exact Hr|exact Hst].
Qed.

(** So does every history of scans. *)
Lemma scan_history_stamps_lately (targets : list Z) :
  forall s : kstate,
    NoDup (f3fs_list s) ->
    (forall a, In a (f3fs_list s) -> umount_mutex (mem s a) = false) ->
    0 <= shrinker_run_no s <= 2 ^ 32 - 1 ->
    Z.of_nat (length (f3fs_list s)) < 2 ^ 32 - 1 ->
    stamped_lately (mem s) (shrinker_run_no s) 0 (f3fs_list s) ->
    exists s1,
      scan_history targets s = Some s1 /\
      (forall a, In a (f3fs_list s1) <-> In a (f3fs_list s)) /\
      NoDup (f3fs_list s1) /\
      length (f3fs_list s1) = length (f3fs_list s) /\
      (forall a, umount_mutex (mem s1 a) = umount_mutex (mem s a)) /\
      0 <= shrinker_run_no s1 <= 2 ^ 32 - 1 /\
      stamped_lately (mem s1) (shrinker_run_no s1) 0 (f3fs_list s1).
Proof.
  induction targets as [|nr targets IH]; intros s Hnd Hg Hc Hn Hs.
  - exists s. cbn [scan_history]. repeat split; try assumption; tauto.
  - destruct (@scan_stamps_lately nr s Hnd Hg Hc Hn Hs)
      as (freed & s' & Hrun & Hin & Hnd' & Hlen & Hg' & Hc' & Hs').
    destruct (IH s') as (s1 & Hh & Hin1 & Hnd1 & Hlen1 & Hg1 & Hc1 & Hs1);
      try assumption.
    + intros a Ha. rewrite Hg'. apply Hg, Hin. exact Ha.
    + rewrite Hlen. exact Hn.
    + exists s1. cbn [scan_history]. rewrite Hrun.
      split; [exact Hh|]. split; [intros a; rewrite Hin1; apply Hin|].
      split; [exact Hnd1|]. split; [congruence|].
      split; [intros a; rewrite Hg1; apply Hg'|].
      split; assumption.
Qed.

(** C3: a scan moves the node of every instance it processes to the tail,
    with the list lock held, right before it releases the gate of the
    instance, so that afterwards the unprocessed nodes are in their old
    order and the processed ones follow in the order of processing.  Hence,
    on a list of instances whose gates are free and that each give up an
    object when shrunk, and none of which carries the run id of the scan
    that is to process it, the first k scans for one object process the
    first k instances of the list, one each: all of them after as many scans
    as there are instances, none of them twice.  No instance carries such a
    run id on a registry of fewer than 2^32 - 1 instances whose gates are
    never held: from instances not yet stamped and whatever the run counter
    holds, after scans for whatever targets, every marker is zero or the
    run id of one of the last scans, and the scans for one object then go
    round as said. *)
Theorem scan_round_robin (s : kstate) :
  NoDup (f3fs_list s) ->
  (forall nr, exists freed s' evs,
      f3fs_shrink_scan nr s = Some (freed, s') /\
      trace s' = trace s ++ evs /\
      f3fs_list s' = kept evs (f3fs_list s) ++ acquired evs /\
      forall a, In a (acquired evs) ->
        exists pre post,
          evs = pre ++ EvListMoveTail a true :: EvMutexUnlock a :: post /\
          ~ In (EvMutexUnlock a) pre) /\
  (shrinkers_bounded ->
   (forall a, In a (f3fs_list s) -> umount_mutex (mem s a) = false) ->
   (forall a, In a (f3fs_list s) -> yields_one (caches (mem s a))) ->
   rotation_ready s ->
   forall k, (k <= length (f3fs_list s))%nat ->
     exists s' evs,
       scan_repeat k 1 s = Some s' /\
       trace s' = trace s ++ evs /\
       acquired evs = firstn k (f3fs_list s) /\
       NoDup (acquired evs)) /\
  ((forall a, In a (f3fs_list s) -> umount_mutex (mem s a) = false) ->
   (forall a, In a (f3fs_list s) -> sb_shrinker_run_no (mem s a) = 0) ->
   0 <= shrinker_run_no s < 2 ^ 32 ->
   Z.of_nat (length (f3fs_list s)) < 2 ^ 32 - 1 ->
   forall targets, exists s1,
     scan_history targets s = Some s1 /\
     (forall a, In a (f3fs_list s1) <-> In a (f3fs_list s)) /\
     NoDup (f3fs_list s1) /\
     (forall a, umount_mutex (mem s1 a) = umount_mutex (mem s a)) /\
     rotation_ready s1 /\
     (shrinkers_bounded ->
      (forall a, In a (f3fs_list s1) -> yields_one (caches (mem s1 a))) ->
      forall k, (k <= length (f3fs_list s1))%nat ->
        exists s' evs,
          scan_repeat k 1 s1 = Some s' /\
          trace s' = trace s1 ++ evs /\
          acquired evs = firstn k (f3fs_list s1) /\
          NoDup (acquired evs))).
Proof.
  intros Hnd. split; [|split].
  - intros nr.
    destruct (@scan_total nr s Hnd) as (evs & freed & s1 & HW & Hrun).
    exists freed, (snd (spin_unlock s1)), evs.
    split; [exact Hrun|]. split; [cbn; exact (Walk_trace HW)|]. split.
    + cbn [f3fs_list snd spin_unlock set_list_lock].
      rewrite (Walk_list HW [] []).
      * reflexivity.
      * cbn. rewrite app_nil_r. reflexivity.
      * cbn. rewrite app_nil_r. exact Hnd.
    + exact (Walk_move_then_unlock HW Hnd).
  - intros Hb Hg Hy Hm k Hk. apply scan_rotation; assumption.
  - intros Hg H0 Hc Hn targets.
    destruct (@scan_history_stamps_lately targets s Hnd Hg)
      as (s1 & Hh & Hin & Hnd1 & Hlen & Hg1 & Hc1 & Hs1);
      [lia|exact Hn|apply stamped_lately_fresh; exact H0|].
    assert (Hready : rotation_ready s1).
    { apply stamped_lately_ready; [exact Hc1|rewrite Hlen; exact Hn|exact Hs1]. }
    exists s1. split; [exact Hh|]. split; [exact Hin|]. split; [exact Hnd1|].
    split; [exact Hg1|]. split; [exact Hready|].
    intros Hb Hy k Hk. apply scan_rotation; try assumption.
    intros a Ha. rewrite Hg1. apply Hg, Hin. exact Ha.
Qed.

(** ** Further properties of the shrinker *)

(** *** Counting twice *)

Lemma store_pointwise (a : nat) f (m1 m2 : nat -> f3fs_sb_info) :
  (forall x, m1 x = m2 x) -> forall x, store a f m1 x = store a f m2 x.
Proof. intros H x. unfold store. rewrite H. reflexivity. Qed.

(** The count of a walk depends on the instances only, not on the rest of
    the state. *)
Lemma count_walk_value_ext (l : list nat) :
  forall (count : Z) (s1 s2 : kstate),
    (forall x, mem s1 x = mem s2 x) ->
    fst (count_walk l count s1) = fst (count_walk l count s2).
Proof.
  induction l as [|a l IH]; intros count s1 s2 Hm; [reflexivity|].
  destruct (umount_mutex (mem s1 a)) eqn:Hg.
  - rewrite (@count_walk_busy a l count s1 Hg).
    rewrite Hm in Hg. rewrite (@count_walk_busy a l count s2 Hg).
    apply IH. exact Hm.
  - rewrite (@count_walk_free a l count s1 Hg).
    pose proof Hg as Hg2. rewrite Hm in Hg2.
    rewrite (@count_walk_free a l count s2 Hg2).
    rewrite (Hm a). apply IH. cbn [mem].
    apply store_pointwise, store_pointwise. exact Hm.
Qed.

(** X1: a second [f3fs_shrink_count] right after a first returns the same
    count, whatever the counters hold. *)
Theorem shrink_count_twice (s : kstate) :
  fst (f3fs_shrink_count (snd (f3fs_shrink_count s))) = fst (f3fs_shrink_count s).
Proof.
  rewrite (shrink_count_run (snd (f3fs_shrink_count s))).
  rewrite (shrink_count_run s). cbn [fst snd].
  destruct (count_walk_frame (f3fs_list s) 0 (snd (spin_lock s)))
    as (Hl & _ & Hm & _).
  cbn [spin_lock spin_unlock set_list_lock snd f3fs_list mem] in Hl, Hm |- *.
  rewrite Hl. apply count_walk_value_ext. cbn [mem]. exact Hm.
Qed.

(** *** Joining *)

Lemma join_run (a : nat) (s : kstate) :
  f3fs_join_shrinker a s =
  (tt, mkState (f3fs_list s ++ [a]) false (shrinker_run_no s) (mem s)
               (trace s ++ [EvListAddTail a true])).
Proof. reflexivity. Qed.

Lemma count_sum_app (m : nat -> f3fs_sb_info) (l1 l2 : list nat) :
  count_sum m (l1 ++ l2) = count_sum m l1 + count_sum m l2.
Proof.
  unfold count_sum. rewrite filter_app, map_app. unfold sumZ.
  induction (map (fun a => reclaimable (m a)) (filter (gate_free m) l1))
    as [|z zs IH]; cbn [app fold_right]; lia.
Qed.

Lemma count_sum_one (m : nat -> f3fs_sb_info) (a : nat) :
  count_sum m [a] = if umount_mutex (m a) then 0 else reclaimable (m a).
Proof.
  unfold count_sum, gate_free. cbn [filter].
  destruct (umount_mutex (m a)); cbn; lia.
Qed.

Lemma shrink_count_value (s : kstate) :
  (forall a, In a (f3fs_list s) -> umount_mutex (mem s a) = false ->
             counters_in_range (mem s a)) ->
  0 <= MAX_FREE_NIDS < 2 ^ 63 ->
  count_sum (mem s) (f3fs_list s) < 2 ^ 64 ->
  fst (f3fs_shrink_count s) = count_sum (mem s) (f3fs_list s).
Proof.
  intros Hr Hm Hb. rewrite shrink_count_run. cbn [fst].
  rewrite count_walk_value; cbn; try assumption; lia.
Qed.

(** X2: [f3fs_join_shrinker] links the instance at the tail, with the list
    lock held, and touches nothing else; the list keeps its nodes distinct
    when the instance was not on it.  The next count walks the old
    instances first and the new one last, and, with counters in range and no
    overflow, returns the old count plus what the new instance holds (nothing
    if its gate is held). *)
Theorem join_then_count (a : nat) (s : kstate) :
  ~ In a (f3fs_list s) ->
  NoDup (f3fs_list s) ->
  (forall x, In x (f3fs_list s ++ [a]) -> umount_mutex (mem s x) = false ->
             counters_in_range (mem s x)) ->
  0 <= MAX_FREE_NIDS < 2 ^ 63 ->
  count_sum (mem s) (f3fs_list s ++ [a]) < 2 ^ 64 ->
  let s' := snd (f3fs_join_shrinker a s) in
  f3fs_list s' = f3fs_list s ++ [a] /\
  NoDup (f3fs_list s') /\
  f3fs_list_lock s' = false /\
  shrinker_run_no s' = shrinker_run_no s /\
  (forall x, mem s' x = mem s x) /\
  trace s' = trace s ++ [EvListAddTail a true] /\
  fst (f3fs_shrink_count s') =
  fst (f3fs_shrink_count s)
  + (if umount_mutex (mem s a) then 0 else reclaimable (mem s a)) /\
  trace (snd (f3fs_shrink_count s')) =
  trace s' ++ count_events (mem s) (f3fs_list s) ++ count_events (mem s) [a].
Proof.
  intros Hna Hnd Hr Hmax Hb s'. subst s'. rewrite join_run. cbn [snd].
  cbn [f3fs_list f3fs_list_lock shrinker_run_no mem trace].
  split; [reflexivity|]. split; [apply NoDup_to_tail; assumption|].
  split; [reflexivity|]. split; [reflexivity|]. split; [reflexivity|].
  split; [reflexivity|].
  pose proof Hb as Hb'. rewrite count_sum_app, count_sum_one in Hb'.
  assert (Hr1 : forall x, In x (f3fs_list s) -> umount_mutex (mem s x) = false ->
                          counters_in_range (mem s x))
    by (intros x Hx; apply Hr, in_or_app; left; exact Hx).
  assert (Ha : 0 <= (if umount_mutex (mem s a) then 0 else reclaimable (mem s a))).
  { destruct (umount_mutex (mem s a)) eqn:Hg; [lia|].
    apply reclaimable_nonneg, Hr; [apply in_or_app; right; left; reflexivity|exact Hg]. }
  split.
  - rewrite shrink_count_value; cbn [f3fs_list mem]; try assumption.
    rewrite (shrink_count_value s); try assumption; [|lia].
    rewrite count_sum_app, count_sum_one. reflexivity.
  - rewrite shrink_count_run. cbn [snd spin_unlock set_list_lock trace].
    match goal with |- context [count_walk ?l 0 ?st] =>
      destruct (count_walk_frame l 0 st) as (_ & _ & _ & Ht) end.
    cbn in Ht |- *. rewrite Ht. unfold count_events at 1.
    rewrite flat_map_app. reflexivity.
Qed.

(** *** What a scan leaves as it was *)

Lemma Walk_acquired_free (run_no nr : Z) rest freed s evs freed' s' :
  Walk run_no nr rest freed s evs freed' s' ->
  forall x, In x (acquired evs) -> umount_mutex (mem s x) = false.
Proof.
  induction 1 as [freed s|a rest freed s Hc|a rest freed s evs freed' s' Hc Hb HW IH
                  |a rest freed s c freed1 tevs s1 Hc Hb Ht Hp Hle
                  |a rest freed s c freed1 tevs s1 evs freed' s' Hc Hb Ht Hp Hlt HW IH];
    intros x Hx; try (destruct Hx; fail).
  - exact (IH x Hx).
  - rewrite (acquired_visit run_no _ _ _ _ Ht) in Hx.
    destruct Hx as [<-|[]]. exact Hb.
  - rewrite acquired_app, (acquired_visit run_no _ _ _ _ Ht) in Hx.
    destruct Hx as [<-|Hx]; [exact Hb|].
    destruct (Nat.eq_dec x a) as [->|Hne]; [exact Hb|].
    destruct Hp as (_ & _ & _ & _ & Ho & _).
    rewrite <- (Ho x Hne). exact (IH x Hx).
Qed.

Lemma Walk_once (run_no nr : Z) rest freed s evs freed' s' :
  Walk run_no nr rest freed s evs freed' s' ->
  NoDup rest -> NoDup (acquired evs).
Proof.
  induction 1 as [freed s|a rest freed s Hc|a rest freed s evs freed' s' Hc Hb HW IH
                  |a rest freed s c freed1 tevs s1 Hc Hb Ht Hp Hle
                  |a rest freed s c freed1 tevs s1 evs freed' s' Hc Hb Ht Hp Hlt HW IH];
    intros Hnd.
  - constructor.
  - constructor.
  - inversion Hnd; subst. cbn [acquired]. apply IH. assumption.
  - rewrite (acquired_visit run_no _ _ _ _ Ht). repeat constructor. intros [].
  - inversion Hnd as [|? ? Hna Hnd']; subst.
    rewrite acquired_app, (acquired_visit run_no _ _ _ _ Ht). cbn [app].
    constructor; [|apply IH; exact Hnd'].
    intros Hin. apply Hna. exact (Walk_acquired_in HW _ Hin).
Qed.

Lemma in_kept_or_acquired (evs : list event) (l : list nat) (x : nat) :
  (forall y, In y (acquired evs) -> In y l) ->
  In x (kept evs l ++ acquired evs) <-> In x l.
Proof.
  intros Hsub. rewrite in_app_iff. unfold kept. rewrite filter_In. split.
  - intros [(H & _)|H]; [exact H|exact (Hsub x H)].
  - intros H. destruct (existsb (Nat.eqb x) (acquired evs)) eqn:E.
    + right. apply in_acquired_dec. exact E.
    + left. split; [exact H|reflexivity].
Qed.

(** X3: a scan keeps the registry: the list holds the same instances, each
    once; every gate is as it was (busy ones still held by their holder, the
    others released again); the list lock is released. *)
Theorem scan_keeps_registry (nr : Z) (s : kstate) :
  NoDup (f3fs_list s) ->
  exists freed s',
    f3fs_shrink_scan nr s = Some (freed, s') /\
    (forall a, In a (f3fs_list s') <-> In a (f3fs_list s)) /\
    NoDup (f3fs_list s') /\
    length (f3fs_list s') = length (f3fs_list s) /\
    (forall a, umount_mutex (mem s' a) = umount_mutex (mem s a)) /\
    f3fs_list_lock s' = false.
Proof.
  intros Hnd. destruct (@scan_total nr s Hnd) as (evs & freed & s1 & HW & Hrun).
  exists freed, (snd (spin_unlock s1)). split; [exact Hrun|].
  cbn [f3fs_list f3fs_list_lock mem snd spin_unlock set_list_lock].
  assert (Hl : f3fs_list s1 = kept evs (f3fs_list s) ++ acquired evs).
  { rewrite (Walk_list HW [] []).
    - reflexivity.
    - cbn. rewrite app_nil_r. reflexivity.
    - cbn. rewrite app_nil_r. exact Hnd. }
  assert (Hin : forall a, In a (f3fs_list s1) <-> In a (f3fs_list s)).
  { intros a. rewrite Hl. apply in_kept_or_acquired.
    exact (Walk_acquired_in HW). }
  assert (Hnd1 : NoDup (f3fs_list s1)) by exact (Walk_NoDup HW Hnd).
  split; [exact Hin|]. split; [exact Hnd1|]. split; [|split; [|reflexivity]].
  - apply Nat.le_antisymm; apply NoDup_incl_length; try assumption;
      intros a Ha; apply Hin; exact Ha.
  - intros a. rewrite (Walk_gates HW). reflexivity.
Qed.

(** X4: a scan changes only the instances it acquires: every other
    instance keeps its marker and its caches; the acquired ones are on the
    list, had their gate free, and are acquired once each. *)
Theorem scan_touches_only_acquired (nr : Z) (s : kstate) :
  NoDup (f3fs_list s) ->
  exists freed s' evs,
    f3fs_shrink_scan nr s = Some (freed, s') /\
    trace s' = trace s ++ evs /\
    (forall a, ~ In a (acquired evs) -> mem s' a = mem s a) /\
    (forall a, In a (acquired evs) ->
               In a (f3fs_list s) /\ umount_mutex (mem s a) = false) /\
    NoDup (acquired evs).
Proof.
  intros Hnd. destruct (@scan_total nr s Hnd) as (evs & freed & s1 & HW & Hrun).
  exists freed, (snd (spin_unlock s1)), evs. split; [exact Hrun|].
  cbn [trace mem snd spin_unlock set_list_lock].
  split; [exact (Walk_trace HW)|]. split; [|split].
  - intros a Ha. rewrite (Walk_untouched HW a Ha). reflexivity.
  - intros a Ha. split; [exact (Walk_acquired_in HW a Ha)|].
    exact (Walk_acquired_free HW a Ha).
  - exact (Walk_once HW Hnd).
Qed.

(** *** Locks and gates during a scan *)

Lemma holding_after_app (l1 l2 : list event) :
  forall h, holding_after h (l1 ++ l2) = holding_after (holding_after h l1) l2.
Proof.
  induction l1 as [|e l1 IH]; intros h; [reflexivity|].
  destruct e as [a [|]| | | | | |]; cbn; apply IH.
Qed.

Lemma under_gate_app (l1 l2 : list event) :
  forall h, under_gate h (l1 ++ l2) <->
            under_gate h l1 /\ under_gate (holding_after h l1) l2.
Proof.
  induction l1 as [|e l1 IH]; intros h; cbn [app under_gate].
  - cbn. tauto.
  - rewrite IH. rewrite <- (holding_after_app [e] l1 h). cbn [app]. tauto.
Qed.

Lemma under_gate_split (pre : list event) :
  forall h e post,
    under_gate h (pre ++ e :: post) ->
    under_gate_event e = true ->
    holding_after h pre = Some (event_sbi e).
Proof.
  intros h e post Hu He. apply under_gate_app in Hu. destruct Hu as (_ & Hu).
  cbn [under_gate] in Hu. destruct Hu as (Hu & _). exact (Hu He).
Qed.

Lemma holding_since (pre : list event) (a : nat) :
  forall h,
    holding_after h pre = Some a ->
    (h = Some a /\ forall x, ~ In (EvMutexUnlock x) pre) \/
    exists pre1 pre2,
      pre = pre1 ++ EvTryLock a true :: pre2 /\
      forall x, ~ In (EvMutexUnlock x) pre2.
Proof.
  induction pre as [|e pre IH]; intros h Hh.
  - left. split; [exact Hh|]. intros x [].
  - assert (Hcons : forall h',
               holding_after h' pre = Some a ->
               (h' = Some a -> (forall x, ~ In (EvMutexUnlock x) pre) ->
                (h = Some a /\ forall x, ~ In (EvMutexUnlock x) (e :: pre)) \/
                exists pre1 pre2,
                  e :: pre = pre1 ++ EvTryLock a true :: pre2 /\
                  forall x, ~ In (EvMutexUnlock x) pre2) ->
               (h = Some a /\ forall x, ~ In (EvMutexUnlock x) (e :: pre)) \/
               exists pre1 pre2,
                 e :: pre = pre1 ++ EvTryLock a true :: pre2 /\
                 forall x, ~ In (EvMutexUnlock x) pre2).
    { intros h' Hh' Hleft. destruct (IH h' Hh') as [(E & Hno)|(p1 & p2 & -> & Hno)].
      - exact (Hleft E Hno).
      - right. exists (e :: p1), p2. split; [reflexivity|exact Hno]. }
    destruct e as [b [|]|b|b r|k b n r lk|b lk|b lk|b lk]; cbn in Hh.
    + apply (Hcons _ Hh). intros E Hno. injection E as ->.
      right. exists [], pre. split; [reflexivity|exact Hno].
    + apply (Hcons _ Hh). intros E Hno. left. split; [exact E|].
      intros x [H|H]; [discriminate|exact (Hno x H)].
    + apply (Hcons _ Hh). intros E. discriminate.
    + apply (Hcons _ Hh). intros E Hno. left. split; [exact E|].
      intros x [H|H]; [discriminate|exact (Hno x H)].
    + apply (Hcons _ Hh). intros E Hno. left. split; [exact E|].
      intros x [H|H]; [discriminate|exact (Hno x H)].
    + apply (Hcons _ Hh). intros E Hno. left. split; [exact E|].
      intros x [H|H]; [discriminate|exact (Hno x H)].
    + apply (Hcons _ Hh). intros E Hno. left. split; [exact E|].
      intros x [H|H]; [discriminate|exact (Hno x H)].
    + apply (Hcons _ Hh). intros E Hno. left. split; [exact E|].
      intros x [H|H]; [discriminate|exact (Hno x H)].
Qed.

Lemma tiers_under_gate (nr freed : Z) (a : nat) c c' freed' tevs :
  tiers nr freed a c = (c', freed', tevs) ->
  under_gate (Some a) tevs /\ holding_after (Some a) tevs = Some a /\
  Forall lock_as_due tevs.
Proof.
  intros Ht. apply tiers_events in Ht.
  induction Ht as [|e tevs (k & n & r & ->) _ (IH1 & IH2 & IH3)].
  - cbn. repeat split. constructor.
  - cbn [under_gate holding_after event_sbi]. repeat split; try assumption.
    constructor; [reflexivity|exact IH3].
Qed.

Lemma visit_under_gate (run_no nr freed : Z) (a : nat) c c' freed' tevs :
  tiers nr freed a c = (c', freed', tevs) ->
  forall h,
    under_gate h (visit run_no a tevs) /\
    holding_after h (visit run_no a tevs) = None /\
    Forall lock_as_due (visit run_no a tevs).
Proof.
  intros Ht h. destruct (tiers_under_gate _ _ _ _ Ht) as (H1 & H2 & H3).
  unfold visit. cbn [under_gate holding_after under_gate_event event_sbi].
  rewrite under_gate_app, holding_after_app, H2.
  cbn [under_gate holding_after under_gate_event event_sbi].
  repeat split; try assumption; try discriminate.
  constructor; [exact I|]. constructor; [exact I|].
  apply Forall_app. split; [exact H3|]. repeat constructor.
Qed.

Lemma Walk_under_gate (run_no nr : Z) rest freed s evs freed' s' :
  Walk run_no nr rest freed s evs freed' s' ->
  under_gate None evs /\ holding_after None evs = None /\
  Forall lock_as_due evs.
Proof.
  induction 1 as [freed s|a rest freed s Hc|a rest freed s evs freed' s' Hc Hb HW IH
                  |a rest freed s c freed1 tevs s1 Hc Hb Ht Hp Hle
                  |a rest freed s c freed1 tevs s1 evs freed' s' Hc Hb Ht Hp Hlt HW IH].
  - cbn. repeat split. constructor.
  - cbn. repeat split. constructor.
  - destruct IH as (IH1 & IH2 & IH3).
    cbn [under_gate holding_after under_gate_event].
    repeat split; try assumption; try discriminate.
    constructor; [exact I|exact IH3].
  - exact (visit_under_gate run_no _ _ _ _ Ht None).
  - destruct IH as (IH1 & IH2 & IH3).
    destruct (visit_under_gate run_no _ _ _ _ Ht None) as (V1 & V2 & V3).
    rewrite under_gate_app, holding_after_app, V2.
    split; [split; assumption|]. split; [assumption|].
    apply Forall_app. split; assumption.
Qed.

(** X5: during a scan every stamp, shrink request and move to the tail of
    an instance is made after the gate of that instance was acquired and
    before any gate is released; every shrink request is made with the list
    lock released and every move with the list lock held. *)
Theorem scan_under_gate (nr : Z) (s : kstate) :
  NoDup (f3fs_list s) ->
  exists freed s' evs,
    f3fs_shrink_scan nr s = Some (freed, s') /\
    trace s' = trace s ++ evs /\
    Forall lock_as_due evs /\
    forall pre e post,
      evs = pre ++ e :: post ->
      under_gate_event e = true ->
      exists pre1 pre2,
        pre = pre1 ++ EvTryLock (event_sbi e) true :: pre2 /\
        forall x, ~ In (EvMutexUnlock x) pre2.
Proof.
  intros Hnd. destruct (@scan_total nr s Hnd) as (evs & freed & s1 & HW & Hrun).
  exists freed, (snd (spin_unlock s1)), evs. split; [exact Hrun|].
  split; [cbn; exact (Walk_trace HW)|].
  destruct (Walk_under_gate HW) as (Hu & _ & Hl). split; [exact Hl|].
  intros pre e post -> He.
  pose proof (@under_gate_split pre None e post Hu He) as Hh.
  destruct (@holding_since pre (event_sbi e) None Hh) as [(E & _)|H];
    [discriminate|exact H].
Qed.

(** *** Scans that find nothing, and scans that fall short *)

Lemma Walk_all_busy (run_no nr : Z) rest freed s evs freed' s' :
  Walk run_no nr rest freed s evs freed' s' ->
  (forall x, In x rest -> umount_mutex (mem s x) = true) ->
  freed' = freed /\
  f3fs_list s' = f3fs_list s /\
  (forall x, mem s' x = mem s x) /\
  Forall (fun e => exists x, In x rest /\ e = EvTryLock x false) evs.
Proof.
  induction 1 as [freed s|a rest freed s Hc|a rest freed s evs freed' s' Hc Hb HW IH
                  |a rest freed s c freed1 tevs s1 Hc Hb Ht Hp Hle
                  |a rest freed s c freed1 tevs s1 evs freed' s' Hc Hb Ht Hp Hlt HW IH];
    intros Hbusy.
  - repeat split. constructor.
  - repeat split. constructor.
  - destruct IH as (I1 & I2 & I3 & I4).
    { intros x Hx. cbn. apply Hbusy. right. exact Hx. }
    cbn in I2, I3. repeat split; try assumption.
    constructor.
    + exists a. split; [left; reflexivity|reflexivity].
    + eapply Forall_impl; [|exact I4]. intros e (x & Hx & ->).
      exists x. split; [right; exact Hx|reflexivity].
  - rewrite (Hbusy a (or_introl eq_refl)) in Hb. discriminate.
  - rewrite (Hbusy a (or_introl eq_refl)) in Hb. discriminate.
Qed.

(** X6: when every instance on the list (if any) has its gate held, a scan
    frees nothing and asks no cache: it returns 0, leaves the list in its
    order and every instance as it was, and its only events are failed
    attempts on gates. *)
Theorem scan_all_busy (nr : Z) (s : kstate) :
  NoDup (f3fs_list s) ->
  (forall a, In a (f3fs_list s) -> umount_mutex (mem s a) = true) ->
  exists s' evs,
    f3fs_shrink_scan nr s = Some (0, s') /\
    trace s' = trace s ++ evs /\
    Forall (fun e => exists a, In a (f3fs_list s) /\ e = EvTryLock a false) evs /\
    f3fs_list s' = f3fs_list s /\
    (forall a, mem s' a = mem s a).
Proof.
  intros Hnd Hbusy.
  destruct (@scan_total nr s Hnd) as (evs & freed & s1 & HW & Hrun).
  destruct (Walk_all_busy HW) as (-> & Hl & Hm & He); [exact Hbusy|].
  exists (snd (spin_unlock s1)), evs. split; [exact Hrun|].
  cbn [trace f3fs_list mem snd spin_unlock set_list_lock].
  split; [exact (Walk_trace HW)|]. split; [exact He|].
  split; [exact Hl|exact Hm].
Qed.

Lemma Walk_complete (run_no nr : Z) rest freed s evs freed' s' :
  Walk run_no nr rest freed s evs freed' s' ->
  NoDup rest ->
  (forall x, In x rest -> sb_shrinker_run_no (mem s x) <> run_no) ->
  freed' < nr ->
  (forall x, In x rest -> umount_mutex (mem s x) = false -> In x (acquired evs)) /\
  (forall x, In x rest -> umount_mutex (mem s x) = true -> In (EvTryLock x false) evs).
Proof.
  induction 1 as [freed s|a rest freed s Hc|a rest freed s evs freed' s' Hc Hb HW IH
                  |a rest freed s c freed1 tevs s1 Hc Hb Ht Hp Hle
                  |a rest freed s c freed1 tevs s1 evs freed' s' Hc Hb Ht Hp Hlt HW IH];
    intros Hnd Hfresh Hshort.
  - split; intros x [].
  - exfalso. exact (Hfresh a (or_introl eq_refl) Hc).
  - inversion Hnd as [|? ? Hna Hnd']; subst.
    destruct (IH Hnd') as (I1 & I2); [|exact Hshort|].
    { intros x Hx. cbn. apply Hfresh. right. exact Hx. }
    cbn in I1, I2. split.
    + intros x [<-|Hx] Hg; [congruence|]. cbn [acquired]. exact (I1 x Hx Hg).
    + intros x [<-|Hx] Hg; [left; reflexivity|]. right. exact (I2 x Hx Hg).
  - lia.
  - inversion Hnd as [|? ? Hna Hnd']; subst.
    destruct Hp as (_ & _ & _ & _ & Ho & _).
    assert (Hne : forall x, In x rest -> x <> a) by (intros x Hx ->; contradiction).
    destruct (IH Hnd') as (I1 & I2); [|exact Hshort|].
    { intros x Hx. rewrite (Ho x (Hne x Hx)). apply Hfresh. right. exact Hx. }
    split.
    + intros x [<-|Hx] Hg.
      * rewrite acquired_app, (acquired_visit run_no _ _ _ _ Ht). left. reflexivity.
      * rewrite acquired_app. apply in_or_app. right.
        apply I1; [exact Hx|]. rewrite (Ho x (Hne x Hx)). exact Hg.
    + intros x [<-|Hx] Hg; [congruence|].
      apply in_or_app. right.
      apply I2; [exact Hx|]. rewrite (Ho x (Hne x Hx)). exact Hg.
Qed.

(** X7: a scan gives up only after it has tried every instance: when no
    marker on the list equals the run id drawn and the scan returns less
    than the target, it has processed every instance whose gate was free and
    has attempted the gate of every other. *)
Theorem scan_short_tried_all (nr : Z) (s : kstate) :
  NoDup (f3fs_list s) ->
  (forall a, In a (f3fs_list s) ->
             sb_shrinker_run_no (mem s a) <> next_run_no (shrinker_run_no s)) ->
  exists freed s' evs,
    f3fs_shrink_scan nr s = Some (freed, s') /\
    trace s' = trace s ++ evs /\
    (freed < nr ->
     (forall a, In a (f3fs_list s) -> umount_mutex (mem s a) = false ->
                In a (acquired evs)) /\
     (forall a, In a (f3fs_list s) -> umount_mutex (mem s a) = true ->
                In (EvTryLock a false) evs)).
Proof.
  intros Hnd Hfresh.
  destruct (@scan_total nr s Hnd) as (evs & freed & s1 & HW & Hrun).
  exists freed, (snd (spin_unlock s1)), evs. split; [exact Hrun|].
  split; [cbn; exact (Walk_trace HW)|].
  intros Hshort. exact (Walk_complete HW Hnd Hfresh Hshort).
Qed.

(** *** How far a scan can overshoot *)

Lemma Walk_overshoot (run_no nr : Z) rest freed s evs freed' s' :
  Walk run_no nr rest freed s evs freed' s' ->
  shrinkers_bounded ->
  0 <= nr -> nr + 2 ^ 32 <= 2 ^ 64 ->
  0 <= freed <= nr ->
  freed <= freed' < nr + 2 ^ 32.
Proof.
  intros HW Hb Hnr Hmax.
  induction HW as [freed s|a rest freed s Hc|a rest freed s evs freed' s' Hc Hg HW IH
                  |a rest freed s c freed1 tevs s1 Hc Hg Ht Hp Hle
                  |a rest freed s c freed1 tevs s1 evs freed' s' Hc Hg Ht Hp Hlt HW IH];
    intros Hf.
  - lia.
  - lia.
  - exact (IH Hf).
  - destruct (tiers_cases a _ Hb Hnr Hmax Hf Ht)
      as (r1 & B1 & [(L1 & _ & ->)|(L1 & r2 & B2 & [(L2 & _ & ->)|(L2 & r3 & B3 & _ & ->)])]);
      lia.
  - assert (Hf1 : freed <= freed1).
    { destruct (tiers_cases a _ Hb Hnr Hmax Hf Ht)
        as (r1 & B1 & [(L1 & _ & ->)|(L1 & r2 & B2 & [(L2 & _ & ->)|(L2 & r3 & B3 & _ & ->)])]);
        lia. }
    assert (Hf' : 0 <= freed1 <= nr) by lia.
    specialize (IH Hf'). lia.
Qed.

(** X8: a scan overshoots its target by less than one answer of a cache:
    when every cache reports fewer than 2^32 objects freed per request, the
    value returned for target [nr] is below [nr + 2^32], so the 64-bit sum
    of lines 103 to 111 never wraps. *)
Theorem scan_overshoot (nr : Z) (s : kstate) :
  NoDup (f3fs_list s) ->
  shrinkers_bounded ->
  0 <= nr -> nr + 2 ^ 32 <= 2 ^ 64 ->
  exists freed s',
    f3fs_shrink_scan nr s = Some (freed, s') /\
    0 <= freed < nr + 2 ^ 32.
Proof.
  intros Hnd Hb Hnr Hmax.
  destruct (@scan_total nr s Hnd) as (evs & freed & s1 & HW & Hrun).
  exists freed, (snd (spin_unlock s1)). split; [exact Hrun|].
  pose proof (Walk_overshoot HW Hb Hnr Hmax) as H. lia.
Qed.

(** *** Joining and leaving *)

Lemma list_del_init_tail (a : nat) (l : list nat) :
  ~ In a l -> KList.list_del_init a (KList.list_add_tail a l) = l.
Proof.
  intros Hn. unfold KList.list_del_init, KList.list_add_tail.
  rewrite remove_app, (notin_remove Nat.eq_dec l a Hn). cbn.
  destruct (Nat.eq_dec a a) as [_|Hne]; [apply app_nil_r|congruence].
Qed.

(** X9: an instance that joins and then leaves is gone without a trace on
    the list: the list is as it was before the join, in its order, the list
    lock is free, the run counter and every other instance are untouched,
    the instance itself keeps its gate and its marker, and the events are
    the link at the tail, the request to its extent cache for all the cache
    counts, made without the list lock, and the unlink, both list
    operations under the lock. *)
Theorem join_then_leave (a : nat) (s : kstate) :
  ~ In a (f3fs_list s) ->
  let s1 := snd (f3fs_join_shrinker a s) in
  let s2 := snd (f3fs_leave_shrinker a s1) in
  f3fs_list s2 = f3fs_list s /\
  f3fs_list_lock s2 = false /\
  shrinker_run_no s2 = shrinker_run_no s /\
  (forall x, x <> a -> mem s2 x = mem s x) /\
  umount_mutex (mem s2 a) = umount_mutex (mem s a) /\
  sb_shrinker_run_no (mem s2 a) = sb_shrinker_run_no (mem s a) /\
  caches (mem s2 a) =
    fst (extent_tree_shrinker (caches (mem s a)) (__count_extent_cache (mem s a))) /\
  trace s2 =
    trace s ++ [EvListAddTail a true;
                EvShrink ExtentCache a (__count_extent_cache (mem s a))
                         (snd (extent_tree_shrinker (caches (mem s a))
                                                    (__count_extent_cache (mem s a))))
                         false;
                EvListDel a true].
Proof.
  intros Hn s1 s2. subst s2 s1. rewrite join_run. cbn [snd].
  rewrite leave_run. cbn [snd f3fs_list f3fs_list_lock shrinker_run_no mem trace].
  split; [exact (@list_del_init_tail a (f3fs_list s) Hn)|].
  split; [reflexivity|]. split; [reflexivity|].
  split; [intros x Hx; apply store_other; congruence|].
  rewrite store_same. cbn [set_caches umount_mutex sb_shrinker_run_no caches].
  repeat split. rewrite <- !app_assoc. reflexivity.
Qed.

End ShrinkerFacts.

(** * The feature list of sysfs *)

Section FeatureFacts.

Import Ascii String Sysfs.

Variable PAGE_SIZE : Z.
Hypothesis page_size : 0 < PAGE_SIZE <= INT_MAX.

Lemma clip_length (acc : list ascii) :
  0 <= snd (clip PAGE_SIZE acc) <= PAGE_SIZE - 1.
Proof.
  unfold clip. cbn [snd]. rewrite length_firstn. lia.
Qed.

(** The first thing printed replaces what the page held. *)
Lemma print_at_first (buf text : list ascii) :
  print_at PAGE_SIZE (buf, 0) text = clip PAGE_SIZE text.
Proof.
  pose proof (clip_length text) as Hl.
  unfold print_at, scnprintf, clip, INT_MAX in *. cbn [snd] in Hl.
  rewrite Z.sub_0_r, u64_id by lia.
  destruct (Z.eqb_spec PAGE_SIZE 0) as [E|_]; [lia|].
  destruct (Z.ltb_spec (2 ^ 31 - 1) PAGE_SIZE) as [E|_]; [lia|].
  cbn [orb]. destruct (Z.leb_spec 0 (Z.of_nat (List.length buf))) as [_|E]; [|lia].
  cbn [Z.to_nat firstn app]. f_equal.
  rewrite s32_id; lia.
Qed.

(** What is printed later is appended, as far as the page has room. *)
Lemma print_at_next (acc text : list ascii) :
  print_at PAGE_SIZE (clip PAGE_SIZE acc) text = clip PAGE_SIZE (acc ++ text).
Proof.
  pose proof (clip_length acc) as Hl.
  pose proof (clip_length (acc ++ text)) as Hl2.
  unfold print_at, scnprintf, clip, INT_MAX in *. cbn [snd] in Hl, Hl2.
  set (cap := Z.to_nat (PAGE_SIZE - 1)) in *.
  set (L := List.length (firstn cap acc)) in *.
  rewrite u64_id by lia.
  destruct (Z.eqb_spec (PAGE_SIZE - Z.of_nat L) 0) as [E|_]; [lia|].
  destruct (Z.ltb_spec (2 ^ 31 - 1) (PAGE_SIZE - Z.of_nat L)) as [E|_]; [lia|].
  cbn [orb]. destruct (Z.leb_spec (Z.of_nat L) (Z.of_nat L)) as [_|E]; [|lia].
  rewrite Nat2Z.id. subst L. rewrite firstn_all.
  assert (E : firstn cap acc
              ++ firstn (Z.to_nat (PAGE_SIZE - Z.of_nat (List.length (firstn cap acc)) - 1)) text
              = firstn cap (acc ++ text)).
  { rewrite firstn_app. f_equal. f_equal. rewrite length_firstn. lia. }
  rewrite <- E at 1. f_equal.
  rewrite <- Nat2Z.inj_add, <- length_app, E.
  rewrite s32_id; lia.
Qed.

Lemma separator_clip (acc word : list ascii) :
  acc <> [] ->
  clip PAGE_SIZE (acc ++ separator (snd (clip PAGE_SIZE acc)) ++ word)
  = clip PAGE_SIZE (add acc word).
Proof.
  intros Hne. unfold add, separator, clip. cbn [snd].
  destruct acc as [|c acc]; [congruence|].
  destruct (Z.to_nat (PAGE_SIZE - 1)) as [|k]; [reflexivity|].
  reflexivity.
Qed.

Lemma add_nonempty (acc word : list ascii) :
  word <> [] -> add acc word <> [].
Proof.
  intros Hw. unfold add. destruct acc as [|c acc]; [exact Hw|discriminate].
Qed.

(** A word printed with its separator to a page in state [printed]. *)
Lemma print_word (buf acc word : list ascii) st :
  word <> [] ->
  printed PAGE_SIZE buf acc st ->
  printed PAGE_SIZE buf (add acc word)
          (print_at PAGE_SIZE st (separator (snd st) ++ word)).
Proof.
  intros Hw [(-> & ->)|(Hne & ->)]; right;
    (split; [apply add_nonempty; exact Hw|]).
  - cbn [snd separator Z.eqb app]. apply print_at_first.
  - rewrite print_at_next. apply separator_clip. exact Hne.
Qed.

Lemma chars_nonempty (name : string) :
  name <> EmptyString -> chars name <> [].
Proof. destruct name; [congruence|discriminate]. Qed.

Lemma print_table_printed (t : list (bool * string)) :
  Forall (fun p => snd p <> EmptyString) t ->
  forall buf acc st,
    printed PAGE_SIZE buf acc st ->
    printed PAGE_SIZE buf
            (fold_left add (map (fun p => chars (snd p)) (filter fst t)) acc)
            (print_table PAGE_SIZE t st).
Proof.
  induction 1 as [|[b name] t Hn Ht IH]; intros buf acc st Hp; [exact Hp|].
  cbn [print_table fold_left filter fst snd] in *. unfold print_feature at 2.
  destruct b; cbn [map fold_left fst snd].
  - apply IH. apply print_word; [apply chars_nonempty; exact Hn|exact Hp].
  - apply IH. exact Hp.
Qed.

Lemma join_app_head (a b : list ascii) (l : list (list ascii)) :
  join ((a ++ b) :: l) = a ++ join (b :: l).
Proof. destruct l; cbn [join]; [reflexivity|]. rewrite <- app_assoc. reflexivity. Qed.

Lemma fold_add_join (l : list (list ascii)) :
  forall acc, acc <> [] -> fold_left add l acc = join (acc :: l).
Proof.
  induction l as [|x l IH]; intros acc Hne; [reflexivity|].
  cbn [fold_left]. rewrite IH.
  - unfold add. destruct acc as [|c acc]; [congruence|].
    rewrite join_app_head, join_app_head. reflexivity.
  - unfold add. destruct acc; [congruence|discriminate].
Qed.

Lemma fold_add_join_all (l : list (list ascii)) :
  Forall (fun x => x <> []) l -> fold_left add l [] = join l.
Proof.
  destruct 1 as [|x l Hx Hl]; [reflexivity|].
  cbn [fold_left]. unfold add at 2. cbn [app]. apply fold_add_join. exact Hx.
Qed.

Lemma feature_table_named (sbi : sb_features) :
  Forall (fun p => snd p <> EmptyString) (feature_table sbi).
Proof. unfold feature_table. repeat constructor; discriminate. Qed.

Lemma enabled_named (sbi : sb_features) :
  Forall (fun x => x <> []) (enabled sbi).
Proof.
  unfold enabled. apply Forall_app. split; [|repeat constructor; discriminate].
  apply Forall_map. apply Forall_forall. intros [b name] Hin.
  apply filter_In in Hin. destruct Hin as (Hin & _).
  pose proof (feature_table_named sbi) as Hf.
  rewrite Forall_forall in Hf. apply chars_nonempty. exact (Hf _ Hin).
Qed.

(** The run of [features_show]: the line, clipped to the page. *)
Lemma features_show_run (sbi : sb_features) (buf : list ascii) :
  features_show PAGE_SIZE sbi buf = clip PAGE_SIZE (feature_line sbi).
Proof.
  assert (H0 : printed PAGE_SIZE buf [] (buf, 0)) by (left; split; reflexivity).
  pose proof (print_table_printed (feature_table_named sbi) H0) as Ht.
  apply (@print_word buf _ (chars "pin_file")) in Ht; [|discriminate].
  destruct Ht as [(E & _)|(_ & Ht)].
  { exfalso. revert E. apply add_nonempty. discriminate. }
  unfold feature_line. rewrite <- fold_add_join_all by apply enabled_named.
  unfold enabled. rewrite fold_left_app. cbn [fold_left].
  rewrite <- print_at_next, <- Ht.
  unfold feature_table, print_table. cbn [fold_left fst snd].
  unfold features_show, print_feature at 1.
  destruct (f3fs_sb_has_encrypt sbi); reflexivity.
Qed.

End FeatureFacts.

Section FeatureLine.

Import Ascii String Sysfs.

Lemma join_length (l : list (list ascii)) :
  l <> [] ->
  (List.length (join l) + 2
   = list_sum (map (fun x => 2 + List.length x) l))%nat.
Proof.
  induction l as [|x [|y l] IH]; intros Hne; [congruence|cbn; lia|].
  change (join (x :: y :: l))
    with (x ++ chars ", " ++ join (y :: l)).
  rewrite !length_app.
  change (list_sum (map (fun x => 2 + List.length x) (x :: y :: l)))%nat
    with (2 + List.length x
          + list_sum (map (fun x => 2 + List.length x) (y :: l)))%nat.
  rewrite <- IH by discriminate. cbn [chars List.length]. cbn. lia.
Qed.

Lemma filter_sum_le (A : Type) (f : A -> nat) (p : A -> bool) (l : list A) :
  (list_sum (map f (filter p l)) <= list_sum (map f l))%nat.
Proof.
  induction l as [|x l IH]; [apply Nat.le_refl|].
  cbn [filter]. destruct (p x); cbn [map list_sum fold_right];
    fold (list_sum (map f l)); fold (list_sum (map f (filter p l))); lia.
Qed.

Lemma feature_line_length (sbi : sb_features) :
  (9 <= List.length (feature_line sbi) <= 184)%nat.
Proof.
  unfold feature_line. rewrite length_app. cbn [List.length].
  assert (Hne : enabled sbi <> []).
  { unfold enabled. intros E. apply app_eq_nil in E.
    destruct E as (_ & E). discriminate E. }
  pose proof (join_length Hne) as Hj.
  unfold enabled in Hj at 2. rewrite map_app, list_sum_app, map_map in Hj.
  pose proof (filter_sum_le
                (fun p : bool * string => (2 + List.length (chars (snd p)))%nat)
                fst (feature_table sbi)) as Hf.
  assert (Ht : list_sum (map (fun p : bool * string =>
                                (2 + List.length (chars (snd p)))%nat)
                             (feature_table sbi)) = 175%nat)
    by reflexivity.
  cbn [map list_sum fold_right] in Hj.
  change (List.length (chars "pin_file")) with 8%nat in Hj.
  lia.
Qed.

(** X10: whatever the page held before and whatever features the instance
    has, [features_show] leaves in the page the names of the features the
    instance has, in the order of the source, then [pin_file], with [", "]
    between them and a newline at the end, cut to the [PAGE_SIZE - 1]
    characters that fit before the NUL; it returns the number of characters
    left there, which is below [PAGE_SIZE]. *)
Theorem features_show_clipped (PAGE_SIZE : Z) (sbi : sb_features)
        (buf : list ascii) :
  0 < PAGE_SIZE <= INT_MAX ->
  features_show PAGE_SIZE sbi buf =
  (firstn (Z.to_nat (PAGE_SIZE - 1)) (feature_line sbi),
   Z.min (Z.of_nat (List.length (feature_line sbi))) (PAGE_SIZE - 1)) /\
  snd (features_show PAGE_SIZE sbi buf)
  = Z.of_nat (List.length (fst (features_show PAGE_SIZE sbi buf))) /\
  0 <= snd (features_show PAGE_SIZE sbi buf) < PAGE_SIZE.
Proof.
  intros Hp. rewrite features_show_run by exact Hp.
  pose proof (clip_length Hp (feature_line sbi)) as Hl.
  unfold clip in *. cbn [fst snd] in *.
  split; [|split; [reflexivity|lia]].
  f_equal. rewrite length_firstn. lia.
Qed.

(** X11: with a page of 185 bytes or more, as every page is, nothing is
    cut: [features_show] leaves the whole line in the page, whatever the
    page held before, and returns its length, which is 184 at most. *)
Theorem features_show_line (PAGE_SIZE : Z) (sbi : sb_features)
        (buf : list ascii) :
  185 <= PAGE_SIZE <= INT_MAX ->
  features_show PAGE_SIZE sbi buf =
  (feature_line sbi, Z.of_nat (List.length (feature_line sbi))) /\
  9 <= Z.of_nat (List.length (feature_line sbi)) <= 184.
Proof.
  intros Hp. pose proof (feature_line_length sbi) as Hl.
  split; [|lia].
  rewrite features_show_run by (unfold INT_MAX in *; lia). unfold clip.
  rewrite firstn_all2 by lia. reflexivity.
Qed.

End FeatureLine.

(** * The segment table of procfs *)

Lemma u32_s32 z : Width.u32 (Width.s32 z) = Width.u32 z.
Proof.
  unfold Width.u32, Width.s32. rewrite Zminus_mod_idemp_l. f_equal. lia.
Qed.

Lemma seq_from (a len : nat) :
  forall b, seq (a + b) len = map (Nat.add a) (seq b len).
Proof.
  induction len as [|len IH]; intros b; [reflexivity|].
  cbn [seq map]. f_equal. rewrite <- IH. f_equal. lia.
Qed.

Lemma seq_blocks (B : Type) (f : nat -> list B) (q : nat) :
  forall r,
    flat_map f (seq 0 (10 * q + r)) =
    flat_map (fun k => flat_map f (seq (10 * k) 10)) (seq 0 q)
    ++ flat_map f (seq (10 * q) r).
Proof.
  induction q as [|q IH]; intros r; [reflexivity|].
  replace (10 * S q + r)%nat with (10 * q + (10 + r))%nat by lia.
  rewrite IH, seq_S, flat_map_app, <- app_assoc. f_equal.
  rewrite (seq_app 10 r), flat_map_app. cbn [flat_map plus].
  rewrite app_nil_r. f_equal. f_equal. f_equal. lia.
Qed.

Section SegmentFacts.

Import Sysfs.

Variable get_seg_entry : Z -> seg_entry.
Variable total_segs : Z.
Hypothesis segs_range : 0 <= total_segs <= 2 ^ 31.

Local Abbreviation turn := (segment_info_turn get_seg_entry total_segs).
Local Abbreviation loop := (segment_info_loop get_seg_entry total_segs).

(** The loop prints the turns of the segments left, in their order, and
    ends; the counter may wrap when it leaves the last segment. *)
Lemma segment_info_loop_run (m : nat) :
  forall (i : nat) (out : list piece) (fuel : nat),
    Z.of_nat (i + m) = total_segs ->
    (m < fuel)%nat ->
    loop fuel (Width.s32 (Z.of_nat i)) out =
    Some (out ++ flat_map (fun k => turn (Z.of_nat k)) (seq i m)).
Proof.
  induction m as [|m IH]; intros i out fuel Hn Hf;
    (destruct fuel as [|fuel]; [lia|]); cbn [segment_info_loop];
    rewrite u32_s32, u32_id by lia.
  - destruct (Z.ltb_spec (Z.of_nat i) total_segs) as [E|_]; [lia|].
    cbn. rewrite app_nil_r. reflexivity.
  - destruct (Z.ltb_spec (Z.of_nat i) total_segs) as [_|E]; [|lia].
    rewrite (@s32_id (Z.of_nat i)) by lia.
    replace (Z.of_nat i + 1) with (Z.of_nat (S i)) by lia.
    rewrite IH by lia. cbn [seq flat_map]. rewrite <- app_assoc. reflexivity.
Qed.

(** A turn within a line of [len] segments that starts at a multiple of
    ten: the line is full or ends the table. *)
Lemma segment_info_turn_at (k j len : nat) :
  (j < len <= 10)%nat ->
  Z.of_nat (10 * k + len) <= total_segs ->
  len = 10%nat \/ Z.of_nat (10 * k + len) = total_segs ->
  turn (Z.of_nat (10 * k + j)) =
  (if Nat.eqb j 0 then [Index (10 * Z.of_nat k)] else [])
  ++ [cell get_seg_entry (10 * Z.of_nat k + Z.of_nat j);
      if Nat.eqb (S j) len then Newline else Blank].
Proof.
  intros Hj Hn Hlen. unfold segment_info_turn, cell.
  replace (Z.of_nat (10 * k + j)) with (10 * Z.of_nat k + Z.of_nat j) by lia.
  assert (Hr : Z.rem (10 * Z.of_nat k + Z.of_nat j) 10 = Z.of_nat j).
  { rewrite Z.rem_mod_nonneg by lia.
    rewrite Z.add_comm, Z.mul_comm, Z.mod_add by lia.
    apply Z.mod_small. lia. }
  rewrite Hr. rewrite !u32_id by lia.
  f_equal.
  - destruct j; [rewrite Z.add_0_r|]; reflexivity.
  - cbn [app]. f_equal. f_equal.
    destruct (Nat.eqb_spec (S j) len) as [E|E].
    + destruct Hlen as [->|Hlen].
      * destruct (Z.eqb_spec (Z.of_nat j) 9) as [_|E']; [reflexivity|lia].
      * destruct (Z.eqb_spec (10 * Z.of_nat k + Z.of_nat j) (total_segs - 1))
          as [_|E']; [rewrite orb_true_r; reflexivity|lia].
    + destruct (Z.eqb_spec (Z.of_nat j) 9) as [E'|_]; [lia|].
      destruct (Z.eqb_spec (10 * Z.of_nat k + Z.of_nat j) (total_segs - 1))
        as [E'|_]; [lia|reflexivity].
Qed.

(** The turns of such a line make a row. *)
Lemma segment_info_row (k len : nat) :
  (0 < len <= 10)%nat ->
  Z.of_nat (10 * k + len) <= total_segs ->
  len = 10%nat \/ Z.of_nat (10 * k + len) = total_segs ->
  flat_map (fun i => turn (Z.of_nat i)) (seq (10 * k) len)
  = row get_seg_entry (10 * Z.of_nat k) len.
Proof.
  intros Hl Hn Hlen.
  assert (E : flat_map (fun i => turn (Z.of_nat i)) (seq (10 * k) len)
              = flat_map (fun j =>
                  (if Nat.eqb j 0 then [Index (10 * Z.of_nat k)] else [])
                  ++ [cell get_seg_entry (10 * Z.of_nat k + Z.of_nat j);
                      if Nat.eqb (S j) len then Newline else Blank])
                  (seq 0 len)).
  { rewrite <- (Nat.add_0_r (10 * k)) at 1. rewrite seq_from.
    rewrite !flat_map_concat_map, map_map. f_equal.
    apply map_ext_in. intros j Hin. apply in_seq in Hin.
    apply segment_info_turn_at; [lia|exact Hn|exact Hlen]. }
  rewrite E. unfold row. destruct len as [|len]; [lia|].
  cbn [seq flat_map Nat.eqb app]. f_equal. f_equal. f_equal.
  rewrite !flat_map_concat_map. f_equal.
  apply map_ext_in. intros j Hin. apply in_seq in Hin.
  destruct j; [lia|reflexivity].
Qed.

End SegmentFacts.

Section SegmentTable.

Import Sysfs.

(** X12: for up to 2^31 main segments, [segment_info_seq_show] ends,
    returns 0, and prints the legend and then the segments in their order,
    ten on a line and the rest on a last line: every line starts with the
    number of its first segment, holds the segments with one blank between
    them, and is ended by a newline, the last line as well. *)
Theorem segment_info_table (get_seg_entry : Z -> seg_entry) (total_segs : Z) :
  0 <= total_segs <= 2 ^ 31 ->
  segment_info_seq_show get_seg_entry total_segs =
  Some (Legend :: table get_seg_entry (Z.to_nat total_segs), 0).
Proof.
  intros Hs. unfold segment_info_seq_show.
  change 0 with (Width.s32 (Z.of_nat 0)) at 1.
  rewrite (@segment_info_loop_run get_seg_entry total_segs Hs
             (Z.to_nat total_segs)) by lia.
  cbn [app]. f_equal. f_equal. f_equal.
  set (n := Z.to_nat total_segs).
  assert (Hn : Z.of_nat n = total_segs) by lia.
  pose proof (Nat.div_mod_eq n 10) as Hd.
  pose proof (Nat.mod_upper_bound n 10) as Hr.
  unfold table. rewrite Hd at 1. rewrite seq_blocks. f_equal.
  - rewrite !flat_map_concat_map. f_equal.
    apply map_ext_in. intros k Hin. apply in_seq in Hin.
    apply segment_info_row; [exact Hs|lia|lia|left; reflexivity].
  - destruct (Nat.eqb_spec (n mod 10) 0) as [E|E].
    + rewrite E. reflexivity.
    + rewrite segment_info_row; [reflexivity|exact Hs|lia|lia|right; lia].
Qed.

End SegmentTable.

(** * The claims on the sample registry *)

(** C7 on an instance with ten free ids above the watermark. *)
Lemma count_free_nids_clamped_witness :
  __count_free_nids Sample.MAX_FREE_NIDS (Sample.instance false 0) = 10.
Proof.
  destruct (@count_free_nids_clamped unit Sample.MAX_FREE_NIDS
              (Sample.instance false 0)) as (H & _).
  - cbn. lia.
  - unfold Sample.MAX_FREE_NIDS. lia.
  - rewrite H; [reflexivity|]. cbn. unfold Sample.MAX_FREE_NIDS. lia.
Defined.

(** C5 on the registry with instance 2 busy: instances 1 and 3 count 30
    each. *)
Lemma shrink_count_sum_witness :
  fst (f3fs_shrink_count Sample.MAX_FREE_NIDS Sample.one_busy) = 60.
Proof.
  destruct (@shrink_count_sum unit Sample.MAX_FREE_NIDS Sample.one_busy)
    as (H & _).
  - intros a _ _. cbn. unfold counters_in_range. cbn. lia.
  - unfold Sample.MAX_FREE_NIDS. lia.
  - vm_compute. reflexivity.
  - rewrite H. vm_compute. reflexivity.
Defined.

(** C2 as stated fails for a target of zero: on the registry with one
    instance, whose gate is free, the scan makes a shrink request although
    the objects freed before it (none) already reach the target. *)
Lemma scan_zero_works_at_target :
  exists freed s' pre e post,
    f3fs_shrink_scan Sample.extent_tree_shrinker Sample.nats_shrinker
                     Sample.nids_shrinker 0 Sample.single = Some (freed, s') /\
    trace s' = trace Sample.single ++ pre ++ e :: post /\
    is_request e = true /\
    0 <= freed_of pre.
Proof.
  assert (E : option_map (fun p : Z * kstate unit => trace (snd p))
                (f3fs_shrink_scan Sample.extent_tree_shrinker Sample.nats_shrinker
                                  Sample.nids_shrinker 0 Sample.single)
              = Some [EvTryLock 1 true; EvStamp 1 1;
                      EvShrink ExtentCache 1 0 0 false;
                      EvListMoveTail 1 true; EvMutexUnlock 1])
    by (vm_compute; reflexivity).
  destruct (f3fs_shrink_scan Sample.extent_tree_shrinker Sample.nats_shrinker
                             Sample.nids_shrinker 0 Sample.single)
    as [[freed s']|]; [|discriminate E].
  cbn [option_map snd] in E. injection E as E.
  exists freed, s', [EvTryLock 1 true; EvStamp 1 1],
    (EvShrink ExtentCache 1 0 0 false),
    [EvListMoveTail 1 true; EvMutexUnlock 1].
  split; [reflexivity|]. split; [exact E|]. split; [reflexivity|].
  cbn. lia.
Qed.

Lemma sample_nodes_distinct : NoDup [1; 2; 3]%nat.
Proof.
  repeat constructor; cbn; intros H;
    repeat (destruct H as [H|H]; [discriminate H|]); exact H.
Qed.

Lemma sample_shrinkers_bounded :
  shrinkers_bounded Sample.extent_tree_shrinker Sample.nats_shrinker
                    Sample.nids_shrinker.
Proof.
  intros [| |] c n; cbn; unfold Sample.take; lia.
Qed.

Lemma sample_yields_one :
  yields_one Sample.extent_tree_shrinker Sample.nats_shrinker
             Sample.nids_shrinker (caches (Sample.instance false 0)).
Proof. cbv. right. left. intros H. discriminate H. Qed.

(** C1 on the registry of three free instances, asked for 20 objects. *)
Lemma scan_budget_tiers_witness :
  exists freed s' evs,
    f3fs_shrink_scan Sample.extent_tree_shrinker Sample.nats_shrinker
                     Sample.nids_shrinker 20 Sample.all_free = Some (freed, s') /\
    trace s' = trace Sample.all_free ++ evs /\
    tiered 20 0 (requests evs) freed /\
    extent_asked evs = acquired evs.
Proof.
  apply (@scan_budget_tiers unit Sample.extent_tree_shrinker Sample.nats_shrinker
           Sample.nids_shrinker 20 Sample.all_free).
  - exact sample_nodes_distinct.
  - exact sample_shrinkers_bounded.
  - lia.
  - lia.
Defined.

(** C2, amended, on the registry with instance 2 busy, asked for 20. *)
Lemma scan_stops_at_target_witness :
  exists freed s' evs,
    f3fs_shrink_scan Sample.extent_tree_shrinker Sample.nats_shrinker
                     Sample.nids_shrinker 20 Sample.one_busy = Some (freed, s') /\
    trace s' = trace Sample.one_busy ++ evs /\
    freed = freed_of evs /\
    forall pre e post,
      evs = pre ++ e :: post ->
      is_work e = true ->
      freed_of pre < 20 \/ (20 = 0 /\ requests pre = []).
Proof.
  apply (@scan_stops_at_target unit Sample.extent_tree_shrinker
           Sample.nats_shrinker Sample.nids_shrinker 20 Sample.one_busy).
  - exact sample_nodes_distinct.
  - exact sample_shrinkers_bounded.
  - lia.
  - lia.
Defined.

(** C3 on the registry of three free instances, none stamped yet: three
    scans for one object process instances 1, 2 and 3; after a scan for 20
    objects and a scan for none, no instance carries the run id of the scan
    that is to process it; and three scans for one object process the three
    instances as well when the run counter wraps in between. *)
Lemma scan_round_robin_witness :
  (exists s' evs,
      scan_repeat Sample.extent_tree_shrinker Sample.nats_shrinker
                  Sample.nids_shrinker 3 1 Sample.all_free = Some s' /\
      trace s' = trace Sample.all_free ++ evs /\
      acquired evs = [1; 2; 3]%nat /\
      NoDup (acquired evs)) /\
  (exists s1,
      scan_history Sample.extent_tree_shrinker Sample.nats_shrinker
                   Sample.nids_shrinker [20; 0] Sample.all_free = Some s1 /\
      rotation_ready s1) /\
  (exists s' evs,
      scan_repeat Sample.extent_tree_shrinker Sample.nats_shrinker
                  Sample.nids_shrinker 3 1 Sample.near_wrap = Some s' /\
      trace s' = trace Sample.near_wrap ++ evs /\
      acquired evs = [1; 2; 3]%nat /\
      NoDup (acquired evs)).
Proof.
  destruct (@scan_round_robin unit Sample.extent_tree_shrinker
              Sample.nats_shrinker Sample.nids_shrinker Sample.all_free
              sample_nodes_distinct) as (_ & H2 & H3).
  destruct (@scan_round_robin unit Sample.extent_tree_shrinker
              Sample.nats_shrinker Sample.nids_shrinker Sample.near_wrap
              sample_nodes_distinct) as (_ & _ & H4).
  split; [|split].
  - apply H2.
    + exact sample_shrinkers_bounded.
    + intros a _. reflexivity.
    + intros a _. exact sample_yields_one.
    + intros k a _ E. cbn in E. symmetry in E.
      exact (@run_id_after_nonzero _ _ E).
    + cbn. lia.
  - destruct (H3 (fun a _ => eq_refl) (fun a _ => eq_refl)) with (targets := [20; 0])
      as (s1 & Hh & _ & _ & _ & Hr & _).
    + cbn. lia.
    + cbn. lia.
    + exists s1. split; [exact Hh|exact Hr].
  - destruct (H4 (fun a _ => eq_refl) (fun a _ => eq_refl)) with (targets := @nil Z)
      as (s1 & Hh & _ & _ & _ & _ & Hfair).
    + cbn. lia.
    + cbn. lia.
    + cbn [scan_history] in Hh. injection Hh as <-.
      apply Hfair.
      * exact sample_shrinkers_bounded.
      * intros a _. exact sample_yields_one.
      * cbn. lia.
Defined.

(** C4 on the registry with instance 2 busy, asked for 100 objects. *)
Lemma scan_terminates_witness :
  exists freed s' evs,
    (forall fuel, (5 <= fuel)%nat ->
                  f3fs_shrink_scan_fuel Sample.extent_tree_shrinker
                    Sample.nats_shrinker Sample.nids_shrinker fuel 100
                    Sample.one_busy = Some (freed, s')) /\
    trace s' = trace Sample.one_busy ++ evs /\
    (length (filter is_trylock evs) <= 3)%nat /\
    (forall fuel run_no a f st,
        sb_shrinker_run_no (mem st a) = run_no ->
        scan_walk Sample.extent_tree_shrinker Sample.nats_shrinker
                  Sample.nids_shrinker (S fuel) run_no 100 (Some a) f st
        = Some (f, st)).
Proof.
  apply (@scan_terminates unit Sample.extent_tree_shrinker Sample.nats_shrinker
           Sample.nids_shrinker 100 Sample.one_busy).
  exact sample_nodes_distinct.
Defined.

(** C6 on the registry of three free instances: instance 2 leaves. *)
Lemma leave_drains_then_unlinks_witness :
  let s' := snd (f3fs_leave_shrinker Sample.extent_tree_shrinker
                   Sample.nats_shrinker Sample.nids_shrinker 2 Sample.all_free) in
  (exists r,
      trace s' = trace Sample.all_free
                 ++ [EvShrink ExtentCache 2 (2 + 8) r false; EvListDel 2 true]) /\
  ~ In 2%nat (f3fs_list s') /\
  (forall x, x <> 2%nat -> In x (f3fs_list s') <-> In x (f3fs_list Sample.all_free)) /\
  (exists evs,
      trace (snd (f3fs_shrink_count Sample.MAX_FREE_NIDS s')) = trace s' ++ evs /\
      Forall (fun e => event_sbi e <> 2%nat) evs) /\
  (forall nr, exists freed s'' evs,
      f3fs_shrink_scan Sample.extent_tree_shrinker Sample.nats_shrinker
                       Sample.nids_shrinker nr s' = Some (freed, s'') /\
      trace s'' = trace s' ++ evs /\
      Forall (fun e => event_sbi e <> 2%nat) evs).
Proof.
  apply (@leave_drains_then_unlinks unit Sample.MAX_FREE_NIDS
           Sample.extent_tree_shrinker Sample.nats_shrinker Sample.nids_shrinker
           2 Sample.all_free).
  - reflexivity.
  - unfold counters_in_range. cbn. lia.
  - exact sample_nodes_distinct.
Defined.

(** C8 on the registry of three free instances, never scanned: the run id
    is 1. *)
Lemma scan_run_id_witness :
  exists freed s' evs,
    f3fs_shrink_scan Sample.extent_tree_shrinker Sample.nats_shrinker
                     Sample.nids_shrinker 20 Sample.all_free = Some (freed, s') /\
    trace s' = trace Sample.all_free ++ evs /\
    shrinker_run_no s' =
    (let c1 := Width.u32 (shrinker_run_no Sample.all_free + 1) in
     if c1 =? 0 then Width.u32 (c1 + 1) else c1) /\
    shrinker_run_no s' <> 0 /\
    (forall a r, In (EvStamp a r) evs ->
                 r = shrinker_run_no s' /\ sb_shrinker_run_no (mem s' a) = r) /\
    (0 <= shrinker_run_no Sample.all_free ->
     shrinker_run_no Sample.all_free + 1 < 2 ^ 32 ->
     shrinker_run_no s' = shrinker_run_no Sample.all_free + 1) /\
    (0 <= shrinker_run_no Sample.all_free ->
     shrinker_run_no Sample.all_free + 2 < 2 ^ 32 ->
     forall nr2, exists freed2 s2,
         f3fs_shrink_scan Sample.extent_tree_shrinker Sample.nats_shrinker
                          Sample.nids_shrinker nr2 s' = Some (freed2, s2) /\
         shrinker_run_no s' < shrinker_run_no s2).
Proof.
  apply (@scan_run_id unit Sample.extent_tree_shrinker Sample.nats_shrinker
           Sample.nids_shrinker 20 Sample.all_free).
  exact sample_nodes_distinct.
Defined.

(** C9 on the registry with instance 1 busy: asked for nothing, the scan
    skips instance 1, processes instance 2 and leaves instance 3 alone. *)
Lemma scan_zero_processes_first_witness :
  exists freed s' c r,
    f3fs_shrink_scan Sample.extent_tree_shrinker Sample.nats_shrinker
                     Sample.nids_shrinker 0 Sample.head_busy = Some (freed, s') /\
    Sample.extent_tree_shrinker (caches (mem Sample.head_busy 2)) 0 = (c, r) /\
    freed = Width.u64 r /\
    trace s' =
    trace Sample.head_busy ++ map (fun x => EvTryLock x false) [1%nat]
            ++ [EvTryLock 2 true;
                EvStamp 2 (next_run_no (shrinker_run_no Sample.head_busy));
                EvShrink ExtentCache 2 0 r false;
                EvListMoveTail 2 true;
                EvMutexUnlock 2] /\
    mem s' 2%nat = mkSbi false (next_run_no (shrinker_run_no Sample.head_busy)) c /\
    (forall x, x <> 2%nat -> mem s' x = mem Sample.head_busy x) /\
    f3fs_list s' = [1%nat] ++ [3%nat] ++ [2%nat] /\
    shrinker_run_no s' = next_run_no (shrinker_run_no Sample.head_busy).
Proof.
  apply (@scan_zero_processes_first unit Sample.extent_tree_shrinker
           Sample.nats_shrinker Sample.nids_shrinker Sample.head_busy
           [1%nat] 2%nat [3%nat]).
  - reflexivity.
  - exact sample_nodes_distinct.
  - intros x [<-|[]]. reflexivity.
  - reflexivity.
  - intros x [<-|[<-|[]]]; cbv; intros H; discriminate H.
Defined.

(** C9 as stated fails when a marker left by an earlier scan equals the run
    id drawn after the counter has wrapped: the only instance is free, and
    the scan for nothing leaves no event at all. *)
Lemma scan_zero_meets_stale_marker :
  umount_mutex (mem Sample.wrapped 1%nat) = false /\
  exists freed s',
    f3fs_shrink_scan Sample.extent_tree_shrinker Sample.nats_shrinker
                     Sample.nids_shrinker 0 Sample.wrapped = Some (freed, s') /\
    trace s' = trace Sample.wrapped /\
    acquired (trace s') = [] /\
    requests (trace s') = [].
Proof.
  split; [reflexivity|].
  assert (E : option_map (fun p : Z * kstate unit => trace (snd p))
                (f3fs_shrink_scan Sample.extent_tree_shrinker Sample.nats_shrinker
                                  Sample.nids_shrinker 0 Sample.wrapped)
              = Some [])
    by (vm_compute; reflexivity).
  destruct (f3fs_shrink_scan Sample.extent_tree_shrinker Sample.nats_shrinker
                             Sample.nids_shrinker 0 Sample.wrapped)
    as [[freed s']|]; [|discriminate E].
  cbn [option_map snd] in E. injection E as E.
  exists freed, s'. rewrite E. repeat split.
Qed.

(** The rotation needs markers that are not the run id drawn: in the same
    state, left by a gate held while the run counter went round, the one
    instance is free and gives up an object when shrunk, yet a scan for one
    object does not visit it. *)
Lemma scan_one_meets_stale_marker :
  (forall a, In a (f3fs_list Sample.wrapped) ->
             umount_mutex (mem Sample.wrapped a) = false /\
             yields_one Sample.extent_tree_shrinker Sample.nats_shrinker
                        Sample.nids_shrinker (caches (mem Sample.wrapped a))) /\
  exists s',
    scan_repeat Sample.extent_tree_shrinker Sample.nats_shrinker
                Sample.nids_shrinker (length (f3fs_list Sample.wrapped)) 1
                Sample.wrapped = Some s' /\
    In 1%nat (f3fs_list Sample.wrapped) /\
    ~ In 1%nat (acquired (trace s')).
Proof.
  split.
  - intros a _. split; [reflexivity|]. cbv. right. left. intros H. discriminate H.
  - assert (E : option_map (fun st : kstate unit => trace st)
                  (scan_repeat Sample.extent_tree_shrinker Sample.nats_shrinker
                               Sample.nids_shrinker
                               (length (f3fs_list Sample.wrapped)) 1 Sample.wrapped)
                = Some [])
      by (vm_compute; reflexivity).
    destruct (scan_repeat Sample.extent_tree_shrinker Sample.nats_shrinker
                          Sample.nids_shrinker
                          (length (f3fs_list Sample.wrapped)) 1 Sample.wrapped)
      as [s'|]; [|discriminate E].
    cbn [option_map] in E. injection E as E.
    exists s'. rewrite E. split; [reflexivity|]. split; [left; reflexivity|].
    intros [].
Qed.

(** ** The model at work *)

(** The budget test of the specification: one instance holding 8 extent
    nodes, asked for 20 objects.  The extent cache is asked for 10 and frees
    8, the NAT cache is asked for the missing 12 and frees 10, the free-id
    cache is asked for the missing 2 and frees them. *)
Example scan_twenty_requests :
  option_map (fun p : Z * kstate unit => (fst p, requests (trace (snd p))))
    (f3fs_shrink_scan Sample.extent_tree_shrinker Sample.nats_shrinker
                      Sample.nids_shrinker 20 Sample.single)
  = Some (20, [(ExtentCache, 1%nat, 10, 8);
               (NatCache, 1%nat, 12, 10);
               (FreeNidCache, 1%nat, 2, 2)]).
Proof. vm_compute. reflexivity. Qed.

(** With instance 2 busy and more asked than there is, the walk processes
    instances 1 and 3 and ends on instance 1, which it has stamped. *)
Example scan_busy_order :
  option_map (fun p : Z * kstate unit => (fst p, f3fs_list (snd p),
                                          acquired (trace (snd p))))
    (f3fs_shrink_scan Sample.extent_tree_shrinker Sample.nats_shrinker
                      Sample.nids_shrinker 100 Sample.one_busy)
  = Some (56, [2; 1; 3]%nat, [1; 3]%nat).
Proof. vm_compute. reflexivity. Qed.

(** The run counter skips zero when it wraps. *)
Example run_counter_skips_zero :
  option_map fst (fresh_run_no 2 Sample.wrapped) = Some 1.
Proof. vm_compute. reflexivity. Qed.

(** The count of the registry with instance 2 busy. *)
Example count_skips_busy :
  fst (f3fs_shrink_count Sample.MAX_FREE_NIDS Sample.one_busy) = 60.
Proof. vm_compute. reflexivity. Qed.

(** * The further properties on the sample registry *)

(** X2 with a fourth instance joining the registry of three. *)
Lemma join_then_count_witness :
  fst (f3fs_shrink_count Sample.MAX_FREE_NIDS
         (snd (f3fs_join_shrinker 4 Sample.all_free))) =
  fst (f3fs_shrink_count Sample.MAX_FREE_NIDS Sample.all_free) + 30.
Proof.
  destruct (@join_then_count unit Sample.MAX_FREE_NIDS 4%nat Sample.all_free)
    as (_ & _ & _ & _ & _ & _ & H & _).
  - cbn. intros H. repeat (destruct H as [H|H]; [discriminate H|]). exact H.
  - exact sample_nodes_distinct.
  - intros x _ _. cbn. unfold counters_in_range. cbn. lia.
  - unfold Sample.MAX_FREE_NIDS. lia.
  - vm_compute. reflexivity.
  - rewrite H. vm_compute. reflexivity.
Defined.

(** X3 on the registry with instance 2 busy, asked for 20 objects. *)
Lemma scan_keeps_registry_witness :
  exists freed s',
    f3fs_shrink_scan Sample.extent_tree_shrinker Sample.nats_shrinker
                     Sample.nids_shrinker 20 Sample.one_busy = Some (freed, s') /\
    (forall a, In a (f3fs_list s') <-> In a (f3fs_list Sample.one_busy)) /\
    NoDup (f3fs_list s') /\
    length (f3fs_list s') = length (f3fs_list Sample.one_busy) /\
    (forall a, umount_mutex (mem s' a) = umount_mutex (mem Sample.one_busy a)) /\
    f3fs_list_lock s' = false.
Proof.
  apply (@scan_keeps_registry unit Sample.extent_tree_shrinker
           Sample.nats_shrinker Sample.nids_shrinker 20 Sample.one_busy).
  exact sample_nodes_distinct.
Defined.

(** X4 on the registry with instance 2 busy, asked for 20 objects. *)
Lemma scan_touches_only_acquired_witness :
  exists freed s' evs,
    f3fs_shrink_scan Sample.extent_tree_shrinker Sample.nats_shrinker
                     Sample.nids_shrinker 20 Sample.one_busy = Some (freed, s') /\
    trace s' = trace Sample.one_busy ++ evs /\
    (forall a, ~ In a (acquired evs) -> mem s' a = mem Sample.one_busy a) /\
    (forall a, In a (acquired evs) ->
               In a (f3fs_list Sample.one_busy) /\
               umount_mutex (mem Sample.one_busy a) = false) /\
    NoDup (acquired evs).
Proof.
  apply (@scan_touches_only_acquired unit Sample.extent_tree_shrinker
           Sample.nats_shrinker Sample.nids_shrinker 20 Sample.one_busy).
  exact sample_nodes_distinct.
Defined.

(** X5 on the registry with instance 2 busy, asked for 100 objects. *)
Lemma scan_under_gate_witness :
  exists freed s' evs,
    f3fs_shrink_scan Sample.extent_tree_shrinker Sample.nats_shrinker
                     Sample.nids_shrinker 100 Sample.one_busy = Some (freed, s') /\
    trace s' = trace Sample.one_busy ++ evs /\
    Forall lock_as_due evs /\
    forall pre e post,
      evs = pre ++ e :: post ->
      under_gate_event e = true ->
      exists pre1 pre2,
        pre = pre1 ++ EvTryLock (event_sbi e) true :: pre2 /\
        forall x, ~ In (EvMutexUnlock x) pre2.
Proof.
  apply (@scan_under_gate unit Sample.extent_tree_shrinker
           Sample.nats_shrinker Sample.nids_shrinker 100 Sample.one_busy).
  exact sample_nodes_distinct.
Defined.

(** X6 on the registry with every instance busy, asked for 20 objects. *)
Lemma scan_all_busy_witness :
  exists s' evs,
    f3fs_shrink_scan Sample.extent_tree_shrinker Sample.nats_shrinker
                     Sample.nids_shrinker 20 Sample.all_busy = Some (0, s') /\
    trace s' = trace Sample.all_busy ++ evs /\
    Forall (fun e => exists a, In a (f3fs_list Sample.all_busy) /\
                               e = EvTryLock a false) evs /\
    f3fs_list s' = f3fs_list Sample.all_busy /\
    (forall a, mem s' a = mem Sample.all_busy a).
Proof.
  apply (@scan_all_busy unit Sample.extent_tree_shrinker
           Sample.nats_shrinker Sample.nids_shrinker 20 Sample.all_busy).
  - exact sample_nodes_distinct.
  - intros a _. reflexivity.
Defined.

(** X7 on the registry with instance 2 busy, asked for 100 objects, more
    than the three instances hold. *)
Lemma scan_short_tried_all_witness :
  exists freed s' evs,
    f3fs_shrink_scan Sample.extent_tree_shrinker Sample.nats_shrinker
                     Sample.nids_shrinker 100 Sample.one_busy = Some (freed, s') /\
    trace s' = trace Sample.one_busy ++ evs /\
    (freed < 100 ->
     (forall a, In a (f3fs_list Sample.one_busy) ->
                umount_mutex (mem Sample.one_busy a) = false ->
                In a (acquired evs)) /\
     (forall a, In a (f3fs_list Sample.one_busy) ->
                umount_mutex (mem Sample.one_busy a) = true ->
                In (EvTryLock a false) evs)).
Proof.
  apply (@scan_short_tried_all unit Sample.extent_tree_shrinker
           Sample.nats_shrinker Sample.nids_shrinker 100 Sample.one_busy).
  - exact sample_nodes_distinct.
  - intros a _. vm_compute. intros H. discriminate H.
Defined.

(** X8 on the registry of three free instances, asked for 20 objects. *)
Lemma scan_overshoot_witness :
  exists freed s',
    f3fs_shrink_scan Sample.extent_tree_shrinker Sample.nats_shrinker
                     Sample.nids_shrinker 20 Sample.all_free = Some (freed, s') /\
    0 <= freed < 20 + 2 ^ 32.
Proof.
  apply (@scan_overshoot unit Sample.extent_tree_shrinker
           Sample.nats_shrinker Sample.nids_shrinker 20 Sample.all_free).
  - exact sample_nodes_distinct.
  - exact sample_shrinkers_bounded.
  - lia.
  - lia.
Defined.

(** X9 with a fourth instance joining the registry of three and leaving
    it. *)
Lemma join_then_leave_witness :
  f3fs_list (snd (f3fs_leave_shrinker Sample.extent_tree_shrinker
                    Sample.nats_shrinker Sample.nids_shrinker 4
                    (snd (f3fs_join_shrinker 4 Sample.all_free)))) =
  [1; 2; 3]%nat.
Proof.
  apply (@join_then_leave unit Sample.extent_tree_shrinker Sample.nats_shrinker
           Sample.nids_shrinker 4%nat Sample.all_free).
  cbn. intros H. repeat (destruct H as [H|H]; [discriminate H|]). exact H.
Defined.

(** * The sysfs properties on samples *)

Section SysfsSamples.

Import String.

(** X10 on a page of eight bytes: seven characters fit. *)
Lemma features_show_clipped_witness :
  Sysfs.features_show 8 Sysfs.sample [] = (Sysfs.chars "encrypt", 7).
Proof.
  destruct (@features_show_clipped 8 Sysfs.sample []) as (E & _).
  - unfold Sysfs.INT_MAX. lia.
  - rewrite E. vm_compute. reflexivity.
Defined.

(** X11 on a page of 4096 bytes. *)
Lemma features_show_line_witness :
  Sysfs.features_show 4096 Sysfs.sample [] =
  (Sysfs.chars "encryption, quota_ino, casefold, pin_file" ++ [Sysfs.newline],
   42).
Proof.
  destruct (@features_show_line 4096 Sysfs.sample []) as (E & _).
  - unfold Sysfs.INT_MAX. lia.
  - rewrite E. vm_compute. reflexivity.
Defined.

(** X12 on twelve segments: a line of ten and a line of two. *)
Lemma segment_info_table_witness :
  Sysfs.segment_info_seq_show Sysfs.sample_entry 12 =
  Some (Sysfs.Legend
          :: Sysfs.row Sysfs.sample_entry 0 10
          ++ Sysfs.row Sysfs.sample_entry 10 2, 0).
Proof.
  rewrite (@segment_info_table Sysfs.sample_entry 12); [|lia].
  vm_compute. reflexivity.
Defined.

End SysfsSamples.
